(** * AIAI-eval: the bootstrapped evaluation loop of [task.py] and the
    configuration dataclasses of [config.py], as a shallow embedding.

    Python values are modelled as follows: [str] as [string], [dict] with
    string keys as [gmap string _], lists as [list], a raised exception as
    the left injection of a result, mutated state as an explicit world. *)

From Stdlib Require Import ZArith Lia List Reals Lra Floats.
From stdpp Require Import base option list gmap strings pretty.

Open Scope string_scope.
Open Scope list_scope.

(** ** config.py *)

Module Config.

(** [compute_kwargs] only travels to the metric backend; it is kept as a
    dictionary of opaque strings. *)
Record MetricConfig := {
  metric_name : string;
  metric_pretty_name : string;
  metric_huggingface_id : string;
  results_key : string;
  compute_kwargs : gmap string string
}.

Record Label := {
  label_name : string;
  synonyms : list string
}.

Record DatasetTask := {
  task_name : string;
  supertask : string;
  metrics : list MetricConfig;
  labels : list Label
}.

(** [use_auth_token] is [Union[bool, str]]. *)
Inductive AuthToken := AuthFlag (b : bool) | AuthString (token : string).

(** [EvaluationConfig].  The fields after [testing] are not declared by the
    dataclass of config.py; task.py reads them from the evaluation
    configuration and the test fixture (tests/conftest.py) sets them. *)
Record EvaluationConfig := {
  model_tasks : option (list string);
  dataset_tasks : list DatasetTask;
  raise_error_on_invalid_model : bool;
  cache_dir : string;
  use_auth_token : AuthToken;
  progress_bar : bool;
  save_results : bool;
  verbose : bool;
  testing : bool;
  track_carbon_emissions : bool;
  country_iso_code : string;
  only_return_log : bool
}.

(** [ModelConfig], as tests/test_config.py builds it. *)
Record ModelConfig := {
  model_id : string;
  revision : string;
  framework : string
}.

(** [TaskConfig], with the attributes task.py reads
    (tests/test_config.py gives the constructor). *)
Record TaskConfig := {
  tc_name : string;
  tc_pretty_name : string;
  tc_huggingface_id : string;
  tc_metrics : list MetricConfig;
  feature_column_names : list string;
  test_name : string
}.

Record DatasetConfig := {
  name : string;
  pretty_name : string;
  huggingface_id : string;
  task : DatasetTask
}.

(** [enumerate(xs)] *)
Definition enumerate {A} (xs : list A) : list (nat * A) :=
  imap (λ idx x, (idx, x)) xs.

(** [[label.name] + label.synonyms] *)
Definition label_strings (label : Label) : list string :=
  [label_name label] ++ synonyms label.

(** [DatasetConfig.id2label] *)
Definition id2label (cfg : DatasetConfig) : list string :=
  map label_name (labels (task cfg)).

(** A dict comprehension stores its pairs in generation order, a later
    pair overwriting an earlier one with the same key. *)
Definition dict_of_pairs {V} (kvs : list (string * V)) : gmap string V :=
  fold_left (λ d kv, <[kv.1 := kv.2]> d) kvs ∅.

(** The pairs generated by
    [for idx, label in enumerate(labels) for syn in [label.name] + label.synonyms]. *)
Definition label2id_pairs (ls : list Label) : list (string * nat) :=
  flat_map (λ il : nat * Label, map (λ syn, (syn, il.1)) (label_strings il.2))
           (enumerate ls).

(** [DatasetConfig.label2id] *)
Definition label2id (cfg : DatasetConfig) : gmap string nat :=
  dict_of_pairs (label2id_pairs (labels (task cfg))).

(** [DatasetConfig.num_labels] *)
Definition num_labels (cfg : DatasetConfig) : nat :=
  length (labels (task cfg)).

(** [DatasetConfig.label_synonyms] *)
Definition label_synonyms (cfg : DatasetConfig) : list (list string) :=
  map label_strings (labels (task cfg)).

(** [s] is the name or a synonym of the label at index [idx]. *)
Definition owns (cfg : DatasetConfig) (idx : nat) (s : string) : Prop :=
  ∃ label, labels (task cfg) !! idx = Some label ∧ s ∈ label_strings label.

(** No string is the name or a synonym of two different labels. *)
Definition labels_disjoint (cfg : DatasetConfig) : Prop :=
  ∀ i j s, owns cfg i s → owns cfg j s → i = j.

(** The property of [label2id] as the specification words it: every name
    and synonym is mapped to the index of the label it belongs to. *)
Definition label2id_no_collision (cfg : DatasetConfig) : Prop :=
  ∀ idx s, owns cfg idx s → label2id cfg !! s = Some idx.

(** Any two generated pairs with the same key carry the same index: the
    executable form of [labels_disjoint]. *)
Definition labels_disjointb (cfg : DatasetConfig) : bool :=
  let pairs := label2id_pairs (labels (task cfg)) in
  forallb (λ p, forallb (λ q, implb (String.eqb p.1 q.1) (Nat.eqb p.2 q.2)) pairs) pairs.

(** The label fixture of the test suite (tests/test_config.py). *)
Definition fixture_label : Label :=
  {| label_name := "label-name"; synonyms := ["synonym1"; "synonym2"] |}.

Definition config_of_labels (ls : list Label) : DatasetConfig :=
  {| name := "dataset"; pretty_name := "Dataset"; huggingface_id := "dataset-id";
     task := {| task_name := "task-name"; supertask := "supertask-name";
                metrics := []; labels := ls |} |}.

Definition fixture_config : DatasetConfig := config_of_labels [fixture_label].

(** Two labels that share the synonym ["neutral"]. *)
Definition shared_synonym_config : DatasetConfig :=
  config_of_labels
    [ {| label_name := "negative"; synonyms := ["neutral"] |};
      {| label_name := "positive"; synonyms := ["neutral"] |} ].

End Config.

(** ** Python values, exceptions and effects *)

Module Py.

(** The built-in exception classes the code meets. *)
Inductive builtin :=
| RuntimeError | ValueError | IndexError | KeyError
| TypeError | ZeroDivisionError | UnboundLocalError.

(** Modelled from the spec: the exception classes of exceptions.py, which
    is not among the sources.  The spec calls them fatal errors that are
    never handled as transient ones: each derives from [Exception]
    directly, none from [RuntimeError], [ValueError] or [IndexError].
    [Builtin cls text] is a built-in exception whose [str] is [text];
    [OtherException] is any exception of another class. *)
Inductive exn :=
| Builtin (cls : builtin) (text : string)
| InvalidEvaluation (message : string)
| InvalidFramework (framework : string)
| ModelNotTrainedForTask (task framework : string)
| MPSFallbackNotEnabled
| PreprocessingFailed
| UnsupportedModelType (model_type : string)
| WrongFeatureColumnName (column : string)
| OtherException (cls text : string).

(** What a call does: return a value, raise, or fail to terminate within
    the fuel given to its loops. *)
Inductive outcome (A : Type) :=
| Ok (a : A)
| Raise (e : exn)
| OutOfFuel.
Arguments Ok {A} a.
Arguments Raise {A} e.
Arguments OutOfFuel {A}.

#[export] Instance outcome_ret : MRet outcome := λ A a, Ok a.
#[export] Instance outcome_bind : MBind outcome := λ A B k o,
  match o with
  | Ok a => k a
  | Raise e => Raise e
  | OutOfFuel => OutOfFuel
  end.

(** [needle in hay] on strings *)
Fixpoint str_contains (needle hay : string) : bool :=
  String.prefix needle hay ||
  match hay with
  | EmptyString => false
  | String _ rest => str_contains needle rest
  end.

(** Python floats, abstractly: the operations the code applies to scores. *)
Class Arith (F : Type) := {
  fzero : F;
  fadd : F → F → F;
  fsub : F → F → F;
  fmul : F → F → F;
  fdiv : F → F → F;
  fsqrt : F → F;
  fof_Z : Z → F
}.

(** A cell of a dataset record. *)
Inductive Value :=
| VStr (s : string)
| VList (xs : list string)
| VInt (n : Z)
| VNone.

(** [len(v)] *)
Definition py_len (v : Value) : outcome nat :=
  match v with
  | VStr s => Ok (String.length s)
  | VList xs => Ok (length xs)
  | VInt _ => Raise (Builtin TypeError "object of type 'int' has no len()")
  | VNone => Raise (Builtin TypeError "object of type 'NoneType' has no len()")
  end.

(** A [datasets.Dataset]: its column names and its records in order. *)
Record Dataset := {
  column_names : list string;
  rows : list (gmap string Value)
}.

(** [len(dataset)] *)
Definition ds_len (ds : Dataset) : nat := length (rows ds).

(** Every record has exactly the columns of the schema. *)
Definition well_formed (ds : Dataset) : Prop :=
  Forall (λ row : gmap string Value, dom row = list_to_set (column_names ds)) (rows ds).

(** [record[col]] *)
Definition record_get (row : gmap string Value) (col : string) : outcome Value :=
  match row !! col with
  | Some v => Ok v
  | None => Raise (Builtin KeyError ("'" +:+ col +:+ "'"))
  end.

(** [[x for x in xs if keep(x)]], where [keep] may raise. *)
Fixpoint filter_raising {A} (keep : A → outcome bool) (xs : list A) : outcome (list A) :=
  match xs with
  | [] => Ok []
  | x :: rest =>
      b ← keep x;
      kept ← filter_raising keep rest;
      Ok (if (b : bool) then x :: kept else kept)
  end.

(** [dataset.filter(function)]: the function is applied to the records in
    order; an empty dataset has no record to apply it to. *)
Definition ds_filter (keep : gmap string Value → outcome bool) (ds : Dataset)
  : outcome Dataset :=
  kept ← filter_raising keep (rows ds);
  Ok {| column_names := column_names ds; rows := kept |}.

(** [xs[i]] on a list *)
Definition list_get {A} (xs : list A) (i : nat) : outcome A :=
  match xs !! i with
  | Some x => Ok x
  | None => Raise (Builtin IndexError "list index out of range")
  end.

(** [[f(x) for x in xs]], where [f] may raise. *)
Fixpoint map_raising {A B} (f : A → outcome B) (xs : list A) : outcome (list B) :=
  match xs with
  | [] => Ok []
  | x :: rest =>
      y ← f x;
      ys ← map_raising f rest;
      Ok (y :: ys)
  end.

(** [Dataset.from_dict(dataset[indices])]: the records at the given
    positions, in the order of the indices. *)
Definition ds_take (ds : Dataset) (indices : list nat) : outcome Dataset :=
  picked ← map_raising (list_get (rows ds)) indices;
  Ok {| column_names := column_names ds; rows := picked |}.

(** [dataset.select(range(n))], as the selection of the records at the
    positions 0 to [n - 1], which raises [IndexError] when one of them is
    missing.  The [datasets] library is not among the sources: what it
    does for a dataset with fewer than [n] records, and for one without
    records, is taken to be this. *)
Definition ds_select_range (ds : Dataset) (n : nat) : outcome Dataset :=
  ds_take ds (seq 0 n).

End Py.

(** ** task.py *)

Module Task.
Import Config Py.

(** The random sources reseeded at the start of an iteration. *)
Inductive RandomSource := PyRandom | NumpyRandom | TorchRandom | TorchCudaRandom.

(** [carbon_tracker.final_emissions_data] *)
Record EmissionsData (F : Type) := {
  emissions : F;
  energy_consumed : F
}.
Arguments emissions {F} _.
Arguments energy_consumed {F} _.

(** The collaborators of [Task] that are not part of task.py: the model
    and dataset providers, the random generator, the metric backends, the
    carbon tracker, the score logger, and the operations a concrete task
    supplies.  [X] is the state these collaborators share; an operation
    of type [Ext A] may change it and may raise. *)
Class Env (F : Type) := {
  X : Type;
  Model : Type;
  Tokenizer : Type;
  Collator : Type;
  Batch : Type;
  Pred : Type;
  Lab : Type;
  Rng : Type;
  Report : Type;
  Ext (A : Type) : Type := X → X * outcome A;
  (* hf_hub.py, utils.py, model_loading.py, co2.py *)
  get_model_config : string → EvaluationConfig → Ext ModelConfig;
  enforce_reproducibility : string → Ext Rng;
  load_model : ModelConfig → TaskConfig → EvaluationConfig → Ext (Model * Tokenizer);
  get_carbon_tracker : string → string → bool → Ext unit;
  clear_memory : Ext unit;
  (* datasets, numpy, random, torch *)
  load_dataset : TaskConfig → EvaluationConfig → bool → Ext Dataset;
  rng_integers : nat → nat → nat → Rng → Rng * list nat;
  set_seed : RandomSource → nat → Ext unit;
  collate : Collator → list (gmap string Value) → Ext Batch;
  (* the carbon tracker *)
  tracker_start : Ext unit;
  tracker_stop : Ext (EmissionsData F);
  (* the metric backends and the score logger *)
  metric_compute :
    string → gmap string string → list Lab → list Lab → Ext (option (gmap string F));
  log_scores : string → list MetricConfig → list (gmap string F) → string → bool → Ext Report;
  EMISSIONS : MetricConfig;
  POWER : MetricConfig;
  (* the operations of the concrete task *)
  _preprocess_data : Dataset → string → Model → option Tokenizer → Ext Dataset;
  _get_spacy_predictions : Model → Dataset → nat → Ext (list Pred);
  _load_data_collator : Tokenizer → Ext Collator;
  _check_if_model_is_trained_for_task : list Pred → Ext bool;
  (* [_prepare_batch], [_get_model_predictions] and the conversion of the
     result to a list *)
  _get_model_predictions : Model → Batch → Ext (list Pred);
  _prepare_predictions_and_labels :
    list Pred → Dataset → Dataset → option (Model * Tokenizer) → Ext (list (list Lab * list Lab))
}.

Section WithEnv.
Context {F : Type} {AF : Arith F} {E : Env F}.

(** What a run does that a caller can observe, in order. *)
Inductive Event :=
| EvGetModelConfig (id : string)
| EvEnforceReproducibility (fw : string)
| EvLoadModel (cfg : ModelConfig)
| EvGetCarbonTracker
| EvLoadDataset
| EvResample (indices : list nat)
| EvPreprocess (fw : string)
| EvLoadDataCollator
| EvIteration (idx : nat)
| EvSeed (source : RandomSource) (seed : nat)
| EvTrackerStart
| EvTrackerStop
| EvCollate
| EvPredict
| EvPreparePredictions
| EvCheckTrained (answer : outcome bool)
| EvMetricCompute (metric : string) (given : list Lab * list Lab)
| EvDelModel
| EvDelModelDict
| EvClearMemory
| EvLogScores (metric_names : list string) (scores : list (gmap string F)).

(** The local variables of a running single-iteration call that its
    [except] clause deletes. *)
Record Frame := {
  local_model : option Model;
  local_model_dict : option (Model * Tokenizer)
}.

Definition empty_frame : Frame :=
  {| local_model := None; local_model_dict := None |}.

Record World := {
  ext : X;
  frame : Frame
}.

(** A computation: from a world to the new world, the events emitted and
    the outcome. *)
Definition M (A : Type) : Type := World → World * list Event * outcome A.

#[export] Instance M_ret : MRet M := λ A a w, (w, [], Ok a).
#[export] Instance M_bind : MBind M := λ A B k m w,
  match m w with
  | (w1, evs1, Ok a) =>
      match k a w1 with
      | (w2, evs2, o) => (w2, evs1 ++ evs2, o)
      end
  | (w1, evs1, Raise e) => (w1, evs1, Raise e)
  | (w1, evs1, OutOfFuel) => (w1, evs1, OutOfFuel)
  end.

(** [raise e] *)
Definition raise {A} (e : exn) : M A := λ w, (w, [], Raise e).

Definition out_of_fuel {A} : M A := λ w, (w, [], OutOfFuel).

Definition emit (ev : Event) : M unit := λ w, (w, [ev], Ok ()).

(** A pure computation that may raise. *)
Definition lift {A} (o : outcome A) : M A := λ w, (w, [], o).

(** A call to a collaborator, recorded together with what it did. *)
Definition call_observed {A} (ev : outcome A → Event) (f : Ext A) : M A := λ w,
  match f (ext w) with
  | (x', o) => ({| ext := x'; frame := frame w |}, [ev o], o)
  end.

(** A call to a collaborator, recorded as [ev]. *)
Definition call {A} (ev : Event) (f : Ext A) : M A :=
  call_observed (λ _, ev) f.

(** [try: body except <classes>: handler]: [handler e] is [None] when the
    [except] clause does not name the class of [e]. *)
Definition try_except {A} (body : M A) (handler : exn → option (M A)) : M A := λ w,
  match body w with
  | (w1, evs1, Raise e) =>
      match handler e with
      | Some h =>
          match h w1 with
          | (w2, evs2, o) => (w2, evs1 ++ evs2, o)
          end
      | None => (w1, evs1, Raise e)
      end
  | r => r
  end.

(** One pass of a loop body either leaves the loop with a value or asks
    for another pass. *)
Inductive loop_ctl (A : Type) :=
| Break (a : A)
| Continue.
Arguments Break {A} a.
Arguments Continue {A}.

(** [while True: body] *)
Fixpoint while_true {A} (fuel : nat) (body : M (loop_ctl A)) : M A :=
  match fuel with
  | O => out_of_fuel
  | S fuel' =>
      c ← body;
      match c with
      | Break a => mret a
      | Continue => while_true fuel' body
      end
  end.

(** [for x in xs: body(x)] *)
Fixpoint for_each {A} (xs : list A) (body : A → M unit) : M unit :=
  match xs with
  | [] => mret ()
  | x :: rest => body x ;; for_each rest body
  end.

(** [[f(x) for x in xs]] *)
Fixpoint list_comprehension {A B} (f : A → M B) (xs : list A) : M (list B) :=
  match xs with
  | [] => mret []
  | x :: rest =>
      y ← f x;
      ys ← list_comprehension f rest;
      mret (y :: ys)
  end.

(** The attributes of [self]. *)
Context (task_config : TaskConfig) (evaluation_config : EvaluationConfig).

(** [self._metrics], built by [__init__]: the metric loaded for each
    metric name, identified by its Hugging Face id. *)
Definition _metrics : gmap string string :=
  dict_of_pairs (map (λ metric_cfg, (metric_name metric_cfg, metric_huggingface_id metric_cfg))
                     (tc_metrics task_config)).

(** What a single-iteration runner returns: the score dictionary, or the
    exception it caught. *)
Inductive IterResult :=
| IterScores (scores : gmap string F)
| IterErr (cls : builtin) (text : string).

(** [xs * n] on lists *)
Definition list_mul {A} (xs : list A) (n : nat) : list A :=
  concat (replicate n xs).

(** The locals of the running single-iteration call. *)
Definition new_frame : M unit := λ w,
  ({| ext := ext w; frame := empty_frame |}, [], Ok ()).

Definition assign_model_dict (model_dict : Model * Tokenizer) : M unit := λ w,
  ({| ext := ext w;
      frame := {| local_model := local_model (frame w);
                  local_model_dict := Some model_dict |} |}, [], Ok ()).

Definition assign_model (model : Model) : M unit := λ w,
  ({| ext := ext w;
      frame := {| local_model := Some model;
                  local_model_dict := local_model_dict (frame w) |} |}, [], Ok ()).

(** [del model] *)
Definition del_model : M unit := λ w,
  match local_model (frame w) with
  | Some _ =>
      ({| ext := ext w;
          frame := {| local_model := None;
                      local_model_dict := local_model_dict (frame w) |} |},
       [EvDelModel], Ok ())
  | None =>
      (w, [], Raise (Builtin UnboundLocalError
                       "local variable 'model' referenced before assignment"))
  end.

(** [del model_dict] *)
Definition del_model_dict : M unit := λ w,
  match local_model_dict (frame w) with
  | Some _ =>
      ({| ext := ext w;
          frame := {| local_model := local_model (frame w);
                      local_model_dict := None |} |},
       [EvDelModelDict], Ok ())
  | None =>
      (w, [], Raise (Builtin UnboundLocalError
                       "local variable 'model_dict' referenced before assignment"))
  end.

(** [except UnboundLocalError: pass] *)
Definition pass_unbound (e : exn) : option (M unit) :=
  match e with
  | Builtin UnboundLocalError _ => Some (mret ())
  | _ => None
  end.

(** [clear_memory()] *)
Definition call_clear_memory : M unit := call EvClearMemory clear_memory.

(** The classes of [except (RuntimeError, ValueError, IndexError)]. *)
Definition is_transient (cls : builtin) : bool :=
  match cls with
  | RuntimeError | ValueError | IndexError => true
  | _ => false
  end.

(** The [except (RuntimeError, ValueError, IndexError) as e] clause that
    ends both single-iteration runners. *)
Definition iteration_handler (e : exn) : option (M IterResult) :=
  match e with
  | Builtin cls text =>
      if is_transient cls then
        Some (if str_contains "PYTORCH_ENABLE_MPS_FALLBACK" text then
                raise MPSFallbackNotEnabled
              else
                (* Prevent memory leaks *)
                try_except del_model pass_unbound ;;
                try_except del_model_dict pass_unbound ;;
                call_clear_memory ;;
                (* Return the error if it wasn't caught by the above conditionals *)
                mret (IterErr cls text))
      else None
  | _ => None
  end.

(** [random.seed(703 + idx)] and its companions *)
Definition seed_all (sources : list RandomSource) (idx : nat) : M unit :=
  for_each sources (λ source, call (EvSeed source (703 + idx)) (set_seed source (703 + idx))).

(** [_compute_metrics]: the loop over
    [zip(self.task_config.metrics, predictions_and_labels)]. *)
Fixpoint compute_metrics_loop
    (zipped : list (MetricConfig * (list Lab * list Lab)))
    (results : gmap string F) : M (gmap string F) :=
  match zipped with
  | [] => mret results
  | (metric_cfg, (predictions, labels)) :: rest =>
      (* Load the metric *)
      metric ← match _metrics !! metric_name metric_cfg with
                | Some metric => mret metric
                | None => raise (Builtin KeyError ("'" +:+ metric_name metric_cfg +:+ "'"))
                end;
      score_dict ← call (EvMetricCompute (metric_name metric_cfg) (predictions, labels))
                        (metric_compute metric (compute_kwargs metric_cfg) predictions labels);
      (* Add scores to the `results` dictionary *)
      results' ← match score_dict with
                  | Some d =>
                      match d !! results_key metric_cfg with
                      | Some v => mret (<[metric_name metric_cfg := v]> results)
                      | None => raise (Builtin KeyError ("'" +:+ results_key metric_cfg +:+ "'"))
                      end
                  | None => mret results
                  end;
      compute_metrics_loop rest results'
  end.

Definition _compute_metrics (predictions_and_labels : list (list Lab * list Lab))
  : M (gmap string F) :=
  compute_metrics_loop (zip (tc_metrics task_config) predictions_and_labels) ∅.

(** If there are multiple metrics but only one pair in the list, the pair
    is copied so that there is a pair for each metric. *)
Definition copy_single_pair (prepared_predictions_and_labels : list (list Lab * list Lab))
  : list (list Lab * list Lab) :=
  if (length prepared_predictions_and_labels =? 1)%nat
     && (1 <? length (tc_metrics task_config))%nat
  then list_mul prepared_predictions_and_labels (length (tc_metrics task_config))
  else prepared_predictions_and_labels.

(** In the first iteration, check that the model outputs fit the expected
    format; [model_predictions] is [None] when the variable is unbound. *)
Definition first_iteration_check (idx : nat) (model_config : ModelConfig)
    (model_predictions : option (list Pred)) : M unit :=
  if (idx =? 0)%nat then
    predictions ← match model_predictions with
                   | Some predictions => mret predictions
                   | None => raise (Builtin UnboundLocalError
                       "local variable 'model_predictions' referenced before assignment")
                   end;
    trained ← call_observed EvCheckTrained (_check_if_model_is_trained_for_task predictions);
    if (trained : bool) then mret ()
    else raise (ModelNotTrainedForTask (tc_name task_config) (framework model_config))
  else mret ().

(** Stop carbon emissions tracking and store the emission metrics. *)
Definition store_emissions (prepared_dataset : Dataset) (scores : gmap string F)
  : M (gmap string F) :=
  if track_carbon_emissions evaluation_config then
    emissions_data ← call EvTrackerStop tracker_stop;
    factor ← (if (ds_len prepared_dataset =? 0)%nat
               then raise (Builtin ZeroDivisionError "division by zero")
               else mret (fdiv (fof_Z 1000000) (fof_Z (Z.of_nat (ds_len prepared_dataset)))));
    mret (<["energy_consumed" := fmul factor (energy_consumed emissions_data)]>
            (<["carbon_emissions" := fmul factor (emissions emissions_data)]> scores))
  else mret scores.

(** Start carbon emissions tracking. *)
Definition start_tracking : M unit :=
  if track_carbon_emissions evaluation_config
  then call EvTrackerStart tracker_start
  else mret ().

(** The batches of [DataLoader(prepared_dataset, batch_size, shuffle=False)],
    before collation. *)
Fixpoint batches_of {A} (fuel batch_size : nat) (xs : list A) : list (list A) :=
  match fuel, xs with
  | S fuel', _ :: _ => take batch_size xs :: batches_of fuel' batch_size (drop batch_size xs)
  | _, _ => []
  end.

(** The loop [for batch in itr] of the PyTorch runner: returns
    [all_predictions] and the value of [model_predictions] after the loop
    ([None] when the loop body never ran). *)
Fixpoint predict_batches (model : Model) (data_collator : Collator)
    (dataloader : list (list (gmap string Value)))
    (all_predictions : list Pred) (model_predictions : option (list Pred))
  : M (list Pred * option (list Pred)) :=
  match dataloader with
  | [] => mret (all_predictions, model_predictions)
  | records :: rest =>
      batch ← call EvCollate (collate data_collator records);
      predictions ← call EvPredict (_get_model_predictions model batch);
      predict_batches model data_collator rest (all_predictions ++ predictions) (Some predictions)
  end.

(** The [try] block of [_evaluate_pytorch_jax_single_iteration]. *)
Definition pytorch_jax_iteration_body (idx : nat) (model_config : ModelConfig)
    (dataset prepared_dataset : Dataset) (data_collator : Collator) : M IterResult :=
    ((* Set random seeds to enforce reproducibility *)
     seed_all [PyRandom; NumpyRandom; TorchRandom; TorchCudaRandom] idx ;;
     (* Reinitialise a new model *)
     model_dict ← call (EvLoadModel model_config)
                       (load_model model_config task_config evaluation_config);
     assign_model_dict model_dict ;;
     let model := model_dict.1 in
     assign_model model ;;
     let tokenizer := model_dict.2 in
     (* Define batch size, which depends on whether we are testing or not *)
     let batch_size := if testing evaluation_config then 2 else 32 in
     (* Create dataloader *)
     let dataloader :=
       batches_of (ds_len prepared_dataset) batch_size (rows prepared_dataset) in
     (* Start carbon emissions tracking *)
     start_tracking ;;
     (* Get model predictions *)
     '(all_predictions, model_predictions) ←
       predict_batches model data_collator dataloader [] None;
     (* Perform post-processing of predictions *)
     prepared_predictions_and_labels ←
       call EvPreparePredictions
            (_prepare_predictions_and_labels all_predictions dataset prepared_dataset
                                             (Some (model, tokenizer)));
     let prepared_predictions_and_labels :=
       copy_single_pair prepared_predictions_and_labels in
     (* In the first iteration we do a check *)
     first_iteration_check idx model_config model_predictions ;;
     (* Compute the metrics for each prediction batch *)
     scores ← _compute_metrics prepared_predictions_and_labels;
     scores ← store_emissions prepared_dataset scores;
     mret (IterScores scores)).

(** [_evaluate_pytorch_jax_single_iteration]: the [try] block and its
    [except] clause, in a fresh frame of locals. *)
Definition _evaluate_pytorch_jax_single_iteration (idx : nat) (model_config : ModelConfig)
    (dataset prepared_dataset : Dataset) (data_collator : Collator) : M IterResult :=
  emit (EvIteration idx) ;;
  new_frame ;;
  try_except
    (pytorch_jax_iteration_body idx model_config dataset prepared_dataset data_collator)
    iteration_handler.

(** The [try] block of [_evaluate_spacy_single_iteration]. *)
Definition spacy_iteration_body (idx : nat) (model_config : ModelConfig)
    (dataset prepared_dataset : Dataset) : M IterResult :=
    ((* Set random seeds to enforce reproducibility *)
     seed_all [PyRandom; NumpyRandom] idx ;;
     (* Reinitialise a new model *)
     model_dict ← call (EvLoadModel model_config)
                       (load_model model_config task_config evaluation_config);
     assign_model_dict model_dict ;;
     let model := model_dict.1 in
     assign_model model ;;
     (* Define batch size, which depends on whether we are testing or not *)
     let batch_size := if testing evaluation_config then 2 else 32 in
     (* Start carbon emissions tracking *)
     start_tracking ;;
     (* Get model predictions *)
     model_predictions ←
       call EvPredict (_get_spacy_predictions model prepared_dataset batch_size);
     (* In the first iteration we do a check *)
     first_iteration_check idx model_config (Some model_predictions) ;;
     (* Perform post-processing of predictions *)
     prepared_predictions_and_labels ←
       call EvPreparePredictions
            (_prepare_predictions_and_labels model_predictions dataset prepared_dataset None);
     let prepared_predictions_and_labels :=
       copy_single_pair prepared_predictions_and_labels in
     (* Compute the metrics for each prediction batch *)
     scores ← _compute_metrics prepared_predictions_and_labels;
     scores ← store_emissions prepared_dataset scores;
     mret (IterScores scores)).

(** [_evaluate_spacy_single_iteration] *)
Definition _evaluate_spacy_single_iteration (idx : nat) (model_config : ModelConfig)
    (dataset prepared_dataset : Dataset) : M IterResult :=
  emit (EvIteration idx) ;;
  new_frame ;;
  try_except
    (spacy_iteration_body idx model_config dataset prepared_dataset)
    iteration_handler.

(** The message of the [InvalidEvaluation] raised for iteration [idx]. *)
Definition unknown_error_message (idx : nat) (text : string) : string :=
  "An unknown error occurred during the evaluation of the "
  +:+ pretty idx +:+ " iteration. The error message returned was: " +:+ text.

(** The body of the [while True] loop around a single-iteration call. *)
Definition iteration_attempt (idx : nat) (single_iteration : M IterResult)
  : M (loop_ctl (gmap string F)) :=
  test_itr_scores_or_err ← single_iteration;
  match test_itr_scores_or_err with
  (* If the iteration was successful then break the while-loop *)
  | IterScores scores => mret (Break scores)
  (* Otherwise we encountered an error *)
  | IterErr cls text =>
      raise (InvalidEvaluation (unknown_error_message idx text))
  end.

(** The loop [for idx in itr] that collects [scores]. *)
Fixpoint collect_scores (fuel : nat) (single_iteration : nat → M IterResult)
    (itr : list nat) (scores : list (gmap string F)) : M (list (gmap string F)) :=
  match itr with
  | [] => mret scores
  | idx :: rest =>
      test_itr_scores ← while_true fuel (iteration_attempt idx (single_iteration idx));
      collect_scores fuel single_iteration rest (scores ++ [test_itr_scores])
  end.

(** If we are testing then truncate the test set. *)
Definition truncate_if_testing (dataset : Dataset) : M Dataset :=
  if testing evaluation_config then lift (ds_select_range dataset 4) else mret dataset.

(** The list comprehension that builds [bootstrapped_datasets]: one call
    [rng.integers(0, len(dataset), len(dataset))] for each of the
    [num_iter] rounds, on the same generator. *)
Fixpoint bootstrap (num_iter : nat) (dataset : Dataset) (rng : Rng) : M (list Dataset) :=
  match num_iter with
  | O => mret []
  | S rounds =>
      let '(rng', indices) := rng_integers 0 (ds_len dataset) (ds_len dataset) rng in
      emit (EvResample indices) ;;
      bootstrapped_dataset ← lift (ds_take dataset indices);
      others ← bootstrap rounds dataset rng';
      mret (bootstrapped_dataset :: others)
  end.

(** [except ValueError: raise PreprocessingFailed()] *)
Definition preprocessing_handler (e : exn) : option (M (list Dataset)) :=
  match e with
  | Builtin ValueError _ => Some (raise PreprocessingFailed)
  | _ => None
  end.

(** [metric_configs], with the emission metrics appended when tracking. *)
Definition logged_metric_configs : list MetricConfig :=
  if track_carbon_emissions evaluation_config
  then tc_metrics task_config ++ [EMISSIONS] ++ [POWER]
  else tc_metrics task_config.

(** The call to [log_scores] that ends both evaluation paths. *)
Definition call_log_scores (model_config : ModelConfig) (scores : list (gmap string F))
  : M Report :=
  call (EvLogScores (map metric_name logged_metric_configs) scores)
       (log_scores (tc_pretty_name task_config) logged_metric_configs scores
                   (model_id model_config) (only_return_log evaluation_config)).

(** The first part of [_evaluate_pytorch_jax], up to the loop over the
    iterations: the bootstrapped datasets, the prepared datasets and the
    data collator.  The count of parameters is only logged. *)
Definition pytorch_jax_setup (model_dict : Model * Tokenizer) (dataset : Dataset)
    (rng : Rng) (num_iter : nat) : M (list Dataset * list Dataset * Collator) :=
  (* Extract the model and tokenizer *)
  let model := model_dict.1 in
  let tokenizer := model_dict.2 in
  (* If we are testing then truncate the test set *)
  dataset ← truncate_if_testing dataset;
  (* Get bootstrapped datasets *)
  bootstrapped_datasets ← bootstrap num_iter dataset rng;
  (* Preprocess the bootstrapped datasets *)
  prepared_datasets ←
    try_except
      (list_comprehension
         (λ bootstrapped_dataset,
            call (EvPreprocess "pytorch")
                 (_preprocess_data bootstrapped_dataset "pytorch" model (Some tokenizer)))
         bootstrapped_datasets)
      preprocessing_handler;
  (* Load the data collator *)
  data_collator ← call EvLoadDataCollator (_load_data_collator tokenizer);
  mret (bootstrapped_datasets, prepared_datasets, data_collator).

(** The call made by the loop of [_evaluate_pytorch_jax] for [idx]. *)
Definition pytorch_jax_runner (model_config : ModelConfig)
    (bootstrapped_datasets prepared_datasets : list Dataset) (data_collator : Collator)
    (idx : nat) : M IterResult :=
  bootstrapped_dataset ← lift (list_get bootstrapped_datasets idx);
  prepared_dataset ← lift (list_get prepared_datasets idx);
  _evaluate_pytorch_jax_single_iteration idx model_config bootstrapped_dataset
                                         prepared_dataset data_collator.

(** The second part of [_evaluate_pytorch_jax] and of [_evaluate_spacy],
    which is the same text in both: the loop over the iterations, the one
    calling [_evaluate_pytorch_jax_single_iteration] and the other
    [_evaluate_spacy_single_iteration], and the call to [log_scores].  The
    progress bar wraps [range(num_iter)] without changing it. *)
Definition evaluate_loop (fuel : nat) (single_iteration : nat → M IterResult)
    (model_config : ModelConfig) (num_iter : nat) : M Report :=
  let itr := seq 0 num_iter in
  scores ← collect_scores fuel single_iteration itr [];
  (* Log scores *)
  call_log_scores model_config scores.

(** [_evaluate_pytorch_jax] *)
Definition _evaluate_pytorch_jax (fuel : nat) (model_dict : Model * Tokenizer)
    (dataset : Dataset) (rng : Rng) (model_config : ModelConfig) (num_iter : nat)
  : M Report :=
  '(bootstrapped_datasets, prepared_datasets, data_collator) ←
    pytorch_jax_setup model_dict dataset rng num_iter;
  evaluate_loop fuel
    (pytorch_jax_runner model_config bootstrapped_datasets prepared_datasets data_collator)
    model_config num_iter.

(** The first part of [_evaluate_spacy], up to the loop over the
    iterations. *)
Definition spacy_setup (model_dict : Model * Tokenizer) (dataset : Dataset)
    (rng : Rng) (num_iter : nat) : M (list Dataset * list Dataset) :=
  (* Extract the model *)
  let model := model_dict.1 in
  (* If we are testing then truncate the test set *)
  dataset ← truncate_if_testing dataset;
  (* Get bootstrapped datasets *)
  bootstrapped_datasets ← bootstrap num_iter dataset rng;
  (* Preprocess the bootstrapped datasets *)
  prepared_datasets ←
    try_except
      (list_comprehension
         (λ bootstrapped_dataset,
            call (EvPreprocess "spacy")
                 (_preprocess_data bootstrapped_dataset "spacy" model None))
         bootstrapped_datasets)
      preprocessing_handler;
  mret (bootstrapped_datasets, prepared_datasets).

(** The call made by the loop of [_evaluate_spacy] for [idx]. *)
Definition spacy_runner (model_config : ModelConfig)
    (bootstrapped_datasets prepared_datasets : list Dataset) (idx : nat) : M IterResult :=
  bootstrapped_dataset ← lift (list_get bootstrapped_datasets idx);
  prepared_dataset ← lift (list_get prepared_datasets idx);
  _evaluate_spacy_single_iteration idx model_config bootstrapped_dataset prepared_dataset.

(** [_evaluate_spacy] *)
Definition _evaluate_spacy (fuel : nat) (model_dict : Model * Tokenizer)
    (dataset : Dataset) (rng : Rng) (model_config : ModelConfig) (num_iter : nat)
  : M Report :=
  '(bootstrapped_datasets, prepared_datasets) ←
    spacy_setup model_dict dataset rng num_iter;
  evaluate_loop fuel
    (spacy_runner model_config bootstrapped_datasets prepared_datasets)
    model_config num_iter.

(** [lambda record: len(record[feat_column]) > 0] *)
Definition has_feature (feat_column : string) (record : gmap string Value) : outcome bool :=
  value ← record_get record feat_column;
  n ← py_len value;
  Ok (0 <? n)%nat.

(** The record has a value of positive length in the column. *)
Definition nonempty_feature (record : gmap string Value) (feat_column : string) : bool :=
  match has_feature feat_column record with
  | Ok b => b
  | _ => false
  end.

(** Remove empty examples from the dataset: the loop over
    [feature_column_names], each filter guarded by [except KeyError]. *)
Fixpoint remove_empty_examples (feat_columns : list string) (dataset : Dataset)
  : outcome Dataset :=
  match feat_columns with
  | [] => Ok dataset
  | feat_column :: rest =>
      match ds_filter (has_feature feat_column) dataset with
      | Ok dataset' => remove_empty_examples rest dataset'
      | Raise (Builtin KeyError _) => Raise (WrongFeatureColumnName feat_column)
      | other => other
      end
  end.

(** [num_iter = 10 if not self.evaluation_config.testing else 2] *)
Definition num_iter : nat :=
  if negb (testing evaluation_config) then 10 else 2.

(** [_load_data]: the download is forced when unit tests run. *)
Definition _load_data : M Dataset :=
  let force_redownload := testing evaluation_config in
  call EvLoadDataset (load_dataset task_config evaluation_config force_redownload).

(** The first part of [evaluate]: the model configuration, the random
    generator, the model, the carbon tracker and the dataset. *)
Definition acquire (id : string) : M (ModelConfig * Rng * (Model * Tokenizer) * Dataset) :=
  (* Fetch the model config *)
  model_config ← call (EvGetModelConfig id) (get_model_config id evaluation_config);
  (* Set random seeds to enforce reproducibility *)
  rng ← call (EvEnforceReproducibility (framework model_config))
             (enforce_reproducibility (framework model_config));
  (* Load the model *)
  model_dict ← call (EvLoadModel model_config)
                    (load_model model_config task_config evaluation_config);
  (* Prepare carbon tracker *)
  (if track_carbon_emissions evaluation_config
   then call EvGetCarbonTracker
             (get_carbon_tracker (tc_name task_config) (country_iso_code evaluation_config)
                                 (verbose evaluation_config))
   else mret ()) ;;
  (* Load the dataset *)
  dataset ← _load_data;
  mret (model_config, rng, model_dict, dataset).

(** The last part of [evaluate]: the branch on the framework of the
    model. *)
Definition dispatch (fuel : nat) (model_config : ModelConfig)
    (model_dict : Model * Tokenizer) (dataset : Dataset) (rng : Rng) (num_iter : nat)
  : M Report :=
  if String.eqb (framework model_config) "pytorch"
     || String.eqb (framework model_config) "jax" then
    _evaluate_pytorch_jax fuel model_dict dataset rng model_config num_iter
  else if String.eqb (framework model_config) "spacy" then
    _evaluate_spacy fuel model_dict dataset rng model_config num_iter
  else
    raise (InvalidFramework (framework model_config)).

(** [evaluate] *)
Definition evaluate (fuel : nat) (id : string) : M Report :=
  '(model_config, rng, model_dict, dataset) ← acquire id;
  (* Remove empty examples from the datasets *)
  dataset ← lift (remove_empty_examples (feature_column_names task_config) dataset);
  (* Set variable with number of iterations *)
  let num_iter := num_iter in
  dispatch fuel model_config model_dict dataset rng num_iter.

(** The dataset that the bootstrapped datasets are drawn from. *)
Definition resampled_dataset (dataset : Dataset) : outcome Dataset :=
  if testing evaluation_config then ds_select_range dataset 4 else Ok dataset.

(** The number of indices in every draw. *)
Definition resample_size (dataset : Dataset) : nat :=
  if testing evaluation_config then 4 else ds_len dataset.

(** *** Observations on runs *)

(** The indices of the single-iteration calls made, in order. *)
Definition iterations_of (evs : list Event) : list nat :=
  omap (λ ev, match ev with EvIteration idx => Some idx | _ => None end) evs.

(** The index arrays drawn for the bootstrapped datasets, in order. *)
Definition resamples_of (evs : list Event) : list (list nat) :=
  omap (λ ev, match ev with EvResample indices => Some indices | _ => None end) evs.

(** The calls to the metric backends, in order. *)
Definition metric_calls_of (evs : list Event) : list (string * (list Lab * list Lab)) :=
  omap (λ ev, match ev with EvMetricCompute metric given => Some (metric, given) | _ => None end)
       evs.

Definition is_iteration (ev : Event) : Prop :=
  match ev with EvIteration _ => True | _ => False end.

Definition is_check (ev : Event) : Prop :=
  match ev with EvCheckTrained _ => True | _ => False end.

Definition is_resample (ev : Event) : Prop :=
  match ev with EvResample _ => True | _ => False end.

(** The events of the body of a single-iteration call; the check of the
    first iteration is among them when [checked]. *)
Definition body_event (checked : bool) (ev : Event) : Prop :=
  match ev with
  | EvSeed _ _ | EvLoadModel _ | EvTrackerStart | EvTrackerStop | EvCollate | EvPredict
  | EvPreparePredictions | EvMetricCompute _ _ | EvDelModel | EvDelModelDict
  | EvClearMemory => True
  | EvCheckTrained _ => Is_true checked
  | _ => False
  end.

(** The events of a run of the loop over the iterations. *)
Definition loop_event (ev : Event) : Prop :=
  match ev with
  | EvIteration _ | EvLogScores _ _ => True
  | _ => body_event true ev
  end.

(** The events of the two setups. *)
Definition setup_event (ev : Event) : Prop :=
  match ev with
  | EvResample _ | EvPreprocess _ | EvLoadDataCollator => True
  | _ => False
  end.

(** The events of [acquire]. *)
Definition acquire_event (ev : Event) : Prop :=
  match ev with
  | EvGetModelConfig _ | EvEnforceReproducibility _ | EvLoadModel _ | EvGetCarbonTracker
  | EvLoadDataset => True
  | _ => False
  end.

(** Every event that [m] emits, in any run, satisfies [P]. *)
Definition emits_only {A} (P : Event → Prop) (m : M A) : Prop :=
  ∀ w, Forall P (m w).1.2.

(** In every run of [m], either [bad] is not emitted, or [bad] is the
    last event and the run raises an exception that satisfies [fatal]. *)
Definition aborts_on {A} (bad : Event) (fatal : exn → Prop) (m : M A) : Prop :=
  ∀ w w' evs o, m w = (w', evs, o) →
    Forall (λ ev, ev ≠ bad) evs ∨
    ((∃ e, o = Raise e ∧ fatal e) ∧ last evs = Some bad).

(** The trained-for-task check answered that the model is not trained
    for the task. *)
Definition check_failed : Event := EvCheckTrained (Ok false).

(** Whether an event is a trained-for-task check that answered false. *)
Definition is_failed_check (ev : Event) : bool :=
  match ev with
  | EvCheckTrained (Ok false) => true
  | _ => false
  end.

(** [m] never returns a caught exception. *)
Definition returns_scores (m : M IterResult) : Prop :=
  ∀ w w' evs r, m w = (w', evs, Ok r) → ∃ scores, r = IterScores scores.

(** [runs_in_order run itr w scores w' evs]: started in [w], the calls
    [run idx] for the indices of [itr], each made once and in order, all
    return score dictionaries, [scores]; they end in [w'] and emit [evs]. *)
Inductive runs_in_order (run : nat → M IterResult)
  : list nat → World → list (gmap string F) → World → list Event → Prop :=
| runs_nil w : runs_in_order run [] w [] w []
| runs_cons idx rest w w1 evs1 s ss w2 evs2 :
    run idx w = (w1, evs1, Ok (IterScores s)) →
    runs_in_order run rest w1 ss w2 evs2 →
    runs_in_order run (idx :: rest) w (s :: ss) w2 (evs1 ++ evs2).

(** The index arrays that [num_iter] successive draws of [len] indices
    below [len] give, from the generator state [rng]. *)
Fixpoint bootstrap_indices (num_iter len : nat) (rng : Rng) : list (list nat) :=
  match num_iter with
  | O => []
  | S rounds =>
      (rng_integers 0 len len rng).2
      :: bootstrap_indices rounds len (rng_integers 0 len len rng).1
  end.

(** The index arrays that [bootstrap] draws: it stops at the first array
    that does not index the dataset. *)
Fixpoint drawn_indices (num_iter : nat) (dataset : Dataset) (rng : Rng) : list (list nat) :=
  match num_iter with
  | O => []
  | S rounds =>
      let drawn := rng_integers 0 (ds_len dataset) (ds_len dataset) rng in
      drawn.2 :: match ds_take dataset drawn.2 with
                 | Ok _ => drawn_indices rounds dataset drawn.1
                 | _ => []
                 end
  end.

(** The contract of [Generator.integers(low, high, size)]: [size] values,
    each in the range from [low] inclusive to [high] exclusive. *)
Definition rng_in_range : Prop :=
  ∀ low high size rng,
    length (rng_integers low high size rng).2 = size ∧
    (low < high → Forall (λ i, low ≤ i < high) (rng_integers low high size rng).2).

(** The model is released: the locals [model] and [model_dict] are
    unbound and the last thing done was to clear memory. *)
Definition released (w : World) (evs : list Event) : Prop :=
  local_model (frame w) = None ∧
  local_model_dict (frame w) = None ∧
  last evs = Some EvClearMemory.

(** A single-iteration call failed: it raised, or it returned the
    exception it caught. *)
Definition failed (o : outcome IterResult) : Prop :=
  match o with
  | Ok (IterScores _) => False
  | Ok (IterErr _ _) => True
  | Raise _ => True
  | OutOfFuel => False
  end.

(** The property of the filter as the specification words it: when a
    configured feature column is not in the schema of the dataset,
    [evaluate] raises [WrongFeatureColumnName] and no iteration runs. *)
Definition wrong_column_always_raises : Prop :=
  ∀ fuel id w w1 evs1 model_config rng model_dict dataset col,
    acquire id w = (w1, evs1, Ok (model_config, rng, model_dict, dataset)) →
    well_formed dataset →
    col ∈ feature_column_names task_config →
    col ∉ column_names dataset →
    ∃ w' evs col', evaluate fuel id w = (w', evs, Raise (WrongFeatureColumnName col')) ∧
                   iterations_of evs = [].

(** The cleanup property as the specification words it: every failing
    exit of a single-iteration call releases the model first. *)
Definition releases_on_every_failure : Prop :=
  ∀ idx model_config dataset prepared_dataset data_collator w w' evs o,
    _evaluate_pytorch_jax_single_iteration idx model_config dataset prepared_dataset
                                           data_collator w = (w', evs, o) →
    failed o → released w' evs.

End WithEnv.

End Task.

(** ** scoring.py *)

Module Scoring.
Import Config Py.

(** Exact arithmetic on the real numbers: what the formulas of the
    aggregation mean.  The code computes on binary64 numbers
    ([float_arith] below), which round. *)
#[export] Instance R_arith : Arith R := {|
  fzero := 0%R;
  fadd := Rplus;
  fsub := Rminus;
  fmul := Rmult;
  fdiv := Rdiv;
  fsqrt := R_sqrt.sqrt;
  fof_Z := IZR
|}.

(** Scores as the code has them: binary64 floating-point numbers. *)
#[export] Instance float_arith : Arith float := {|
  fzero := 0%float;
  fadd := PrimFloat.add;
  fsub := PrimFloat.sub;
  fmul := PrimFloat.mul;
  fdiv := PrimFloat.div;
  fsqrt := PrimFloat.sqrt;
  fof_Z := λ z, match z with
                | Z0 => 0%float
                | Zpos _ => PrimFloat.of_uint63 (Uint63.of_Z z)
                | Zneg _ => PrimFloat.opp (PrimFloat.of_uint63 (Uint63.of_Z (Z.opp z)))
                end
|}.

Section WithArith.
Context {F : Type} {AF : Arith F}.

(** Modelled from the spec: scoring.py is not among the sources.  The sum
    of the scores of one metric over the iterations. *)
Definition sum_scores (xs : list F) : F := foldr fadd fzero xs.

(** Modelled from the spec: scoring.py is not among the sources.  "For
    each metric, compute arithmetic mean across iterations." *)
Definition mean (xs : list F) : F :=
  fdiv (sum_scores xs) (fof_Z (Z.of_nat (length xs))).

(** Modelled from the spec: scoring.py is not among the sources.  The
    sample standard deviation: the square root of the sum of the squared
    deviations from the mean, divided by [n - 1]. *)
Definition sample_std (xs : list F) : F :=
  fsqrt (fdiv (sum_scores (map (λ x, fmul (fsub x (mean xs)) (fsub x (mean xs))) xs))
              (fof_Z (Z.of_nat (length xs) - 1))).

(** Modelled from the spec: scoring.py is not among the sources.
    "Compute standard error = sample standard deviation / sqrt(n);
    defined as 0 when n <= 1." *)
Definition standard_error (xs : list F) : F :=
  if (length xs <=? 1)%nat then fzero
  else fdiv (sample_std xs) (fsqrt (fof_Z (Z.of_nat (length xs)))).

(** Modelled from the spec: scoring.py is not among the sources.  The
    scores of one metric in the per-iteration records, in order. *)
Definition metric_scores (scores : list (gmap string F)) (metric_cfg : MetricConfig)
  : list F :=
  omap (λ record : gmap string F, record !! metric_name metric_cfg) scores.

(** Modelled from the spec: scoring.py is not among the sources.  The
    mean and the standard error of one metric. *)
Definition aggregate_scores (scores : list (gmap string F)) (metric_cfg : MetricConfig)
  : F * F :=
  (mean (metric_scores scores metric_cfg), standard_error (metric_scores scores metric_cfg)).

(** Modelled from the spec: scoring.py is not among the sources.  The
    aggregated result: the raw records and, for every metric, its mean
    under the metric name and its standard error under the name with the
    suffix [_se]. *)
Record Aggregated := {
  raw : list (gmap string F);
  total : gmap string F
}.

(** Modelled from the spec: scoring.py is not among the sources.  The
    "total" mapping of the aggregated result. *)
Definition total_scores (metric_configs : list MetricConfig) (scores : list (gmap string F))
  : gmap string F :=
  fold_left
    (λ acc metric_cfg,
       <[metric_name metric_cfg +:+ "_se" := (aggregate_scores scores metric_cfg).2]>
         (<[metric_name metric_cfg := (aggregate_scores scores metric_cfg).1]> acc))
    metric_configs ∅.

(** Modelled from the spec: scoring.py is not among the sources.
    "Preserve raw per-iteration records unmodified alongside the
    aggregate." *)
Definition log_scores (metric_configs : list MetricConfig) (scores : list (gmap string F))
  : Aggregated :=
  {| raw := scores; total := total_scores metric_configs scores |}.

End WithArith.

(** The metric configurations of the example of the spec. *)
Definition MACRO_F1 : MetricConfig :=
  {| metric_name := "macro_f1"; metric_pretty_name := "Macro-average F1-score";
     metric_huggingface_id := "f1"; results_key := "f1";
     compute_kwargs := {[ "average" := "macro" ]} |}.

Definition MCC : MetricConfig :=
  {| metric_name := "mcc"; metric_pretty_name := "Matthew's Correlation Coefficient";
     metric_huggingface_id := "matthews_correlation";
     results_key := "matthews_correlation"; compute_kwargs := ∅ |}.

(** A finite score whose double is not finite: 2^1023. *)
Definition overflowing_score : float := 0x1p1023%float.

(** One record of the example: [{macro_f1: x, mcc: y}]. *)
Definition example_record {F} (x y : F) : gmap string F :=
  <["mcc" := y]> (<["macro_f1" := x]> ∅).

End Scoring.

(** ** A small environment to run the evaluation in *)

Module Toy.
Import Config Py Scoring Task.

(** What the collaborators of a run do: the framework of the model, the
    dataset loaded, the answer of the trained-for-task check, possibly
    the iteration whose forward pass raises, with the class and the text
    of the exception, and possibly the exception that the preprocessing
    of a dataset raises. *)
Record Script := {
  script_framework : string;
  script_dataset : Dataset;
  script_trained : bool;
  script_failure : option (nat * builtin * string);
  script_preprocessing : option (builtin * string)
}.

(** The forward pass: as many predictions as inputs, unless the script
    makes the iteration fail.  The state is the seed last set, which tells
    the iteration. *)
Definition toy_predict (sc : Script) (n : nat) (x : nat) : nat * outcome (list nat) :=
  match script_failure sc with
  | Some (idx, cls, text) =>
      if (x =? 703 + idx)%nat then (x, Raise (Builtin cls text))
      else (x, Ok (replicate n 0))
  | None => (x, Ok (replicate n 0))
  end.

(** A generator whose state is a counter: it draws the next [size]
    numbers, reduced to the range. *)
Definition toy_integers (low high size : nat) (g : nat) : nat * list nat :=
  (g + size + 1, map (λ k, low + (g + 3 * k * k) mod (high - low)) (seq 0 size)).

Definition toy_metric (metric : string) : gmap string float :=
  {[ metric := if String.eqb metric "f1"
               then 0x1.5555555555555p-2%float
               else (-0x1.5555555555555p-2)%float ]}.

Definition toy_env (sc : Script) : Env float := {|
  X := nat;
  Model := unit;
  Tokenizer := unit;
  Collator := unit;
  Batch := nat;
  Pred := nat;
  Lab := nat;
  Rng := nat;
  Report := Aggregated (F := float);
  get_model_config := λ id _ x,
    (x, Ok {| model_id := id; revision := "main"; framework := script_framework sc |});
  enforce_reproducibility := λ _ x, (x, Ok 4242);
  load_model := λ _ _ _ x, (x, Ok ((), ()));
  get_carbon_tracker := λ _ _ _ x, (x, Ok ());
  clear_memory := λ x, (x, Ok ());
  load_dataset := λ _ _ _ x, (x, Ok (script_dataset sc));
  rng_integers := toy_integers;
  set_seed := λ _ seed _, (seed, Ok ());
  collate := λ _ records x, (x, Ok (length records));
  tracker_start := λ x, (x, Ok ());
  tracker_stop := λ x, (x, Ok {| emissions := 0%float; energy_consumed := 0%float |});
  metric_compute := λ metric _ _ _ x, (x, Ok (Some (toy_metric metric)));
  log_scores := λ _ metric_configs scores _ _ x,
    (x, Ok (Scoring.log_scores metric_configs scores));
  EMISSIONS := {| metric_name := "carbon_emissions";
                  metric_pretty_name := "Carbon emissions";
                  metric_huggingface_id := ""; results_key := "co2";
                  compute_kwargs := ∅ |};
  POWER := {| metric_name := "energy_consumed";
              metric_pretty_name := "Energy consumed";
              metric_huggingface_id := ""; results_key := "energy";
              compute_kwargs := ∅ |};
  _preprocess_data := λ dataset _ _ _ x,
    match script_preprocessing sc with
    | Some (cls, text) => (x, Raise (Builtin cls text))
    | None => (x, Ok dataset)
    end;
  _get_spacy_predictions := λ _ prepared_dataset _ x,
    toy_predict sc (ds_len prepared_dataset) x;
  _load_data_collator := λ _ x, (x, Ok ());
  _check_if_model_is_trained_for_task := λ _ x, (x, Ok (script_trained sc));
  _get_model_predictions := λ _ batch x, toy_predict sc batch x;
  _prepare_predictions_and_labels := λ predictions _ _ _ x,
    (x, Ok [(predictions, predictions)])
|}.

Definition tweet (text label : string) : gmap string Value :=
  <["label" := VStr label]> (<["text" := VStr text]> ∅).

(** Five records, one of them with an empty text. *)
Definition tweets : Dataset := {|
  column_names := ["text"; "label"];
  rows := [ tweet "godt" "positiv"; tweet "" "neutral"; tweet "skidt" "negativ";
            tweet "fint" "positiv"; tweet "ok" "neutral" ]
|}.

(** A split without records. *)
Definition no_tweets : Dataset := {|
  column_names := ["text"; "label"];
  rows := []
|}.

Definition sent_config (feat_columns : list string) : TaskConfig := {|
  tc_name := "sent";
  tc_pretty_name := "sentiment classification";
  tc_huggingface_id := "DDSC/angry-tweets";
  tc_metrics := [MACRO_F1; MCC];
  feature_column_names := feat_columns;
  test_name := "test"
|}.

Definition run_config (is_testing : bool) : EvaluationConfig := {|
  model_tasks := None;
  dataset_tasks := [];
  raise_error_on_invalid_model := true;
  cache_dir := ".aiai_cache";
  use_auth_token := AuthFlag false;
  progress_bar := false;
  save_results := false;
  verbose := false;
  testing := is_testing;
  track_carbon_emissions := false;
  country_iso_code := "";
  only_return_log := false
|}.

Definition script (fw : string) (dataset : Dataset) (trained : bool)
    (failure : option (nat * builtin * string)) : Script :=
  {| script_framework := fw; script_dataset := dataset;
     script_trained := trained; script_failure := failure;
     script_preprocessing := None |}.

(** The world before a run. *)
Definition start (sc : Script) : World (E := toy_env sc) :=
  {| ext := 0 : X (Env := toy_env sc); frame := empty_frame |}.

(** A run of [evaluate] in the environment of a script. *)
Definition toy_evaluate (sc : Script) (feat_columns : list string) (is_testing : bool) :=
  evaluate (E := toy_env sc) (sent_config feat_columns) (run_config is_testing) 1
           "pin/senda" (start sc).

(** The first part of [evaluate], up to the loading of the dataset. *)
Definition toy_acquire (sc : Script) (feat_columns : list string) (is_testing : bool) :=
  acquire (E := toy_env sc) (sent_config feat_columns) (run_config is_testing)
          "pin/senda" (start sc).

(** The records of [tweets] that have a text. *)
Definition tweets_with_text : Dataset := {|
  column_names := ["text"; "label"];
  rows := [ tweet "godt" "positiv"; tweet "skidt" "negativ";
            tweet "fint" "positiv"; tweet "ok" "neutral" ]
|}.

(** A pair of predictions and labels. *)
Definition toy_pair : list nat * list nat := ([0; 1; 1], [0; 1; 0]).

(** The scripts of the runs below: a model that evaluates, one that is
    not trained for the task, one whose forward pass runs out of memory
    in iteration 1, one that meets an operator without MPS
    implementation in iteration 0, and a model given a split without
    records. *)
Definition good : Script := script "pytorch" tweets true None.
Definition untrained : Script := script "pytorch" tweets false None.
Definition out_of_memory : Script :=
  script "pytorch" tweets true (Some (1, RuntimeError, "CUDA out of memory")).
Definition no_records : Script := script "pytorch" no_tweets true None.

Definition toy_model_config (sc : Script) : ModelConfig :=
  {| model_id := "pin/senda"; revision := "main"; framework := script_framework sc |}.

(** The collaborators in another state. *)
Definition later (sc : Script) : World (E := toy_env sc) :=
  {| ext := 99 : X (Env := toy_env sc); frame := empty_frame |}.

(** A run of [_evaluate_pytorch_jax] and one of [_evaluate_spacy] on the
    dataset of the script, in testing mode. *)
Definition toy_pytorch_jax (sc : Script) (n : nat) :=
  _evaluate_pytorch_jax (E := toy_env sc) (sent_config ["text"]) (run_config true) 1
    ((), ()) (script_dataset sc) (4242 : Rng (Env := toy_env sc))
    (toy_model_config sc) n (start sc).

Definition toy_spacy (sc : Script) (n : nat) :=
  _evaluate_spacy (E := toy_env sc) (sent_config ["text"]) (run_config true) 3
    ((), ()) (script_dataset sc) (4242 : Rng (Env := toy_env sc))
    (toy_model_config sc) n (later sc).

(** A single-iteration call on the dataset of the script. *)
Definition toy_iteration (sc : Script) (idx : nat) :=
  _evaluate_pytorch_jax_single_iteration (E := toy_env sc) (sent_config ["text"])
    (run_config true) idx (toy_model_config sc) (script_dataset sc) (script_dataset sc)
    (() : Collator (Env := toy_env sc)) (start sc).

(** The setup of a run, and the loop that follows it. *)
Definition toy_setup (sc : Script) :=
  pytorch_jax_setup (E := toy_env sc) (run_config true) ((), ()) (script_dataset sc)
    (4242 : Rng (Env := toy_env sc)) 2 (start sc).

Definition toy_datasets (sc : Script) : list Dataset * list Dataset :=
  match (toy_setup sc).2 with
  | Ok (bootstrapped_datasets, prepared_datasets, _) =>
      (bootstrapped_datasets, prepared_datasets)
  | _ => ([], [])
  end.

Definition toy_runner (sc : Script) : nat → M (E := toy_env sc) IterResult :=
  pytorch_jax_runner (E := toy_env sc) (sent_config ["text"]) (run_config true)
    (toy_model_config sc) (toy_datasets sc).1 (toy_datasets sc).2
    (() : Collator (Env := toy_env sc)).

(** The calls of the loop for the indices 0 and 1, one after the other. *)
Definition toy_call_0 (sc : Script) := toy_runner sc 0 (toy_setup sc).1.1.
Definition toy_call_1 (sc : Script) := toy_runner sc 1 (toy_call_0 sc).1.1.

Definition toy_loop (sc : Script) :=
  evaluate_loop (E := toy_env sc) (sent_config ["text"]) (run_config true) 1
    (toy_runner sc) (toy_model_config sc) 2 (toy_setup sc).1.1.

(** What a run gave, when it returned. *)
Definition returned {A} (default : A) (o : outcome A) : A :=
  match o with
  | Ok a => a
  | _ => default
  end.

Definition no_report : Aggregated (F := float) := {| raw := []; total := ∅ |}.

Definition scores_of (r : IterResult (F := float)) : gmap string float :=
  match r with
  | IterScores scores => scores
  | IterErr _ _ => ∅
  end.

(** The message of the error that PyTorch raises for an operator without
    an implementation on the MPS device. *)
Definition mps_message : string :=
  "The operator is not currently implemented for the MPS device. As a temporary fix, you can set the environment variable `PYTORCH_ENABLE_MPS_FALLBACK=1`".

Definition no_mps_fallback : Script :=
  script "pytorch" tweets true (Some (0, RuntimeError, mps_message)).

End Toy.

(** ** More observations on runs *)

Module Watch.
Import Config Py Task.

Section WithEnv.
Context {F : Type} {AF : Arith F} {E : Env F}.

(** The model configurations that [load_model] was called with, in order. *)
Definition model_loads_of (evs : list Event) : list ModelConfig :=
  omap (λ ev, match ev with EvLoadModel cfg => Some cfg | _ => None end) evs.

(** The random sources seeded, with the seeds, in order. *)
Definition seeds_of (evs : list Event) : list (RandomSource * nat) :=
  omap (λ ev, match ev with EvSeed source seed => Some (source, seed) | _ => None end) evs.

(** The sources that the two single-iteration runners reseed. *)
Definition pytorch_jax_sources : list RandomSource :=
  [PyRandom; NumpyRandom; TorchRandom; TorchCudaRandom].

Definition spacy_sources : list RandomSource := [PyRandom; NumpyRandom].

(** The seed events of iteration [idx] for the given sources. *)
Definition seeds_for (sources : list RandomSource) (idx : nat) : list Event :=
  map (λ source, EvSeed source (703 + idx)) sources.

(** The answers that the trained-for-task check gave, in order. *)
Definition check_answers_of (evs : list Event) : list (outcome bool) :=
  omap (λ ev, match ev with EvCheckTrained answer => Some answer | _ => None end) evs.

(** The statements of the [except] clause that release the model. *)
Definition is_cleanup (ev : Event) : Prop :=
  match ev with
  | EvDelModel | EvDelModelDict | EvClearMemory => True
  | _ => False
  end.

(** The uses of the carbon tracker. *)
Definition is_tracker (ev : Event) : Prop :=
  match ev with
  | EvGetCarbonTracker | EvTrackerStart | EvTrackerStop => True
  | _ => False
  end.

Definition is_seed (ev : Event) : Prop :=
  match ev with EvSeed _ _ => True | _ => False end.

Definition is_load (ev : Event) : Prop :=
  match ev with EvLoadModel _ => True | _ => False end.

Definition is_metric_call (ev : Event) : Prop :=
  match ev with EvMetricCompute _ _ => True | _ => False end.

(** The steps that need predictions of the model: the forward passes,
    the trained-for-task check and the metrics. *)
Definition uses_predictions (ev : Event) : Prop :=
  match ev with
  | EvCollate | EvPredict | EvCheckTrained _ | EvMetricCompute _ _ => True
  | _ => False
  end.

(** What a [try] block does once the model is loaded: tracking, the
    forward passes, the post-processing, the check and the metrics. *)
Definition inference_event (ev : Event) : Prop :=
  match ev with
  | EvTrackerStart | EvTrackerStop | EvCollate | EvPredict | EvPreparePredictions
  | EvCheckTrained _ | EvMetricCompute _ _ => True
  | _ => False
  end.

(** What a [try] block does. *)
Definition try_event (ev : Event) : Prop :=
  match ev with
  | EvSeed _ _ | EvLoadModel _ => True
  | _ => inference_event ev
  end.

(** The steps that [evaluate] takes once, before it dispatches on the
    framework (it also loads the model, as every iteration does). *)
Definition is_acquisition (ev : Event) : Prop :=
  match ev with
  | EvGetModelConfig _ | EvEnforceReproducibility _ | EvGetCarbonTracker
  | EvLoadDataset => True
  | _ => False
  end.

(** The events of the steps of [evaluate] up to the loading of the
    dataset. *)
Definition acquire_trace (evaluation_config : EvaluationConfig) (id : string)
    (model_config : ModelConfig) : list Event :=
  [EvGetModelConfig id; EvEnforceReproducibility (framework model_config);
   EvLoadModel model_config]
  ++ (if track_carbon_emissions evaluation_config then [EvGetCarbonTracker] else [])
  ++ [EvLoadDataset].

(** The batch size of a single-iteration call. *)
Definition batch_size_of (evaluation_config : EvaluationConfig) : nat :=
  if testing evaluation_config then 2 else 32.

(** The event of the call to the backend of a metric on a pair. *)
Definition metric_call (given : MetricConfig * (list Lab * list Lab)) : Event :=
  EvMetricCompute (metric_name given.1) given.2.

End WithEnv.

End Watch.

(** ** task.py: the methods that prepare a batch and call the model *)

Module Methods.
Import Config Py.

(** A [dict] with string keys, as the list of its items in insertion
    order; the keys of a dict are distinct. *)
Definition Dict (V : Type) : Type := list (string * V).

(** [d.keys()] *)
Definition dict_keys {V} (d : Dict V) : list string := map fst d.

(** The value stored under [key], if any. *)
Definition dict_lookup {V} (d : Dict V) (key : string) : option V :=
  snd <$> List.find (λ item, String.eqb item.1 key) d.

(** [d[key]] *)
Definition dict_get {V} (d : Dict V) (key : string) : outcome V :=
  match dict_lookup d key with
  | Some value => Ok value
  | None => Raise (Builtin KeyError ("'" +:+ key +:+ "'"))
  end.

Section WithTensors.

(** The tensors and the devices of torch, with [value.to(device)],
    [torch.stack(tensors, dim=-1)] and the text of
    [model_predictions.keys()] in an f-string. *)
Context {Tensor Device : Type}.
Context (tensor_to : Tensor → Device → outcome Tensor).
Context (torch_stack_last : list Tensor → outcome Tensor).
Context (str_keys : Dict Tensor → string).

(** [self.evaluation_config.device]; the dataclass of config.py does not
    declare the attribute. *)
Context (device : EvaluationConfig → Device).

Definition accepted_transformer_features : list string :=
  ["input_ids"; "attention_mask"; "token_type_ids"].

(** [key in accepted_transformer_features] *)
Definition is_accepted (key : string) : bool :=
  existsb (String.eqb key) accepted_transformer_features.

(** [{key: value.to(self.evaluation_config.device) for key, value in batch.items()}] *)
Definition move_to_device (evaluation_config : EvaluationConfig) (batch : Dict Tensor)
  : outcome (Dict Tensor) :=
  map_raising
    (λ item : string * Tensor,
       value ← tensor_to item.2 (device evaluation_config);
       Ok (item.1, value))
    batch.

(** [_prepare_batch] *)
Definition _prepare_batch (evaluation_config : EvaluationConfig) (batch : Dict Tensor)
  : outcome (Dict Tensor) :=
  (* Move the tensors to the correct device *)
  batch ← move_to_device evaluation_config batch;
  (* Create a view of the batch with only desired features *)
  let batch := List.filter (λ item : string * Tensor, is_accepted item.1) batch in
  (* Return the prepared batch *)
  Ok batch.

(** The output of a Hugging Face model: its attributes, by name. *)
Definition ModelOutput : Type := Dict Tensor.

(** [hasattr(model_predictions, name)] *)
Definition hasattr (model_predictions : ModelOutput) (name : string) : bool :=
  match dict_lookup model_predictions name with
  | Some _ => true
  | None => false
  end.

(** [model_predictions.<name>] *)
Definition getattr (model_predictions : ModelOutput) (name : string) : outcome Tensor :=
  match dict_lookup model_predictions name with
  | Some value => Ok value
  | None => Raise (OtherException "AttributeError"
                     ("object has no attribute '" +:+ name +:+ "'"))
  end.

(** What [model] can be: an instance of [PreTrainedModel], called on the
    batch as keyword arguments; another [nn.Module], called on a tensor;
    or an object of another type, of which only [str(type(model))] is
    used. *)
Inductive ModelObject :=
| PreTrainedModel (forward : Dict Tensor → outcome ModelOutput)
| TorchModule (forward : Tensor → outcome Tensor)
| OtherObject (type_name : string).

(** [_get_model_predictions] *)
Definition _get_model_predictions (model : ModelObject) (batch : Dict Tensor)
  : outcome Tensor :=
  match model with
  (* If we are dealing with a Hugging Face model then we will use the
     entire batch dictionary *)
  | PreTrainedModel forward =>
      model_predictions ← forward batch;
      (* a classification model: take the logits *)
      if hasattr model_predictions "logits" then
        getattr model_predictions "logits"
      (* a question answering model: merge the start and end logits *)
      else if hasattr model_predictions "start_logits"
              && hasattr model_predictions "end_logits" then
        start_logits ← getattr model_predictions "start_logits";
        end_logits ← getattr model_predictions "end_logits";
        torch_stack_last [start_logits; end_logits]
      else
        Raise (Builtin ValueError
                 ("The model predictions are not in the correct format."
                  +:+ "Received outputs with keys "
                  +:+ str_keys model_predictions))
  (* If we are dealing with a PyTorch model, then we will only use the
     input_ids *)
  | TorchModule forward =>
      input_ids ← dict_get batch "input_ids";
      forward input_ids
  (* Otherwise, we throw an error *)
  | OtherObject model_type => Raise (UnsupportedModelType model_type)
  end.

(** The two calls that the loop over the batches of
    [_evaluate_pytorch_jax_single_iteration] makes for a batch:
    [self._prepare_batch(batch)], then [self._get_model_predictions]. *)
Definition forward_pass (evaluation_config : EvaluationConfig) (model : ModelObject)
    (batch : Dict Tensor) : outcome Tensor :=
  batch ← _prepare_batch evaluation_config batch;
  _get_model_predictions model batch.

(** Every tensor of the batch can be moved to the device. *)
Definition movable (evaluation_config : EvaluationConfig) (batch : Dict Tensor) : Prop :=
  Forall (λ item : string * Tensor,
            ∃ moved, tensor_to item.2 (device evaluation_config) = Ok moved) batch.

End WithTensors.

End Methods.

(** ** More runs of the toy environment *)

Module Scenes.
Import Config Py Scoring Task Toy Watch Methods.

(** The configuration of a run in testing mode with carbon tracking. *)
Definition tracking_config : EvaluationConfig := {|
  model_tasks := None;
  dataset_tasks := [];
  raise_error_on_invalid_model := true;
  cache_dir := ".aiai_cache";
  use_auth_token := AuthFlag false;
  progress_bar := false;
  save_results := false;
  verbose := false;
  testing := true;
  track_carbon_emissions := true;
  country_iso_code := "DNK";
  only_return_log := false
|}.

(** A spaCy model, and a model of a framework that is not supported. *)
Definition spacy_model : Script := script "spacy" tweets true None.
Definition tensorflow_model : Script := script "tensorflow" tweets true None.

(** A single-iteration call of the spaCy runner on the dataset of the
    script. *)
Definition toy_spacy_iteration (sc : Script) (idx : nat) :=
  _evaluate_spacy_single_iteration (E := toy_env sc) (sent_config ["text"])
    (run_config true) idx (toy_model_config sc) (script_dataset sc) (script_dataset sc)
    (start sc).

(** A single-iteration call of the PyTorch runner with carbon tracking. *)
Definition toy_tracked_iteration (sc : Script) (idx : nat) :=
  _evaluate_pytorch_jax_single_iteration (E := toy_env sc) (sent_config ["text"])
    tracking_config idx (toy_model_config sc) (script_dataset sc) (script_dataset sc)
    (() : Collator (Env := toy_env sc)) (start sc).

(** The [try] block of the single-iteration call [toy_iteration sc idx],
    in the fresh frame in which the call runs it. *)
Definition toy_try_block (sc : Script) (idx : nat) :=
  pytorch_jax_iteration_body (E := toy_env sc) (sent_config ["text"])
    (run_config true) idx (toy_model_config sc) (script_dataset sc) (script_dataset sc)
    (() : Collator (Env := toy_env sc))
    {| ext := ext (start sc); frame := empty_frame |}.

(** A model whose tokenizer rejects the data. *)
Definition unpreprocessable : Script := {|
  script_framework := "pytorch";
  script_dataset := tweets;
  script_trained := true;
  script_failure := None;
  script_preprocessing := Some (ValueError, "text input must be of type `str`")
|}.

(** The test dataset in testing mode: its first four records. *)
Definition first_tweets : Dataset := {|
  column_names := column_names tweets;
  rows := take 4 (rows tweets)
|}.

(** The resampling of the setup [toy_setup sc]. *)
Definition toy_bootstrap (sc : Script) :=
  bootstrap (E := toy_env sc) 2 first_tweets (4242 : Rng (Env := toy_env sc)) (start sc).

Definition toy_bootstrapped (sc : Script) : list Dataset :=
  returned [] (toy_bootstrap sc).2.

(** The loop over the batches of [tweets], in testing mode. *)
Definition toy_batches : list (list (gmap string Value)) :=
  batches_of (ds_len tweets) (batch_size_of (run_config true)) (rows tweets).

Definition toy_predictions (sc : Script) :=
  predict_batches (E := toy_env sc) () () toy_batches [] None (start sc).

(** The metrics of the task computed on a single pair. *)
Definition toy_metrics_on_one_pair (sc : Script) :=
  _compute_metrics (E := toy_env sc) (sent_config ["text"]) [toy_pair] (start sc).

(** Tensors as the lists of their entries, devices by name; a tensor
    with more than four entries does not fit on the device ["cuda"]. *)
Definition ToyTensor : Type := list nat.

Definition toy_to (value : ToyTensor) (device : string) : outcome ToyTensor :=
  if String.eqb device "cuda" && (4 <? length value)%nat
  then Raise (Builtin RuntimeError "CUDA out of memory")
  else Ok value.

Definition toy_stack (tensors : list ToyTensor) : outcome ToyTensor :=
  Ok (concat tensors).

Definition toy_str_keys (d : Dict ToyTensor) : string :=
  "odict_keys([" +:+ String.concat ", " (map (λ key, "'" +:+ key +:+ "'") (dict_keys d))
  +:+ "])".

Definition toy_device (evaluation_config : EvaluationConfig) : string :=
  if testing evaluation_config then "cpu" else "cuda".

(** A batch of one tokenised document with its label, and the same
    document with another label and its offsets. *)
Definition toy_batch : Dict ToyTensor :=
  [("input_ids", [101; 7; 102]); ("labels", [1]); ("attention_mask", [1; 1; 1])].

Definition toy_batch_relabelled : Dict ToyTensor :=
  [("offset_mapping", [0; 0; 0; 4; 0; 0]); ("input_ids", [101; 7; 102]);
   ("attention_mask", [1; 1; 1]); ("labels", [2])].

(** A batch without token ids. *)
Definition toy_batch_without_ids : Dict ToyTensor :=
  [("labels", [1]); ("attention_mask", [1; 1; 1])].

(** An [nn.Module] that doubles the entries of its input. *)
Definition toy_module : ModelObject (Tensor := ToyTensor) :=
  TorchModule (λ input_ids, Ok (map (λ entry, 2 * entry) input_ids)).

End Scenes.


(** ** Facts about config.py *)

Module ConfigFacts.
Import Config.

Lemma dict_of_pairs_fold_lookup {V} (kvs : list (string * V)) (d : gmap string V) s v :
  fold_left (λ d kv, <[kv.1 := kv.2]> d) kvs d !! s = Some v →
  (s, v) ∈ kvs ∨ d !! s = Some v.
Proof.
  revert d. induction kvs as [|[k w] kvs IH]; intros d H; simpl in *.
  - by right.
  - apply IH in H as [H|H].
    + left. by right.
    + destruct (decide (k = s)) as [->|Hne].
      * rewrite lookup_insert_eq in H. injection H as ->. left. by left.
      * rewrite lookup_insert_ne in H by done. by right.
Qed.

Lemma dict_of_pairs_fold_is_Some {V} (kvs : list (string * V)) (d : gmap string V) s :
  s ∈ kvs.*1 ∨ is_Some (d !! s) →
  is_Some (fold_left (λ d kv, <[kv.1 := kv.2]> d) kvs d !! s).
Proof.
  revert d. induction kvs as [|[k w] kvs IH]; intros d H; simpl in *.
  - destruct H as [H|H]; [by apply elem_of_nil in H | done].
  - apply IH. destruct H as [H|H].
    + apply elem_of_cons in H as [->|H]; [right | by left].
      rewrite lookup_insert_eq. by eexists.
    + right. destruct (decide (k = s)) as [->|Hne].
      * rewrite lookup_insert_eq. by eexists.
      * by rewrite lookup_insert_ne.
Qed.

Lemma dict_of_pairs_lookup_Some {V} (kvs : list (string * V)) s v :
  dict_of_pairs kvs !! s = Some v → (s, v) ∈ kvs.
Proof.
  intros H. apply dict_of_pairs_fold_lookup in H as [H|H]; [done|].
  by rewrite lookup_empty in H.
Qed.

Lemma dict_of_pairs_lookup_unique {V} (kvs : list (string * V)) s v :
  (s, v) ∈ kvs → (∀ w, (s, w) ∈ kvs → w = v) → dict_of_pairs kvs !! s = Some v.
Proof.
  intros Hin Huniq.
  destruct (dict_of_pairs_fold_is_Some kvs ∅ s) as [w Hw].
  - left. apply list_elem_of_fmap. by exists (s, v).
  - unfold dict_of_pairs. rewrite Hw. f_equal. apply Huniq.
    by apply dict_of_pairs_lookup_Some.
Qed.

Lemma elem_of_label2id_pairs ls s idx :
  (s, idx) ∈ label2id_pairs ls ↔
  ∃ label, ls !! idx = Some label ∧ s ∈ label_strings label.
Proof.
  unfold label2id_pairs, enumerate. rewrite list_elem_of_In, in_flat_map. split.
  - intros [[i label] [Hil Hs]]. cbn [fst snd] in Hs.
    apply list_elem_of_In, list_elem_of_lookup in Hil as [n Hn].
    rewrite list_lookup_imap in Hn.
    destruct (ls !! n) as [l'|] eqn:E; simpl in Hn; [|done].
    injection Hn as <- <-.
    apply list_elem_of_In, list_elem_of_fmap in Hs as [syn [Heq Hsyn]].
    injection Heq as -> ->. eauto.
  - intros [label [Hl Hs]]. exists (idx, label). split.
    + apply list_elem_of_In, list_elem_of_lookup. exists idx.
      by rewrite list_lookup_imap, Hl.
    + cbn [fst snd]. apply list_elem_of_In, list_elem_of_fmap. by exists s.
Qed.

Lemma label2id_lookup_owner cfg s idx :
  label2id cfg !! s = Some idx → owns cfg idx s.
Proof.
  intros H. apply dict_of_pairs_lookup_Some in H.
  by apply elem_of_label2id_pairs in H.
Qed.

Lemma labels_disjointb_correct cfg :
  labels_disjointb cfg = true → labels_disjoint cfg.
Proof.
  unfold labels_disjointb, labels_disjoint, owns. intros Hb i j s Hi Hj.
  apply elem_of_label2id_pairs in Hi, Hj.
  rewrite forallb_forall in Hb.
  specialize (Hb _ (proj1 (list_elem_of_In _ _) Hi)).
  rewrite forallb_forall in Hb.
  specialize (Hb _ (proj1 (list_elem_of_In _ _) Hj)).
  cbn [fst snd] in Hb. rewrite String.eqb_refl in Hb. simpl in Hb.
  by apply Nat.eqb_eq in Hb.
Qed.

Example label2id_fixture :
  label2id fixture_config
  = {[ "label-name" := 0; "synonym1" := 0; "synonym2" := 0 ]}.
Proof. apply map_eq. intros s. vm_compute. reflexivity. Qed.

(** C9, as worded: every name and synonym is mapped to the index of its
    owning label.  This fails when two labels share a string: the dict
    comprehension keeps the index of the last label that carries it, so
    ["neutral"], a synonym of label 0, is mapped to 1. *)
Lemma label2id_collision_counterexample :
  owns shared_synonym_config 0 "neutral" ∧
  label2id shared_synonym_config !! "neutral" = Some 1 ∧
  ¬ label2id_no_collision shared_synonym_config.
Proof.
  assert (Hown : owns shared_synonym_config 0 "neutral").
  { eexists. split; [reflexivity|]. unfold label_strings; simpl. rewrite !elem_of_cons. auto. }
  assert (Hlook : label2id shared_synonym_config !! "neutral" = Some 1)
    by (vm_compute; reflexivity).
  split; [done|]. split; [done|].
  intros Hclaim. specialize (Hclaim 0 "neutral" Hown).
  rewrite Hlook in Hclaim. discriminate.
Qed.

Lemma label2id_covers cfg idx s :
  owns cfg idx s → ∃ j, label2id cfg !! s = Some j ∧ owns cfg j s.
Proof.
  intros Hown.
  destruct (dict_of_pairs_fold_is_Some
              (label2id_pairs (labels (task cfg))) ∅ s) as [j Hj].
  - left. apply list_elem_of_fmap. exists (s, idx). split; [done|].
    by apply elem_of_label2id_pairs.
  - exists j. split; [done|]. by apply label2id_lookup_owner.
Qed.

(** C9, amended: when no string is the name or a synonym of two different
    labels, [label2id] maps every label name and every synonym to the
    index of the label it belongs to. *)
Theorem label2id_disjoint_owner cfg idx s :
  labels_disjoint cfg →
  owns cfg idx s →
  label2id cfg !! s = Some idx.
Proof.
  intros Hdisj Hown. apply dict_of_pairs_lookup_unique.
  - by apply elem_of_label2id_pairs.
  - intros w Hw. apply elem_of_label2id_pairs in Hw.
    by apply (Hdisj w idx s).
Qed.

Lemma label2id_disjoint_owner_witness :
  labels_disjoint fixture_config ∧
  owns fixture_config 0 "synonym1" ∧
  label2id fixture_config !! "synonym1" = Some 0.
Proof.
  assert (Hdisj : labels_disjoint fixture_config)
    by (apply labels_disjointb_correct; vm_compute; reflexivity).
  assert (Hown : owns fixture_config 0 "synonym1").
  { eexists. split; [reflexivity|]. unfold label_strings; simpl. rewrite !elem_of_cons. auto. }
  split; [exact Hdisj|]. split; [exact Hown|].
  exact (label2id_disjoint_owner fixture_config 0 "synonym1" Hdisj Hown).
Defined.

End ConfigFacts.

(** ** Facts about scoring.py *)

Module ScoringFacts.
Import Config Py Scoring.

Lemma sum_scores_replicate (n : nat) (x : R) :
  sum_scores (replicate n x) = (INR n * x)%R.
Proof.
  induction n as [|n IH].
  - simpl. lra.
  - rewrite S_INR. cbn [replicate sum_scores foldr].
    fold (sum_scores (replicate n x)). rewrite IH. simpl. lra.
Qed.

Lemma mean_replicate (n : nat) (x : R) :
  n ≠ 0 → mean (replicate n x) = x.
Proof.
  intros Hn. unfold mean. rewrite sum_scores_replicate, length_replicate.
  cbn [fdiv fof_Z R_arith]. rewrite <- INR_IZR_INZ.
  field. by apply not_0_INR.
Qed.

Lemma sample_std_replicate (n : nat) (x : R) :
  n ≠ 0 → sample_std (replicate n x) = 0%R.
Proof.
  intros Hn. unfold sample_std. rewrite (mean_replicate n x Hn).
  assert (Hdev : map (λ y : R, fmul (fsub y x) (fsub y x)) (replicate n x)
                 = replicate n 0%R).
  { clear Hn. induction n as [|n IH]; [done|].
    cbn [replicate map]. rewrite IH. f_equal. simpl. lra. }
  rewrite Hdev, sum_scores_replicate. cbn [fsqrt fdiv R_arith].
  replace (INR n * 0 / _)%R with 0%R by (unfold Rdiv; lra).
  apply R_sqrt.sqrt_0.
Qed.

Lemma standard_error_replicate (n : nat) (x : R) :
  standard_error (replicate n x) = 0%R.
Proof.
  unfold standard_error. rewrite length_replicate.
  destruct (n <=? 1)%nat eqn:E; [done|].
  apply Nat.leb_gt in E.
  rewrite sample_std_replicate by lia.
  cbn [fdiv R_arith]. unfold Rdiv. lra.
Qed.

Lemma metric_scores_example {F} (x y : F) :
  metric_scores [example_record x y; example_record x y] MACRO_F1 = [x; x] ∧
  metric_scores [example_record x y; example_record x y] MCC = [y; y].
Proof. split; reflexivity. Qed.

(** *** Binary64 arithmetic on two equal scores *)

Section Binary64.
Local Open Scope Z_scope.

Lemma fexp_eq (z : Z) : fexp prec emax z = Z.max (z - 53) (-1074).
Proof. reflexivity. Qed.

Lemma shl_align_le (m : positive) (e e' : Z) : e ≤ e' → shl_align m e e' = (m, e).
Proof.
  intros Hle. unfold shl_align. destruct (e' - e) as [|p|p] eqn:Hd; [done|done|lia].
Qed.

Lemma binary_round_aux_exact (s : bool) (m : positive) (e : Z) :
  fexp prec emax (Zpos (digits2_pos m) + e) = e →
  binary_round_aux prec emax s (Zpos m) e loc_Exact
  = if e <=? emax - prec then S754_finite s m e else S754_infinity s.
Proof.
  intros Hc. unfold binary_round_aux, shr_fexp. cbn [Zdigits2 shr_record_of_loc].
  rewrite Hc, Z.sub_diag. cbn [shr shr_m loc_of_shr_record shr_r shr_s round_nearest_even].
  cbn [Zdigits2]. rewrite Hc, Z.sub_diag. reflexivity.
Qed.

Lemma binary_round_aux_even (s : bool) (m : positive) (e : Z) :
  fexp prec emax (Zpos (digits2_pos m~0) + e) = e + 1 →
  fexp prec emax (Zpos (digits2_pos m) + (e + 1)) = e + 1 →
  binary_round_aux prec emax s (Zpos m~0) e loc_Exact
  = if e + 1 <=? emax - prec then S754_finite s m (e + 1) else S754_infinity s.
Proof.
  intros H1 H2. unfold binary_round_aux, shr_fexp. cbn [Zdigits2 shr_record_of_loc].
  rewrite H1. replace (e + 1 - e) with 1 by lia.
  cbn [shr SpecFloat.iter_pos shr_1 shr_m loc_of_shr_record shr_r shr_s round_nearest_even orb].
  cbn [Zdigits2]. rewrite H2, Z.sub_diag. reflexivity.
Qed.


(** What validity says of a finite number: its mantissa has 53 digits,
    or fewer at the least exponent. *)
Lemma valid_finite (s : bool) (m : positive) (e : Z) :
  valid_binary (S754_finite s m e) = true →
  e ≤ 971 ∧
  (Zpos (digits2_pos m) = 53 ∧ -1074 ≤ e ∨ Zpos (digits2_pos m) < 53 ∧ e = -1074).
Proof.
  unfold SpecFloat.valid_binary, bounded, canonical_mantissa. rewrite fexp_eq.
  intros Hv. apply andb_prop in Hv as [Hc Hb].
  apply Z.eqb_eq in Hc. apply Z.leb_le in Hb. change (emax - prec) with 971 in Hb.
  lia.
Qed.

Lemma digits2_double (m : positive) :
  Zpos (digits2_pos m~0) = Zpos (digits2_pos m) + 1.
Proof. cbn [digits2_pos]. lia. Qed.

(** The sum of a finite number with itself. *)
Lemma SFadd_self (s : bool) (m : positive) (e : Z) :
  valid_binary (S754_finite s m e) = true →
  SF64add (S754_finite s m e) (S754_finite s m e)
  = if Zpos (digits2_pos m) =? 53
    then (if e + 1 <=? 971 then S754_finite s m (e + 1) else S754_infinity s)
    else S754_finite s m~0 e.
Proof.
  intros Hv. apply valid_finite in Hv as [Hb Hc].
  unfold SF64add, SFadd. rewrite Z.min_id, (shl_align_le m e e) by lia. cbn [fst].
  assert (Hsum : cond_Zopp s (Zpos m) + cond_Zopp s (Zpos m) = cond_Zopp s (Zpos m~0))
    by (destruct s; cbn; lia).
  rewrite Hsum.
  assert (Hround : binary_normalize prec emax (cond_Zopp s (Zpos m~0)) e false
                   = binary_round prec emax s m~0 e) by (by destruct s).
  rewrite Hround. unfold binary_round.
  rewrite shl_align_le by (rewrite fexp_eq, digits2_double; lia).
  destruct Hc as [[Hd He]|[Hd He]].
  - rewrite Hd. cbn [Z.eqb Pos.eqb].
    rewrite binary_round_aux_even; [done|rewrite fexp_eq, digits2_double; lia|].
    rewrite fexp_eq. lia.
  - destruct (Z.eqb_spec (Zpos (digits2_pos m)) 53) as [Heq|_]; [lia|].
    rewrite binary_round_aux_exact by (rewrite fexp_eq, digits2_double; lia).
    change (emax - prec) with 971.
    destruct (Z.leb_spec e 971) as [_|Hgt]; [done|lia].
Qed.

(** The difference of a finite number with itself. *)
Lemma SFsub_self (s : bool) (m : positive) (e : Z) :
  SF64sub (S754_finite s m e) (S754_finite s m e) = S754_zero false.
Proof.
  unfold SF64sub, SFsub. rewrite Z.min_id, (shl_align_le m e e) by lia. cbn [fst].
  by rewrite Z.sub_diag.
Qed.

Lemma div_eucl_exact (a b q : Z) : 0 < b → a = b * q → Z.div_eucl a b = (q, 0).
Proof.
  intros Hb ->. pose proof (Z_div_mod (b * q) b ltac:(lia)) as Hdm.
  destruct (Z.div_eucl (b * q) b) as [q' r]. destruct Hdm as [Heq Hr].
  assert (q' = q) by nia. subst q'. f_equal. lia.
Qed.

(** Division of a finite number by two, through the three shifts that
    occur for the double of a valid number. *)
Lemma SFdiv_core_two (m1 : positive) (e1 e' : Z) (p q : positive) :
  e' = Z.min (fexp prec emax (Zpos (digits2_pos m1) + e1 - 2)) (e1 + 51) →
  e1 + 51 - e' = Zpos p →
  Zpos m1 * 2 ^ Zpos p = 4503599627370496 * Zpos q →
  SFdiv_core_binary prec emax (Zpos m1) e1 4503599627370496 (-51)
  = (Zpos q, e', loc_Exact).
Proof.
  intros He' Hs Hq. unfold SFdiv_core_binary. cbn [Zdigits2].
  change (Zpos (digits2_pos 4503599627370496)) with 53.
  replace (Zpos (digits2_pos m1) + e1 - (53 + -51))
    with (Zpos (digits2_pos m1) + e1 - 2) by lia.
  replace (e1 - -51) with (e1 + 51) by lia.
  rewrite <- He', Hs. rewrite Z.shiftl_mul_pow2 by lia.
  rewrite (div_eucl_exact _ 4503599627370496 (Zpos q)) by (lia || exact Hq).
  reflexivity.
Qed.

(** Half of the double of a finite number is the number. *)
Lemma SFdiv_double_two (s : bool) (m : positive) (e : Z) :
  valid_binary (S754_finite s m e) = true →
  (Zpos (digits2_pos m) = 53 → e + 1 ≤ 971) →
  SF64div (SF64add (S754_finite s m e) (S754_finite s m e))
          (S754_finite false 4503599627370496 (-51))
  = S754_finite s m e.
Proof.
  intros Hv Hfin. rewrite (SFadd_self s m e Hv).
  apply valid_finite in Hv as [Hb Hc].
  destruct Hc as [[Hd He]|[Hd He]].
  - rewrite Hd. cbn [Z.eqb Pos.eqb].
    destruct (Z.leb_spec (e + 1) 971) as [_|Hgt]; [|specialize (Hfin Hd); lia].
    unfold SF64div, SFdiv. rewrite Bool.xorb_false_r.
    destruct (Z.eq_dec e (-1074)) as [->|Hne].
    + rewrite (SFdiv_core_two m (-1074 + 1) (-1074) 52 m);
        [|rewrite fexp_eq; lia|lia|lia].
      rewrite binary_round_aux_exact by (rewrite fexp_eq; lia). done.
    + rewrite (SFdiv_core_two m (e + 1) (e - 1) 53 m~0);
        [|rewrite fexp_eq; lia|lia|lia].
      rewrite binary_round_aux_even; [|rewrite fexp_eq, digits2_double; lia|rewrite fexp_eq; lia].
      replace (e - 1 + 1) with e by lia. change (emax - prec) with 971.
      destruct (Z.leb_spec e 971) as [_|Hgt]; [done|lia].
  - destruct (Z.eqb_spec (Zpos (digits2_pos m)) 53) as [Heq|_]; [lia|].
    unfold SF64div, SFdiv. rewrite Bool.xorb_false_r. subst e.
    rewrite (SFdiv_core_two m~0 (-1074) (-1074) 51 m);
      [|rewrite fexp_eq, digits2_double; lia|lia|lia].
    rewrite binary_round_aux_exact by (rewrite fexp_eq; lia). done.
Qed.


End Binary64.

(** A finite binary64 number is a zero or has a mantissa and an
    exponent. *)
Lemma finite_cases (x : float) :
  is_finite x = true →
  (∃ s, Prim2SF x = S754_zero s) ∨ (∃ s m e, Prim2SF x = S754_finite s m e).
Proof.
  unfold is_finite, is_nan, is_infinity. rewrite !FloatAxioms.eqb_spec, FloatAxioms.abs_spec.
  change (Prim2SF infinity) with (S754_infinity false). intros Hfin.
  destruct (Prim2SF x) as [s|[]| |s m e]; cbn in Hfin; try discriminate Hfin; eauto.
Qed.

Lemma float_of_zero (x : float) (s : bool) :
  Prim2SF x = S754_zero s → x = (if s then neg_zero else zero).
Proof.
  intros Hx. rewrite <- (SF2Prim_Prim2SF x), Hx. by destruct s.
Qed.

(** A number whose double is finite is finite. *)
Lemma double_finite_cases (x : float) :
  is_finite (x + x) = true →
  (∃ s, Prim2SF x = S754_zero s) ∨ (∃ s m e, Prim2SF x = S754_finite s m e).
Proof.
  intros Hfin. apply finite_cases in Hfin. rewrite FloatAxioms.add_spec in Hfin.
  destruct (Prim2SF x) as [s|s| |s m e]; [by eauto| | |by eauto 6].
  - exfalso. by destruct s, Hfin as [[? [=]]|(? & ? & ? & [=])].
  - exfalso. by destruct Hfin as [[? [=]]|(? & ? & ? & [=])].
Qed.

(** The arithmetic that the aggregation of two equal scores uses is
    exact when the score is finite and its double does not overflow. *)
Lemma equal_pair_arithmetic (x : float) (s : bool) (m : positive) (e : Z) :
  Prim2SF x = S754_finite s m e →
  is_finite (x + x) = true →
  (x + 0 = x)%float ∧ ((x + x) / 2 = x)%float ∧ (x - x = 0)%float.
Proof.
  intros Hx Hfin.
  pose proof (Prim2SF_valid x) as Hv. rewrite Hx in Hv.
  assert (Hroom : Zpos (digits2_pos m) = 53%Z → (e + 1 ≤ 971)%Z).
  { intros Hd. apply finite_cases in Hfin.
    rewrite FloatAxioms.add_spec, Hx, (SFadd_self s m e Hv), Hd in Hfin. cbn [Z.eqb Pos.eqb] in Hfin.
    destruct (Z.leb_spec (e + 1) 971) as [Hle|_]; [done|].
    by destruct Hfin as [[? [=]]|(? & ? & ? & [=])]. }
  split; [|split]; apply Prim2SF_inj.
  - rewrite FloatAxioms.add_spec, Hx. reflexivity.
  - rewrite FloatAxioms.div_spec, FloatAxioms.add_spec, Hx.
    change (Prim2SF 2) with (S754_finite false 4503599627370496 (-51)).
    by apply SFdiv_double_two.
  - rewrite FloatAxioms.sub_spec, Hx. apply SFsub_self.
Qed.

(** On binary64 numbers, the standard error of two equal scores is 0
    when the score is finite and its double does not overflow. *)
Lemma standard_error_equal_pair (x : float) :
  is_finite (x + x) = true → standard_error [x; x] = 0%float.
Proof.
  intros Hfin.
  destruct (double_finite_cases x Hfin) as [[s Hs]|(s & m & e & Hs)].
  - apply float_of_zero in Hs as ->. by destruct s; vm_compute.
  - destruct (equal_pair_arithmetic x s m e Hs Hfin) as (Hzero & Hhalf & Hsub).
    unfold standard_error, sample_std, mean, sum_scores.
    cbn [length map foldr Nat.leb fadd fsub fmul fdiv fsqrt fzero float_arith].
    change (fof_Z (Z.of_nat 2)) with 2%float.
    rewrite Hzero, Hhalf, Hsub. reflexivity.
Qed.

(** The mean of two equal scores is the score, [-0.] apart, whose mean
    is [0.]. *)
Lemma mean_equal_pair (x : float) :
  is_finite (x + x) = true → x ≠ neg_zero → mean [x; x] = x.
Proof.
  intros Hfin Hneg.
  destruct (double_finite_cases x Hfin) as [[s Hs]|(s & m & e & Hs)].
  - apply float_of_zero in Hs as ->. destruct s; [done|by vm_compute].
  - destruct (equal_pair_arithmetic x s m e Hs Hfin) as (Hzero & Hhalf & _).
    unfold mean, sum_scores.
    cbn [length foldr fadd fdiv fzero float_arith].
    change (fof_Z (Z.of_nat 2)) with 2%float.
    by rewrite Hzero, Hhalf.
Qed.

(** On the real numbers the standard error of any number of equal scores
    is 0; on binary64 numbers ten scores of 0.1 already give another
    value, since their sum is rounded. *)
Example ten_equal_scores_binary64 :
  standard_error (replicate 10 0x1.999999999999ap-4%float) ≠ 0%float.
Proof. intros Hse. apply (f_equal Prim2SF) in Hse. vm_compute in Hse. discriminate Hse. Qed.




(** The example of the test suite (tests/test_evaluator.py) on binary64
    numbers: two iterations with the scores 0.3333333333333333 and
    -0.3333333333333333. *)
Example total_scores_test_evaluator :
  let third := 0x1.5555555555555p-2%float in
  let record := example_record third (PrimFloat.opp third) in
  let totals := total (log_scores [MACRO_F1; MCC] [record; record]) in
  totals !! "macro_f1" = Some third ∧
  totals !! "macro_f1_se" = Some 0%float ∧
  totals !! "mcc" = Some (PrimFloat.opp third) ∧
  totals !! "mcc_se" = Some 0%float ∧
  size totals = 4.
Proof. vm_compute. repeat split; reflexivity. Qed.

End ScoringFacts.

(** ** Facts about task.py *)

Module TaskFacts.
Import Config Py Task.

Section Runs.
Context {F : Type} {AF : Arith F} {E : Env F}.
Implicit Types (w : World) (evs : list Event).

(** *** Running binds and handlers *)

Lemma bind_inv {A B} (m : M A) (k : A → M B) w w' evs o :
  (m ≫= k) w = (w', evs, o) →
  (∃ w1 evs1 a evs2,
      m w = (w1, evs1, Ok a) ∧ k a w1 = (w', evs2, o) ∧ evs = evs1 ++ evs2)
  ∨ (∃ e, m w = (w', evs, Raise e) ∧ o = Raise e)
  ∨ (m w = (w', evs, OutOfFuel) ∧ o = OutOfFuel).
Proof.
  unfold mbind, M_bind. destruct (m w) as [[w1 evs1] [a|e|]].
  - destruct (k a w1) as [[w2 evs2] o2] eqn:Hk. intros [= <- <- <-].
    left. by exists w1, evs1, a, evs2.
  - intros [= <- <- <-]. right. left. by exists e.
  - intros [= <- <- <-]. by right; right.
Qed.

Lemma bind_ok {A B} (m : M A) (k : A → M B) w w1 evs1 a w2 evs2 o :
  m w = (w1, evs1, Ok a) → k a w1 = (w2, evs2, o) →
  (m ≫= k) w = (w2, evs1 ++ evs2, o).
Proof. intros Hm Hk. unfold mbind, M_bind. by rewrite Hm, Hk. Qed.

Lemma bind_raise {A B} (m : M A) (k : A → M B) w w1 evs1 e :
  m w = (w1, evs1, Raise e) → (m ≫= k) w = (w1, evs1, Raise e).
Proof. intros Hm. unfold mbind, M_bind. by rewrite Hm. Qed.

Lemma try_except_inv {A} (body : M A) handler w w' evs o :
  try_except body handler w = (w', evs, o) →
  (∃ w1 evs1 e h evs2,
      body w = (w1, evs1, Raise e) ∧ handler e = Some h ∧
      h w1 = (w', evs2, o) ∧ evs = evs1 ++ evs2)
  ∨ (body w = (w', evs, o) ∧
     match o with Raise e => handler e = None | _ => True end).
Proof.
  unfold try_except. destruct (body w) as [[w1 evs1] [a|e|]].
  - intros [= <- <- <-]. by right.
  - destruct (handler e) as [h|] eqn:Hh.
    + destruct (h w1) as [[w2 evs2] o2] eqn:Hrun. intros [= <- <- <-].
      left. by exists w1, evs1, e, h, evs2.
    + intros [= <- <- <-]. by right.
  - intros [= <- <- <-]. by right.
Qed.

(** *** What a computation can emit *)

Lemma emits_mono {A} (P Q : Event → Prop) (m : M A) :
  (∀ ev, P ev → Q ev) → emits_only P m → emits_only Q m.
Proof. intros HPQ Hm w. eapply Forall_impl; [apply Hm|done]. Qed.

Lemma emits_run {A} (P : Event → Prop) (m : M A) w w' evs o :
  emits_only P m → m w = (w', evs, o) → Forall P evs.
Proof. intros Hm Hrun. specialize (Hm w). by rewrite Hrun in Hm. Qed.

Lemma emits_ret {A} P (a : A) : emits_only P (mret a : M A).
Proof. intros w. constructor. Qed.

Lemma emits_raise {A} P e : emits_only P (raise e : M A).
Proof. intros w. constructor. Qed.

Lemma emits_out_of_fuel {A} P : emits_only P (out_of_fuel : M A).
Proof. intros w. constructor. Qed.

Lemma emits_lift {A} P (o : outcome A) : emits_only P (lift o).
Proof. intros w. constructor. Qed.

Lemma emits_emit P ev : P ev → emits_only P (emit ev).
Proof. intros Hev w. by repeat constructor. Qed.

Lemma emits_call_observed {A} P (ev : outcome A → Event) (f : Ext A) :
  (∀ o, P (ev o)) → emits_only P (call_observed ev f).
Proof.
  intros Hev w. unfold call_observed. destruct (f (ext w)) as [x' o]. simpl.
  by repeat constructor.
Qed.

Lemma emits_call {A} P ev (f : Ext A) : P ev → emits_only P (call ev f).
Proof. intros Hev. by apply emits_call_observed. Qed.

Lemma emits_bind {A B} P (m : M A) (k : A → M B) :
  emits_only P m → (∀ a, emits_only P (k a)) → emits_only P (m ≫= k).
Proof.
  intros Hm Hk w. unfold mbind, M_bind.
  specialize (Hm w). destruct (m w) as [[w1 evs1] [a|e|]]; simpl in *; [|done..].
  specialize (Hk a w1). destruct (k a w1) as [[w2 evs2] o2]; simpl in *.
  by apply Forall_app.
Qed.

Lemma emits_try_except {A} P (body : M A) handler :
  emits_only P body → (∀ e h, handler e = Some h → emits_only P h) →
  emits_only P (try_except body handler).
Proof.
  intros Hb Hh w. unfold try_except.
  specialize (Hb w). destruct (body w) as [[w1 evs1] [a|e|]]; simpl in *; [done| |done].
  destruct (handler e) as [h|] eqn:Hhe; [|done].
  specialize (Hh e h Hhe w1). destruct (h w1) as [[w2 evs2] o2]; simpl in *.
  by apply Forall_app.
Qed.

Lemma emits_while_true {A} P fuel (body : M (loop_ctl A)) :
  emits_only P body → emits_only P (while_true fuel body).
Proof.
  intros Hb. induction fuel as [|fuel IH]; simpl.
  - apply emits_out_of_fuel.
  - apply emits_bind; [done|]. intros [a|]; [apply emits_ret|done].
Qed.

Lemma emits_for_each {A} P (xs : list A) (body : A → M unit) :
  (∀ x, emits_only P (body x)) → emits_only P (for_each xs body).
Proof.
  intros Hb. induction xs as [|x xs IH]; simpl; [apply emits_ret|].
  apply emits_bind; [done|]. by intros _.
Qed.

Lemma emits_list_comprehension {A B} P (f : A → M B) (xs : list A) :
  (∀ x, emits_only P (f x)) → emits_only P (list_comprehension f xs).
Proof.
  intros Hf. induction xs as [|x xs IH]; simpl; [apply emits_ret|].
  apply emits_bind; [done|]. intros y.
  apply emits_bind; [done|]. intros ys. apply emits_ret.
Qed.

(** The events of a bind: those of its first part, then events that its
    second part may emit. *)
Lemma bind_events {A B} P (m : M A) (k : A → M B) w :
  (∀ a, emits_only P (k a)) →
  ∃ evs2, ((m ≫= k) w).1.2 = (m w).1.2 ++ evs2 ∧ Forall P evs2.
Proof.
  intros Hk. unfold mbind, M_bind.
  destruct (m w) as [[w1 evs1] [a|e|]]; simpl.
  - specialize (Hk a w1). destruct (k a w1) as [[w2 evs2] o2]; simpl in *.
    by exists evs2.
  - exists []. by rewrite app_nil_r.
  - exists []. by rewrite app_nil_r.
Qed.

End Runs.

Ltac emits_step :=
  first
    [ apply emits_ret | apply emits_raise | apply emits_lift | apply emits_out_of_fuel
    | apply emits_emit; exact I
    | apply emits_call; exact I
    | apply emits_call_observed; intros ?; exact I
    | apply emits_bind; [|intros ?]
    | apply emits_for_each; intros ?
    | apply emits_list_comprehension; intros ?
    | apply emits_while_true
    | match goal with
      | |- emits_only _ (if ?b then _ else _) => destruct b
      | |- emits_only _ (match ?x with _ => _ end) => destruct x
      end ].

Ltac emits := repeat emits_step.

Section Pieces.
Context {F : Type} {AF : Arith F} {E : Env F}.
Context (tc : TaskConfig) (ec : EvaluationConfig).
Implicit Types (w : World) (evs : list Event).

Lemma emits_new_frame P : emits_only P new_frame.
Proof. intros w. constructor. Qed.

Lemma emits_assign_model_dict P md : emits_only P (assign_model_dict md).
Proof. intros w. constructor. Qed.

Lemma emits_assign_model P m : emits_only P (assign_model m).
Proof. intros w. constructor. Qed.

Lemma emits_del_model P : P EvDelModel → emits_only P del_model.
Proof.
  intros HP w. unfold del_model.
  destruct (local_model (frame w)); simpl; by repeat constructor.
Qed.

Lemma emits_del_model_dict P : P EvDelModelDict → emits_only P del_model_dict.
Proof.
  intros HP w. unfold del_model_dict.
  destruct (local_model_dict (frame w)); simpl; by repeat constructor.
Qed.

Lemma emits_call_clear_memory P : P EvClearMemory → emits_only P call_clear_memory.
Proof. intros HP. by apply emits_call. Qed.

Lemma emits_pass_unbound P e h :
  pass_unbound e = Some h → emits_only P h.
Proof.
  destruct e as [[] ?| | | | | | | |]; simpl; intros [= <-]. apply emits_ret.
Qed.

Lemma emits_iteration_handler b e h :
  iteration_handler e = Some h → emits_only (body_event b) h.
Proof.
  destruct e as [cls text| | | | | | | |]; simpl; try discriminate.
  destruct (is_transient cls); [|discriminate]. intros [= <-].
  destruct (str_contains _ text); [apply emits_raise|].
  apply emits_bind.
  { apply emits_try_except; [by apply emits_del_model|apply emits_pass_unbound]. }
  intros _. apply emits_bind.
  { apply emits_try_except; [by apply emits_del_model_dict|apply emits_pass_unbound]. }
  intros _. apply emits_bind; [by apply emits_call_clear_memory|].
  intros _. apply emits_ret.
Qed.

Lemma emits_seed_all b sources idx : emits_only (body_event b) (seed_all sources idx).
Proof. unfold seed_all. emits. Qed.

Lemma emits_start_tracking b : emits_only (body_event b) (start_tracking ec).
Proof. unfold start_tracking. emits. Qed.

Lemma emits_predict_batches b model data_collator dataloader all_predictions last_predictions :
  emits_only (body_event b)
    (predict_batches model data_collator dataloader all_predictions last_predictions).
Proof.
  revert all_predictions last_predictions.
  induction dataloader as [|records rest IH]; intros; simpl; [emits|].
  apply emits_bind; [emits|]. intros batch.
  apply emits_bind; [emits|]. intros predictions. apply IH.
Qed.

Lemma emits_compute_metrics_loop b zipped results :
  emits_only (body_event b) (compute_metrics_loop tc zipped results).
Proof.
  revert results.
  induction zipped as [|[metric_cfg [predictions labels]] rest IH]; intros; simpl; [emits|].
  apply emits_bind; [emits|]. intros metric.
  apply emits_bind; [emits|]. intros score_dict.
  apply emits_bind; [emits|]. intros results'. apply IH.
Qed.

Lemma emits_compute_metrics b pairs :
  emits_only (body_event b) (_compute_metrics tc pairs).
Proof. apply emits_compute_metrics_loop. Qed.

Lemma emits_store_emissions b prepared_dataset scores :
  emits_only (body_event b) (store_emissions ec prepared_dataset scores).
Proof. unfold store_emissions. emits. Qed.

Lemma emits_first_iteration_check idx model_config model_predictions :
  emits_only (body_event (idx =? 0)%nat)
    (first_iteration_check tc idx model_config model_predictions).
Proof.
  unfold first_iteration_check. destruct (idx =? 0)%nat; emits.
Qed.

Lemma emits_pytorch_jax_iteration_body idx mc ds pds collator :
  emits_only (body_event (idx =? 0)%nat)
    (pytorch_jax_iteration_body tc ec idx mc ds pds collator).
Proof.
  unfold pytorch_jax_iteration_body.
  apply emits_bind; [apply emits_seed_all|]. intros _.
  apply emits_bind; [emits|]. intros model_dict.
  apply emits_bind; [apply emits_assign_model_dict|]. intros _.
  apply emits_bind; [apply emits_assign_model|]. intros _.
  apply emits_bind; [apply emits_start_tracking|]. intros _.
  apply emits_bind; [apply emits_predict_batches|]. intros [all_predictions last_predictions].
  apply emits_bind; [emits|]. intros pairs.
  apply emits_bind; [apply emits_first_iteration_check|]. intros _.
  apply emits_bind; [apply emits_compute_metrics|]. intros scores.
  apply emits_bind; [apply emits_store_emissions|]. intros scores'.
  apply emits_ret.
Qed.

Lemma emits_spacy_iteration_body idx mc ds pds :
  emits_only (body_event (idx =? 0)%nat) (spacy_iteration_body tc ec idx mc ds pds).
Proof.
  unfold spacy_iteration_body.
  apply emits_bind; [apply emits_seed_all|]. intros _.
  apply emits_bind; [emits|]. intros model_dict.
  apply emits_bind; [apply emits_assign_model_dict|]. intros _.
  apply emits_bind; [apply emits_assign_model|]. intros _.
  apply emits_bind; [apply emits_start_tracking|]. intros _.
  apply emits_bind; [emits|]. intros model_predictions.
  apply emits_bind; [apply emits_first_iteration_check|]. intros _.
  apply emits_bind; [emits|]. intros pairs.
  apply emits_bind; [apply emits_compute_metrics|]. intros scores.
  apply emits_bind; [apply emits_store_emissions|]. intros scores'.
  apply emits_ret.
Qed.

(** A guarded [try] block in a fresh frame, announced by [EvIteration]:
    the shape of both single-iteration runners. *)
Lemma guarded_iteration_events b idx (body : M IterResult) w w' evs o :
  emits_only (body_event b) body →
  (emit (EvIteration idx) ;; new_frame ;; try_except body iteration_handler) w
  = (w', evs, o) →
  ∃ rest, evs = EvIteration idx :: rest ∧ Forall (body_event b) rest.
Proof.
  intros Hbody Hrun.
  assert (Hrest : emits_only (body_event b)
                    (new_frame ;; try_except body iteration_handler)).
  { apply emits_bind; [apply emits_new_frame|]. intros _.
    apply emits_try_except; [done|]. intros e h. apply emits_iteration_handler. }
  destruct (bind_events (body_event b) (emit (EvIteration idx))
              (λ _, new_frame ;; try_except body iteration_handler) w)
    as (rest & Hevs & Hforall); [by intros _|].
  rewrite Hrun in Hevs. simpl in Hevs. by exists rest.
Qed.

Lemma pytorch_jax_single_iteration_events idx mc ds pds collator w w' evs o :
  _evaluate_pytorch_jax_single_iteration tc ec idx mc ds pds collator w = (w', evs, o) →
  ∃ rest, evs = EvIteration idx :: rest ∧ Forall (body_event (idx =? 0)%nat) rest.
Proof.
  apply guarded_iteration_events, emits_pytorch_jax_iteration_body.
Qed.

Lemma spacy_single_iteration_events idx mc ds pds w w' evs o :
  _evaluate_spacy_single_iteration tc ec idx mc ds pds w = (w', evs, o) →
  ∃ rest, evs = EvIteration idx :: rest ∧ Forall (body_event (idx =? 0)%nat) rest.
Proof.
  apply guarded_iteration_events, emits_spacy_iteration_body.
Qed.

(** *** The loop over the iterations *)

(** With any fuel, the [while True] loop around a single-iteration call
    makes the call once: it never takes a second pass. *)
Lemma while_true_attempt fuel idx (m : M IterResult) w :
  while_true (S fuel) (iteration_attempt idx m) w
  = match m w with
    | (w1, evs1, Ok (IterScores s)) => (w1, evs1, Ok s)
    | (w1, evs1, Ok (IterErr cls text)) =>
        (w1, evs1, Raise (InvalidEvaluation (unknown_error_message idx text)))
    | (w1, evs1, Raise e) => (w1, evs1, Raise e)
    | (w1, evs1, OutOfFuel) => (w1, evs1, OutOfFuel)
    end.
Proof.
  cbn [while_true]. unfold iteration_attempt, mbind, M_bind.
  destruct (m w) as [[w1 evs1] [[s|cls text]|e|]]; simpl; by rewrite ?app_nil_r.
Qed.

Lemma collect_scores_step fuel run idx rest acc w :
  collect_scores (S fuel) run (idx :: rest) acc w
  = match run idx w with
    | (w1, evs1, Ok (IterScores s)) =>
        match collect_scores (S fuel) run rest (acc ++ [s]) w1 with
        | (w2, evs2, o) => (w2, evs1 ++ evs2, o)
        end
    | (w1, evs1, Ok (IterErr cls text)) =>
        (w1, evs1, Raise (InvalidEvaluation (unknown_error_message idx text)))
    | (w1, evs1, Raise e) => (w1, evs1, Raise e)
    | (w1, evs1, OutOfFuel) => (w1, evs1, OutOfFuel)
    end.
Proof.
  cbn [collect_scores]. unfold mbind at 1. unfold M_bind at 1.
  rewrite while_true_attempt.
  by destruct (run idx w) as [[w1 evs1] [[s|cls text]|e|]].
Qed.

Lemma collect_scores_fuel fuel fuel' run itr acc w :
  collect_scores (S fuel) run itr acc w = collect_scores (S fuel') run itr acc w.
Proof.
  revert acc w. induction itr as [|idx rest IH]; intros; [done|].
  rewrite !collect_scores_step.
  destruct (run idx w) as [[w1 evs1] [[s|cls text]|e|]]; [|done..].
  by rewrite IH.
Qed.

Lemma runs_in_order_length run itr w ss w' evs :
  runs_in_order run itr w ss w' evs → length ss = length itr.
Proof. induction 1; simpl; congruence. Qed.

Lemma collect_scores_ok fuel run itr acc w w' evs scores :
  collect_scores fuel run itr acc w = (w', evs, Ok scores) →
  ∃ ss, scores = acc ++ ss ∧ runs_in_order run itr w ss w' evs.
Proof.
  revert acc w evs. induction itr as [|idx rest IH]; intros acc w evs.
  - intros [= <- <- <-]. exists []. rewrite app_nil_r. split; [done|constructor].
  - destruct fuel as [|fuel]; [discriminate|].
    rewrite collect_scores_step.
    destruct (run idx w) as [[w1 evs1] [[s|cls text]|e|]] eqn:Hrun; [|discriminate..].
    destruct (collect_scores (S fuel) run rest (acc ++ [s]) w1)
      as [[w2 evs2] o2] eqn:Hrest.
    intros [= <- <- ->]. apply IH in Hrest as (ss & -> & Hruns).
    exists (s :: ss). rewrite <- app_assoc. split; [done|].
    by econstructor.
Qed.

Lemma collect_scores_complete fuel run itr acc w ss w' evs :
  runs_in_order run itr w ss w' evs →
  collect_scores (S fuel) run itr acc w = (w', evs, Ok (acc ++ ss)).
Proof.
  intros Hruns. revert acc.
  induction Hruns as [w|idx rest w w1 evs1 s ss w2 evs2 Hrun Hruns IH]; intros acc.
  - by rewrite app_nil_r.
  - rewrite collect_scores_step, Hrun, IH. by rewrite <- app_assoc.
Qed.

(** After iterations that succeeded, an iteration that does not return
    scores ends the loop with its events and no others. *)
Lemma collect_scores_stops fuel run before idx after acc w ss w1 evs1 w2 evs2 o :
  runs_in_order run before w ss w1 evs1 →
  run idx w1 = (w2, evs2, o) →
  (∀ s, o ≠ Ok (IterScores s)) →
  collect_scores (S fuel) run (before ++ idx :: after) acc w
  = (w2, evs1 ++ evs2,
     match o with
     | Ok (IterErr cls text) => Raise (InvalidEvaluation (unknown_error_message idx text))
     | Ok (IterScores s) => Ok [s]
     | Raise e => Raise e
     | OutOfFuel => OutOfFuel
     end).
Proof.
  intros Hruns Hfail Hnot. revert acc.
  induction Hruns as [w|i rest w wa evsa s ss wb evsb Hrun Hruns IH]; intros acc.
  - cbn [app]. rewrite collect_scores_step, Hfail.
    destruct o as [[s|cls text]|e|]; [by destruct (Hnot s)|done..].
  - cbn [app]. rewrite collect_scores_step, Hrun, (IH Hfail).
    by rewrite <- app_assoc.
Qed.

Lemma iterations_of_app evs1 evs2 :
  iterations_of (evs1 ++ evs2) = iterations_of evs1 ++ iterations_of evs2.
Proof. apply omap_app. Qed.

Lemma iterations_of_body b evs :
  Forall (body_event b) evs → iterations_of evs = [].
Proof.
  induction 1 as [|ev evs Hev _ IH]; [done|].
  destruct ev; first [exact IH | by destruct Hev].
Qed.

Lemma iterations_of_setup evs :
  Forall setup_event evs → iterations_of evs = [].
Proof.
  induction 1 as [|ev evs Hev _ IH]; [done|].
  destruct ev; first [exact IH | by destruct Hev].
Qed.

(** When every successful call [run idx] announces itself with
    [EvIteration idx] and emits no other iteration event, the iteration
    events of a chain of runs are the indices in order. *)
Lemma runs_in_order_iterations run itr w ss w' evs :
  (∀ idx w w' evs s, run idx w = (w', evs, Ok (IterScores s)) →
     iterations_of evs = [idx]) →
  runs_in_order run itr w ss w' evs → iterations_of evs = itr.
Proof.
  intros Hrun. induction 1 as [|idx rest w w1 evs1 s ss w2 evs2 H1 _ IH]; [done|].
  rewrite iterations_of_app, IH. by rewrite (Hrun _ _ _ _ _ H1).
Qed.

Lemma pytorch_jax_runner_run mc bds pds collator idx w :
  pytorch_jax_runner tc ec mc bds pds collator idx w
  = match bds !! idx, pds !! idx with
    | Some bd, Some pd => _evaluate_pytorch_jax_single_iteration tc ec idx mc bd pd collator w
    | _, _ => (w, [], Raise (Builtin IndexError "list index out of range"))
    end.
Proof.
  unfold pytorch_jax_runner, list_get, mbind, M_bind, lift.
  destruct (bds !! idx) as [bd|]; [|done].
  destruct (pds !! idx) as [pd|]; [|done].
  by destruct (_evaluate_pytorch_jax_single_iteration _ _ _ _ _ _ _ _) as [[w1 evs1] o].
Qed.

Lemma spacy_runner_run mc bds pds idx w :
  spacy_runner tc ec mc bds pds idx w
  = match bds !! idx, pds !! idx with
    | Some bd, Some pd => _evaluate_spacy_single_iteration tc ec idx mc bd pd w
    | _, _ => (w, [], Raise (Builtin IndexError "list index out of range"))
    end.
Proof.
  unfold spacy_runner, list_get, mbind, M_bind, lift.
  destruct (bds !! idx) as [bd|]; [|done].
  destruct (pds !! idx) as [pd|]; [|done].
  by destruct (_evaluate_spacy_single_iteration _ _ _ _ _ _ _) as [[w1 evs1] o].
Qed.

Lemma pytorch_jax_runner_iterations mc bds pds collator idx w w' evs r :
  pytorch_jax_runner tc ec mc bds pds collator idx w = (w', evs, Ok r) →
  iterations_of evs = [idx].
Proof.
  rewrite pytorch_jax_runner_run.
  destruct (bds !! idx) as [bd|]; [|discriminate].
  destruct (pds !! idx) as [pd|]; [|discriminate].
  intros Hrun. apply pytorch_jax_single_iteration_events in Hrun as (rest & -> & Hrest).
  change (iterations_of (EvIteration idx :: rest)) with (idx :: iterations_of rest).
  by rewrite (iterations_of_body _ _ Hrest).
Qed.

Lemma spacy_runner_iterations mc bds pds idx w w' evs r :
  spacy_runner tc ec mc bds pds idx w = (w', evs, Ok r) →
  iterations_of evs = [idx].
Proof.
  rewrite spacy_runner_run.
  destruct (bds !! idx) as [bd|]; [|discriminate].
  destruct (pds !! idx) as [pd|]; [|discriminate].
  intros Hrun. apply spacy_single_iteration_events in Hrun as (rest & -> & Hrest).
  change (iterations_of (EvIteration idx :: rest)) with (idx :: iterations_of rest).
  by rewrite (iterations_of_body _ _ Hrest).
Qed.

(** A successful run of the loop and of the call to [log_scores]. *)
Lemma evaluate_loop_ok fuel run mc n w w' evs report :
  evaluate_loop tc ec fuel run mc n w = (w', evs, Ok report) →
  ∃ scores w1 evs_iter,
    runs_in_order run (seq 0 n) w scores w1 evs_iter ∧
    length scores = n ∧
    evs = evs_iter
          ++ [EvLogScores (map metric_name (logged_metric_configs tc ec)) scores].
Proof.
  unfold evaluate_loop. intros Hrun.
  apply bind_inv in Hrun as [(w1 & evs1 & scores & evs2 & Hloop & Hlog & ->)|[H|H]];
    [|by destruct H as (? & _ & [=])|by destruct H as (_ & [=])].
  apply collect_scores_ok in Hloop as (ss & -> & Hruns).
  exists ss, w1, evs1. split; [done|]. split.
  - rewrite (runs_in_order_length _ _ _ _ _ _ Hruns). apply length_seq.
  - unfold call_log_scores, call, call_observed in Hlog.
    destruct (log_scores _ _ _ _ _ (ext w1)) as [x' o']. by injection Hlog as <- <- _.
Qed.

(** *** The setups *)

Lemma emits_truncate_if_testing P ds : emits_only P (truncate_if_testing ec ds).
Proof. unfold truncate_if_testing. emits. Qed.

Lemma emits_bootstrap P n ds rng :
  (∀ indices, P (EvResample indices)) → emits_only P (bootstrap n ds rng).
Proof.
  intros HP. revert rng. induction n as [|n IH]; intros rng; simpl; [apply emits_ret|].
  destruct (rng_integers 0 (ds_len ds) (ds_len ds) rng) as [rng' indices].
  apply emits_bind; [by apply emits_emit|]. intros _.
  apply emits_bind; [apply emits_lift|]. intros bd.
  apply emits_bind; [apply IH|]. intros others. apply emits_ret.
Qed.

Lemma emits_preprocessing_handler P e h :
  preprocessing_handler e = Some h → emits_only P h.
Proof.
  destruct e as [[] ?| | | | | | | |]; simpl; intros [= <-]. apply emits_raise.
Qed.

Lemma emits_pytorch_jax_setup md ds rng n :
  emits_only setup_event (pytorch_jax_setup ec md ds rng n).
Proof.
  unfold pytorch_jax_setup.
  apply emits_bind; [apply emits_truncate_if_testing|]. intros ds'.
  apply emits_bind; [by apply emits_bootstrap|]. intros bds.
  apply emits_bind.
  { apply emits_try_except; [emits|apply emits_preprocessing_handler]. }
  intros pds. emits.
Qed.

Lemma emits_spacy_setup md ds rng n :
  emits_only setup_event (spacy_setup ec md ds rng n).
Proof.
  unfold spacy_setup.
  apply emits_bind; [apply emits_truncate_if_testing|]. intros ds'.
  apply emits_bind; [by apply emits_bootstrap|]. intros bds.
  apply emits_bind.
  { apply emits_try_except; [emits|apply emits_preprocessing_handler]. }
  intros pds. emits.
Qed.

(** A successful run of a setup followed by the loop. *)
Lemma setup_then_loop_ok {A} (setup : M A) (run : nat → M IterResult)
    fuel mc n w w0 evs0 (a : A) w' evs1 report :
  emits_only setup_event setup →
  (∀ idx w w' evs s, run idx w = (w', evs, Ok (IterScores s)) →
     iterations_of evs = [idx]) →
  setup w = (w0, evs0, Ok a) →
  evaluate_loop tc ec fuel run mc n w0 = (w', evs1, Ok report) →
  ∃ scores,
    last (evs0 ++ evs1)
    = Some (EvLogScores (map metric_name (logged_metric_configs tc ec)) scores) ∧
    length scores = n ∧
    iterations_of (evs0 ++ evs1) = seq 0 n.
Proof.
  intros Hsetup Hrun Hs Hloop.
  apply evaluate_loop_ok in Hloop as (scores & w1 & evs_iter & Hruns & Hlen & ->).
  exists scores. split; [|split; [done|]].
  - by rewrite app_assoc, last_snoc.
  - rewrite !iterations_of_app.
    rewrite (iterations_of_setup evs0) by (eapply emits_run; eauto).
    rewrite (runs_in_order_iterations _ _ _ _ _ _ Hrun Hruns).
    cbn. by rewrite app_nil_r.
Qed.

(** A successful run of either evaluation path. *)
Lemma evaluation_path_ok fuel md ds rng mc n w w' evs report :
  _evaluate_pytorch_jax tc ec fuel md ds rng mc n w = (w', evs, Ok report) ∨
  _evaluate_spacy tc ec fuel md ds rng mc n w = (w', evs, Ok report) →
  ∃ scores,
    last evs = Some (EvLogScores (map metric_name (logged_metric_configs tc ec)) scores) ∧
    length scores = n ∧
    iterations_of evs = seq 0 n.
Proof.
  intros [Hrun|Hrun].
  - unfold _evaluate_pytorch_jax in Hrun.
    apply bind_inv in Hrun
        as [(w0 & evs0 & [[bds pds] collator] & evs1 & Hs & Hloop & ->)|[H|H]];
      [|by destruct H as (? & _ & [=])|by destruct H as (_ & [=])].
    eapply setup_then_loop_ok; [apply emits_pytorch_jax_setup| |exact Hs|exact Hloop].
    intros idx w1 w2 evs s. apply pytorch_jax_runner_iterations.
  - unfold _evaluate_spacy in Hrun.
    apply bind_inv in Hrun
        as [(w0 & evs0 & [bds pds] & evs1 & Hs & Hloop & ->)|[H|H]];
      [|by destruct H as (? & _ & [=])|by destruct H as (_ & [=])].
    eapply setup_then_loop_ok; [apply emits_spacy_setup| |exact Hs|exact Hloop].
    intros idx w1 w2 evs s. apply spacy_runner_iterations.
Qed.


Lemma seq_split_at n idx :
  idx < n → seq 0 n = seq 0 idx ++ idx :: seq (S idx) (n - S idx).
Proof.
  intros Hlt. replace n with (idx + S (n - S idx)) at 1 by lia.
  by rewrite seq_app.
Qed.

(** The loop stops at the first call that does not return scores: what
    that call raised, or [InvalidEvaluation] for a returned exception, is
    the outcome of the loop, and the events are those of the calls made
    so far. *)
Lemma evaluate_loop_stops fuel run mc n idx w ss w1 evs1 w2 evs2 o :
  idx < n →
  runs_in_order run (seq 0 idx) w ss w1 evs1 →
  run idx w1 = (w2, evs2, o) →
  (∀ s, o ≠ Ok (IterScores s)) →
  evaluate_loop tc ec (S fuel) run mc n w
  = (w2, evs1 ++ evs2,
     match o with
     | Ok (IterErr cls text) => Raise (InvalidEvaluation (unknown_error_message idx text))
     | Ok (IterScores s) => OutOfFuel
     | Raise e => Raise e
     | OutOfFuel => OutOfFuel
     end).
Proof.
  intros Hlt Hruns Hfail Hnot. unfold evaluate_loop.
  rewrite (seq_split_at n idx Hlt).
  pose proof (collect_scores_stops fuel run _ idx (seq (S idx) (n - S idx)) []
                _ _ _ _ _ _ _ Hruns Hfail Hnot) as Hloop.
  unfold mbind, M_bind. rewrite Hloop.
  destruct o as [[s|cls text]|e|]; [by destruct (Hnot s)|done..].
Qed.

(** C2: when the single-iteration call for [idx] returns an exception
    instead of scores, after the calls for 0, ..., idx-1 returned scores,
    the evaluation raises [InvalidEvaluation] with the events of these
    calls and no others: the call for [idx] was made once, no call for a
    later index was made, and this holds for any fuel of the [while]
    loop, which never takes a second pass. *)
Theorem failed_iteration_is_fatal fuel mc bds pds collator
    (run : nat → M IterResult) n idx w ss w1 evs1 w2 evs2 cls text :
  run = pytorch_jax_runner tc ec mc bds pds collator ∨
  run = spacy_runner tc ec mc bds pds →
  idx < n →
  runs_in_order run (seq 0 idx) w ss w1 evs1 →
  run idx w1 = (w2, evs2, Ok (IterErr cls text)) →
  evaluate_loop tc ec (S fuel) run mc n w
  = (w2, evs1 ++ evs2, Raise (InvalidEvaluation (unknown_error_message idx text))) ∧
  iterations_of (evs1 ++ evs2) = seq 0 idx ++ [idx].
Proof.
  intros Hrun Hlt Hruns Hfail. split.
  - by rewrite (evaluate_loop_stops fuel run mc n idx w ss w1 evs1 w2 evs2 _ Hlt Hruns Hfail).
  - rewrite iterations_of_app. f_equal.
    + eapply runs_in_order_iterations; [|exact Hruns].
      intros i wa wb evs s. destruct Hrun as [-> | ->].
      * apply pytorch_jax_runner_iterations.
      * apply spacy_runner_iterations.
    + destruct Hrun as [-> | ->].
      * by apply pytorch_jax_runner_iterations in Hfail.
      * by apply spacy_runner_iterations in Hfail.
Qed.

(** *** The [except] clause of the single-iteration runners *)

Lemma returns_scores_bind {A} (m : M A) (k : A → M IterResult) :
  (∀ a, returns_scores (k a)) → returns_scores (m ≫= k).
Proof.
  intros Hk w w' evs r Hrun.
  apply bind_inv in Hrun as [(w1 & evs1 & a & evs2 & _ & Hka & _)|[H|H]];
    [by eapply Hk|by destruct H as (? & _ & [=])|by destruct H as (_ & [=])].
Qed.

Lemma returns_scores_ret (scores : gmap string F) :
  returns_scores (mret (IterScores scores)).
Proof. intros w w' evs r [= _ _ <-]. by eexists. Qed.

Lemma returns_scores_pytorch_jax_body idx mc ds pds collator :
  returns_scores (pytorch_jax_iteration_body tc ec idx mc ds pds collator).
Proof.
  unfold pytorch_jax_iteration_body.
  do 5 (apply returns_scores_bind; intros ?).
  apply returns_scores_bind. intros [all_predictions last_predictions].
  do 4 (apply returns_scores_bind; intros ?).
  apply returns_scores_ret.
Qed.

Lemma returns_scores_spacy_body idx mc ds pds :
  returns_scores (spacy_iteration_body tc ec idx mc ds pds).
Proof.
  unfold spacy_iteration_body.
  do 10 (apply returns_scores_bind; intros ?).
  apply returns_scores_ret.
Qed.

(** The cleanup of the [except] clause, from any state of the locals:
    the two [del] statements cannot fail, [clear_memory()] can. *)
Lemma cleanup_run cls text w :
  ∃ dels,
    (try_except del_model pass_unbound ;;
     try_except del_model_dict pass_unbound ;;
     call_clear_memory ;;
     (mret (IterErr cls text) : M (@IterResult F))) w
    = ({| ext := (clear_memory (ext w)).1; frame := empty_frame |},
       dels ++ [EvClearMemory],
       match (clear_memory (ext w)).2 with
       | Ok _ => Ok (IterErr cls text)
       | Raise e => Raise e
       | OutOfFuel => OutOfFuel
       end) ∧
    Forall (λ ev, ev = EvDelModel ∨ ev = EvDelModelDict) dels.
Proof.
  destruct w as [x [[model|] [model_dict|]]].
  - exists [EvDelModel; EvDelModelDict].
    split; [|repeat (apply Forall_cons_2; [by auto|]); apply Forall_nil_2].
    cbv -[clear_memory]. by destruct (clear_memory x) as [x' [[]|e|]].
  - exists [EvDelModel]. split; [|repeat (apply Forall_cons_2; [by auto|]); apply Forall_nil_2].
    cbv -[clear_memory]. by destruct (clear_memory x) as [x' [[]|e|]].
  - exists [EvDelModelDict]. split; [|repeat (apply Forall_cons_2; [by auto|]); apply Forall_nil_2].
    cbv -[clear_memory]. by destruct (clear_memory x) as [x' [[]|e|]].
  - exists []. split; [|constructor].
    cbv -[clear_memory]. by destruct (clear_memory x) as [x' [[]|e|]].
Qed.

(** What the [except] clause does with an exception it handles. *)
Lemma iteration_handler_run e h w w' evs o :
  iteration_handler e = Some h → h w = (w', evs, o) →
  ∃ cls text,
    e = Builtin cls text ∧ is_transient cls = true ∧
    ((str_contains "PYTORCH_ENABLE_MPS_FALLBACK" text = true ∧
      w' = w ∧ evs = [] ∧ o = Raise MPSFallbackNotEnabled)
     ∨ (str_contains "PYTORCH_ENABLE_MPS_FALLBACK" text = false ∧
        w' = {| ext := (clear_memory (ext w)).1; frame := empty_frame |} ∧
        (∃ dels, evs = dels ++ [EvClearMemory] ∧
                 Forall (λ ev, ev = EvDelModel ∨ ev = EvDelModelDict) dels) ∧
        o = match (clear_memory (ext w)).2 with
            | Ok _ => Ok (IterErr cls text)
            | Raise e' => Raise e'
            | OutOfFuel => OutOfFuel
            end)).
Proof.
  destruct e as [cls text| | | | | | | |]; simpl; try discriminate.
  destruct (is_transient cls) eqn:Hcls; [|discriminate]. intros [= <-] Hrun.
  exists cls, text. split; [done|]. split; [done|].
  destruct (str_contains _ text).
  - left. by injection Hrun as <- <- <-.
  - right. destruct (cleanup_run cls text w) as (dels & Hclean & Hdels).
    rewrite Hclean in Hrun. injection Hrun as <- <- <-. eauto 10.
Qed.

(** The runs of a guarded [try] block that return an exception. *)
Lemma guarded_iteration_returns_error idx (body : M IterResult) w w' evs cls text :
  returns_scores body →
  (emit (EvIteration idx) ;; new_frame ;; try_except body iteration_handler) w
  = (w', evs, Ok (IterErr cls text)) →
  released w' evs ∧ is_transient cls = true ∧
  str_contains "PYTORCH_ENABLE_MPS_FALLBACK" text = false.
Proof.
  intros Hbody Hrun.
  apply bind_inv in Hrun as [(wa & evsa & [] & evsb & _ & Hrun & ->)|[H|H]];
    [|by destruct H as (? & _ & [=])|by destruct H as (_ & [=])].
  apply bind_inv in Hrun as [(wb & evsc & [] & evsd & _ & Hrun & ->)|[H|H]];
    [|by destruct H as (? & _ & [=])|by destruct H as (_ & [=])].
  apply try_except_inv in Hrun
      as [(w1 & evs1 & e & h & evs2 & _ & Hh & Hrun & ->)|[Hrun _]].
  - destruct (iteration_handler_run _ _ _ _ _ _ Hh Hrun)
      as (c & t & -> & Hc & [(_ & _ & _ & [=])|(Hmps & -> & (dels & -> & _) & Ho)]).
    match type of Ho with
    | _ = match ?cleared with _ => _ end => destruct cleared as [[]|?|]; [|discriminate Ho..]
    end.
    injection Ho as <- <-.
    split; [|done]. repeat split; [done..|].
    by rewrite !app_assoc, last_snoc.
  - by destruct (Hbody _ _ _ _ Hrun) as [scores [=]].
Qed.

(** *** The check of the first iteration *)

Lemma aborts_of_emits {A} bad fatal (m : M A) :
  emits_only (λ ev, ev ≠ bad) m → aborts_on bad fatal m.
Proof. intros Hm w w' evs o Hrun. left. by eapply emits_run. Qed.

Lemma aborts_of_body {A} fatal (m : M A) :
  emits_only (body_event false) m → aborts_on check_failed fatal m.
Proof.
  intros Hm. apply aborts_of_emits. eapply emits_mono; [|exact Hm].
  by intros [] Hev.
Qed.

Lemma aborts_of_setup {A} fatal (m : M A) :
  emits_only setup_event m → aborts_on check_failed fatal m.
Proof.
  intros Hm. apply aborts_of_emits. eapply emits_mono; [|exact Hm].
  by intros [] Hev.
Qed.

Lemma aborts_mono {A} bad (fatal fatal' : exn → Prop) (m : M A) :
  (∀ e, fatal e → fatal' e) → aborts_on bad fatal m → aborts_on bad fatal' m.
Proof.
  intros Himp Hm w w' evs o Hrun.
  destruct (Hm _ _ _ _ Hrun) as [?|[(e & -> & He) ?]]; [by left|].
  right. split; [|done]. exists e. auto.
Qed.

Lemma last_app_suffix {A} (l1 l2 : list A) x :
  last l2 = Some x → last (l1 ++ l2) = Some x.
Proof.
  intros Hl. destruct l2 as [|y l2] using rev_ind; [done|].
  rewrite last_snoc in Hl. injection Hl as ->.
  by rewrite app_assoc, last_snoc.
Qed.

Lemma aborts_bind {A B} bad fatal (m : M A) (k : A → M B) :
  aborts_on bad fatal m → (∀ a, aborts_on bad fatal (k a)) →
  aborts_on bad fatal (m ≫= k).
Proof.
  intros Hm Hk w w' evs o Hrun.
  apply bind_inv in Hrun
      as [(w1 & evs1 & a & evs2 & Hma & Hka & ->)|[(e & Hme & ->)|(Hmf & ->)]].
  - destruct (Hm _ _ _ _ Hma) as [Hclean1|[(e & [=] & _) _]].
    destruct (Hk _ _ _ _ _ Hka) as [Hclean2|[Hfatal Hlast]].
    + left. by apply Forall_app.
    + right. split; [done|]. by apply last_app_suffix.
  - destruct (Hm _ _ _ _ Hme) as [?|[(e' & [= <-] & He') Hlast]]; [by left|].
    right. split; [by exists e|done].
  - destruct (Hm _ _ _ _ Hmf) as [?|[(e' & [=] & _) _]]. by left.
Qed.

Lemma aborts_try_except {A} bad fatal (body : M A) handler :
  aborts_on bad fatal body →
  (∀ e, fatal e → handler e = None) →
  (∀ e h, handler e = Some h → aborts_on bad fatal h) →
  aborts_on bad fatal (try_except body handler).
Proof.
  intros Hb Hnone Hh w w' evs o Hrun.
  apply try_except_inv in Hrun
      as [(w1 & evs1 & e & h & evs2 & Hbody & Hhe & Hhrun & ->)|[Hbody _]].
  - destruct (Hb _ _ _ _ Hbody) as [Hclean1|[(e' & [= <-] & He') _]].
    + destruct (Hh _ _ Hhe _ _ _ _ Hhrun) as [Hclean2|[Hfatal Hlast]].
      * left. by apply Forall_app.
      * right. split; [done|]. by apply last_app_suffix.
    + rewrite (Hnone _ He') in Hhe. discriminate.
  - exact (Hb _ _ _ _ Hbody).
Qed.

Lemma aborts_while_true {A} bad fatal fuel (body : M (loop_ctl A)) :
  aborts_on bad fatal body → aborts_on bad fatal (while_true fuel body).
Proof.
  intros Hb. induction fuel as [|fuel IH]; simpl.
  - apply aborts_of_emits, emits_out_of_fuel.
  - apply aborts_bind; [done|]. intros [a|]; [|done].
    apply aborts_of_emits, emits_ret.
Qed.

Lemma aborts_iteration_attempt bad fatal idx (m : M IterResult) :
  aborts_on bad fatal m → aborts_on bad fatal (iteration_attempt idx m).
Proof.
  intros Hm. unfold iteration_attempt. apply aborts_bind; [done|].
  intros [s|cls text]; apply aborts_of_emits; [apply emits_ret|apply emits_raise].
Qed.

Lemma aborts_collect_scores bad fatal fuel run itr acc :
  (∀ idx, aborts_on bad fatal (run idx)) →
  aborts_on bad fatal (collect_scores fuel run itr acc).
Proof.
  intros Hrun. revert acc. induction itr as [|idx rest IH]; intros acc; simpl.
  - apply aborts_of_emits, emits_ret.
  - apply aborts_bind; [|by intros s].
    by apply aborts_while_true, aborts_iteration_attempt.
Qed.

Lemma aborts_call_log_scores fatal mc scores :
  aborts_on check_failed fatal (call_log_scores tc ec mc scores).
Proof.
  apply aborts_of_emits. unfold call_log_scores. by apply emits_call.
Qed.

Lemma aborts_evaluate_loop fatal fuel run mc n :
  (∀ idx, aborts_on check_failed fatal (run idx)) →
  aborts_on check_failed fatal (evaluate_loop tc ec fuel run mc n).
Proof.
  intros Hrun. unfold evaluate_loop. apply aborts_bind.
  - by apply aborts_collect_scores.
  - intros scores. apply aborts_call_log_scores.
Qed.

(** The check itself: when it answers [false], the error is raised at
    once. *)
Lemma aborts_first_iteration_check idx mc model_predictions :
  aborts_on check_failed (eq (ModelNotTrainedForTask (tc_name tc) (framework mc)))
    (first_iteration_check tc idx mc model_predictions).
Proof.
  intros w w' evs o. unfold first_iteration_check.
  destruct (idx =? 0)%nat; [|intros [= <- <- <-]; by left].
  destruct model_predictions as [predictions|]; [|intros [= <- <- <-]; by left].
  unfold mbind, M_bind, call_observed, mret, M_ret, raise.
  destruct (_check_if_model_is_trained_for_task predictions (ext w))
    as [x' [[|]|e|]]; intros [= <- <- <-].
  - left. by repeat constructor.
  - right. split; [by eexists|done].
  - left. by repeat constructor.
  - left. by repeat constructor.
Qed.

Lemma aborts_guarded_iteration fatal idx (body : M IterResult) :
  (∀ e, fatal e → iteration_handler e = None) →
  aborts_on check_failed fatal body →
  aborts_on check_failed fatal
    (emit (EvIteration idx) ;; new_frame ;; try_except body iteration_handler).
Proof.
  intros Hfatal Hbody.
  apply aborts_bind; [apply aborts_of_emits; by apply emits_emit|]. intros _.
  apply aborts_bind; [apply aborts_of_emits, emits_new_frame|]. intros _.
  apply aborts_try_except; [done..|].
  intros e h Hh. eapply aborts_of_body, emits_iteration_handler, Hh.
Qed.

Lemma not_trained_uncaught mc e :
  ModelNotTrainedForTask (tc_name tc) (framework mc) = e → iteration_handler e = None.
Proof. by intros <-. Qed.

Lemma aborts_pytorch_jax_single_iteration idx mc ds pds collator :
  aborts_on check_failed (eq (ModelNotTrainedForTask (tc_name tc) (framework mc)))
    (_evaluate_pytorch_jax_single_iteration tc ec idx mc ds pds collator).
Proof.
  apply aborts_guarded_iteration; [apply not_trained_uncaught|].
  unfold pytorch_jax_iteration_body.
  apply aborts_bind; [apply aborts_of_body, emits_seed_all|]. intros _.
  apply aborts_bind; [apply aborts_of_body; emits|]. intros model_dict.
  apply aborts_bind; [apply aborts_of_body, emits_assign_model_dict|]. intros _.
  apply aborts_bind; [apply aborts_of_body, emits_assign_model|]. intros _.
  apply aborts_bind; [apply aborts_of_body, emits_start_tracking|]. intros _.
  apply aborts_bind; [apply aborts_of_body, emits_predict_batches|].
  intros [all_predictions last_predictions].
  apply aborts_bind; [apply aborts_of_body; emits|]. intros pairs.
  apply aborts_bind; [apply aborts_first_iteration_check|]. intros _.
  apply aborts_bind; [apply aborts_of_body, emits_compute_metrics|]. intros scores.
  apply aborts_bind; [apply aborts_of_body, emits_store_emissions|]. intros scores'.
  apply aborts_of_body, emits_ret.
Qed.

Lemma aborts_spacy_single_iteration idx mc ds pds :
  aborts_on check_failed (eq (ModelNotTrainedForTask (tc_name tc) (framework mc)))
    (_evaluate_spacy_single_iteration tc ec idx mc ds pds).
Proof.
  apply aborts_guarded_iteration; [apply not_trained_uncaught|].
  unfold spacy_iteration_body.
  apply aborts_bind; [apply aborts_of_body, emits_seed_all|]. intros _.
  apply aborts_bind; [apply aborts_of_body; emits|]. intros model_dict.
  apply aborts_bind; [apply aborts_of_body, emits_assign_model_dict|]. intros _.
  apply aborts_bind; [apply aborts_of_body, emits_assign_model|]. intros _.
  apply aborts_bind; [apply aborts_of_body, emits_start_tracking|]. intros _.
  apply aborts_bind; [apply aborts_of_body; emits|]. intros model_predictions.
  apply aborts_bind; [apply aborts_first_iteration_check|]. intros _.
  apply aborts_bind; [apply aborts_of_body; emits|]. intros pairs.
  apply aborts_bind; [apply aborts_of_body, emits_compute_metrics|]. intros scores.
  apply aborts_bind; [apply aborts_of_body, emits_store_emissions|]. intros scores'.
  apply aborts_of_body, emits_ret.
Qed.

Lemma unchecked_of_body evs :
  Forall (body_event false) evs → Forall (λ ev, ¬ is_check ev) evs.
Proof. intros H. eapply Forall_impl; [exact H|]. intros [] Hev Hc; simpl in *; tauto. Qed.

Lemma guarded_unchecked idx evs :
  idx ≠ 0 →
  (∃ rest, evs = EvIteration idx :: rest ∧ Forall (body_event (idx =? 0)%nat) rest) →
  Forall (λ ev, ¬ is_check ev) evs.
Proof.
  intros Hidx (rest & -> & Hrest).
  apply Nat.eqb_neq in Hidx. rewrite Hidx in Hrest.
  constructor; [intros Hc; exact Hc|by apply unchecked_of_body].
Qed.

Lemma pytorch_jax_runner_unchecked mc bds pds collator idx :
  idx ≠ 0 →
  emits_only (λ ev, ¬ is_check ev) (pytorch_jax_runner tc ec mc bds pds collator idx).
Proof.
  intros Hidx w. rewrite pytorch_jax_runner_run.
  destruct (bds !! idx) as [bd|]; [|constructor].
  destruct (pds !! idx) as [pd|]; [|constructor].
  destruct (_evaluate_pytorch_jax_single_iteration tc ec idx mc bd pd collator w)
    as [[w' evs] o] eqn:Hrun.
  apply (guarded_unchecked idx evs Hidx).
  by eapply pytorch_jax_single_iteration_events.
Qed.

Lemma spacy_runner_unchecked mc bds pds idx :
  idx ≠ 0 →
  emits_only (λ ev, ¬ is_check ev) (spacy_runner tc ec mc bds pds idx).
Proof.
  intros Hidx w. rewrite spacy_runner_run.
  destruct (bds !! idx) as [bd|]; [|constructor].
  destruct (pds !! idx) as [pd|]; [|constructor].
  destruct (_evaluate_spacy_single_iteration tc ec idx mc bd pd w)
    as [[w' evs] o] eqn:Hrun.
  apply (guarded_unchecked idx evs Hidx).
  by eapply spacy_single_iteration_events.
Qed.

Lemma pytorch_jax_runner_shape mc bds pds collator idx w w' evs o :
  pytorch_jax_runner tc ec mc bds pds collator idx w = (w', evs, o) →
  evs = [] ∨ iterations_of evs = [idx].
Proof.
  rewrite pytorch_jax_runner_run.
  destruct (bds !! idx) as [bd|]; [|intros [= _ <- _]; by left].
  destruct (pds !! idx) as [pd|]; [|intros [= _ <- _]; by left].
  intros Hrun. right.
  apply pytorch_jax_single_iteration_events in Hrun as (rest & -> & Hrest).
  change (iterations_of (EvIteration idx :: rest)) with (idx :: iterations_of rest).
  by rewrite (iterations_of_body _ _ Hrest).
Qed.

Lemma spacy_runner_shape mc bds pds idx w w' evs o :
  spacy_runner tc ec mc bds pds idx w = (w', evs, o) →
  evs = [] ∨ iterations_of evs = [idx].
Proof.
  rewrite spacy_runner_run.
  destruct (bds !! idx) as [bd|]; [|intros [= _ <- _]; by left].
  destruct (pds !! idx) as [pd|]; [|intros [= _ <- _]; by left].
  intros Hrun. right.
  apply spacy_single_iteration_events in Hrun as (rest & -> & Hrest).
  change (iterations_of (EvIteration idx :: rest)) with (idx :: iterations_of rest).
  by rewrite (iterations_of_body _ _ Hrest).
Qed.

Lemma aborts_pytorch_jax_runner mc bds pds collator idx :
  aborts_on check_failed (eq (ModelNotTrainedForTask (tc_name tc) (framework mc)))
    (pytorch_jax_runner tc ec mc bds pds collator idx).
Proof.
  unfold pytorch_jax_runner.
  apply aborts_bind; [apply aborts_of_body, emits_lift|]. intros bd.
  apply aborts_bind; [apply aborts_of_body, emits_lift|]. intros pd.
  apply aborts_pytorch_jax_single_iteration.
Qed.

Lemma aborts_spacy_runner mc bds pds idx :
  aborts_on check_failed (eq (ModelNotTrainedForTask (tc_name tc) (framework mc)))
    (spacy_runner tc ec mc bds pds idx).
Proof.
  unfold spacy_runner.
  apply aborts_bind; [apply aborts_of_body, emits_lift|]. intros bd.
  apply aborts_bind; [apply aborts_of_body, emits_lift|]. intros pd.
  apply aborts_spacy_single_iteration.
Qed.

Lemma emits_iteration_attempt P idx (m : M IterResult) :
  emits_only P m → emits_only P (iteration_attempt idx m).
Proof.
  intros Hm. unfold iteration_attempt. apply emits_bind; [done|].
  intros [s|cls text]; [apply emits_ret|apply emits_raise].
Qed.

Lemma emits_collect_scores P fuel run itr acc :
  (∀ idx, idx ∈ itr → emits_only P (run idx)) →
  emits_only P (collect_scores fuel run itr acc).
Proof.
  revert acc. induction itr as [|idx rest IH]; intros acc Hrun; simpl.
  - apply emits_ret.
  - apply emits_bind.
    + apply emits_while_true, emits_iteration_attempt, Hrun. by left.
    + intros s. apply IH. intros i Hi. apply Hrun. by right.
Qed.

Lemma while_true_attempt_events fuel idx (m : M IterResult) w :
  (while_true fuel (iteration_attempt idx m) w).1.2
  = match fuel with O => [] | S _ => (m w).1.2 end.
Proof.
  destruct fuel as [|fuel]; [done|]. rewrite while_true_attempt.
  by destruct (m w) as [[w1 evs1] [[s|cls text]|e|]].
Qed.

(** When the check answers [false] in a run of the loop, the run raises
    the fatal error at once, and only the call for index 0 was made. *)
Lemma check_failed_among evs :
  existsb is_failed_check evs = true → check_failed ∈ evs.
Proof.
  intros Hex. apply existsb_exists in Hex as (ev & Hin & Hev).
  apply list_elem_of_In in Hin.
  destruct ev as [| | | | | | | | | | | | | | |[[|]| |]| | | | |]; try discriminate Hev.
  exact Hin.
Qed.

Lemma loop_check_failed fatal fuel run mc n w w' evs o :
  (∀ idx, aborts_on check_failed fatal (run idx)) →
  (∀ idx, idx ≠ 0 → emits_only (λ ev, ¬ is_check ev) (run idx)) →
  (∀ idx w w' evs o, run idx w = (w', evs, o) → evs = [] ∨ iterations_of evs = [idx]) →
  evaluate_loop tc ec fuel run mc n w = (w', evs, o) →
  check_failed ∈ evs →
  (∃ e, o = Raise e ∧ fatal e) ∧ last evs = Some check_failed ∧ iterations_of evs = [0].
Proof.
  intros Hab Hun Hshape Hrun Hin.
  destruct (aborts_evaluate_loop fatal fuel run mc n Hab _ _ _ _ Hrun)
    as [Hclean|[Hfatal Hlast]].
  { exfalso. rewrite Forall_forall in Hclean. by apply (Hclean _ Hin). }
  split; [done|]. split; [done|].
  unfold evaluate_loop in Hrun.
  apply bind_inv in Hrun as [(w1 & evs1 & scores & evs2 & _ & Hlog & ->)|Hrun].
  { exfalso. unfold call_log_scores, call, call_observed in Hlog.
    destruct (log_scores _ _ _ _ _ (ext w1)) as [x' o']. injection Hlog as _ <- _.
    by rewrite last_snoc in Hlast. }
  assert (Hloop : ∃ o', collect_scores fuel run (seq 0 n) [] w = (w', evs, o')).
  { destruct Hrun as [(e & Hloop & _)|[Hloop _]]; eauto. }
  clear Hrun. destruct Hloop as [o' Hloop].
  destruct n as [|n].
  { injection Hloop as _ <- _. by apply elem_of_nil in Hin. }
  cbn [seq collect_scores] in Hloop.
  pose proof (while_true_attempt_events fuel 0 (run 0) w) as Hevs.
  apply bind_inv in Hloop as [(w1 & evs1 & s & evs2 & Hfirst & Hrest & ->)|Hloop].
  - exfalso.
    assert (Hclean1 : Forall (λ ev, ev ≠ check_failed) evs1).
    { assert (Hattempt : aborts_on check_failed fatal
                (while_true fuel (iteration_attempt 0 (run 0))))
        by apply aborts_while_true, aborts_iteration_attempt, Hab.
      by destruct (Hattempt _ _ _ _ Hfirst) as [?|[(e & [=] & _) _]]. }
    assert (Hclean2 : Forall (λ ev, ¬ is_check ev) evs2).
    { eapply (emits_run _ (collect_scores fuel run (seq 1 n) ([] ++ [s])));
        [|exact Hrest].
      apply emits_collect_scores. intros idx Hidx. apply Hun.
      apply list_elem_of_In, in_seq in Hidx. lia. }
    apply elem_of_app in Hin as [Hin|Hin].
    + rewrite Forall_forall in Hclean1. by apply (Hclean1 _ Hin).
    + rewrite Forall_forall in Hclean2. by apply (Hclean2 _ Hin).
  - assert (Hfirst : ∃ o1, while_true fuel (iteration_attempt 0 (run 0)) w = (w', evs, o1)).
    { destruct Hloop as [(e & Hfirst & _)|[Hfirst _]]; eauto. }
    destruct Hfirst as [o1 Hfirst]. rewrite Hfirst in Hevs. simpl in Hevs.
    destruct fuel as [|fuel]; [subst evs; by apply elem_of_nil in Hin|].
    destruct (run 0 w) as [[w1 evs1] o2] eqn:Hrun0. simpl in Hevs. subst evs1.
    destruct (Hshape _ _ _ _ _ Hrun0) as [->|Hiter]; [by apply elem_of_nil in Hin|done].
Qed.

(** A setup followed by the loop, when the check answers [false]. *)
Lemma setup_then_check_failed {A B} (setup : M A) (k : A → M B)
    (fatal : exn → Prop) w w' evs o :
  emits_only setup_event setup →
  (∀ a w0 w' evs o, k a w0 = (w', evs, o) → check_failed ∈ evs →
     (∃ e, o = Raise e ∧ fatal e) ∧ last evs = Some check_failed ∧
     iterations_of evs = [0]) →
  (setup ≫= k) w = (w', evs, o) →
  check_failed ∈ evs →
  (∃ e, o = Raise e ∧ fatal e) ∧ last evs = Some check_failed ∧ iterations_of evs = [0].
Proof.
  intros Hsetup Hk Hrun Hin.
  assert (Hclean : ∀ w0 evs0 o0, setup w = (w0, evs0, o0) →
            (check_failed ∉ evs0) ∧ iterations_of evs0 = []).
  { intros w0 evs0 o0 Hs.
    pose proof (emits_run _ _ _ _ _ _ Hsetup Hs) as Hevs0.
    split; [|by apply iterations_of_setup].
    intros Hbad. rewrite Forall_forall in Hevs0. by apply Hevs0 in Hbad. }
  apply bind_inv in Hrun
      as [(w0 & evs0 & a & evs1 & Hs & Hloop & ->)|[(e & Hs & ->)|(Hs & ->)]].
  - destruct (Hclean _ _ _ Hs) as [Hnot Hnone].
    apply elem_of_app in Hin as [Hin|Hin]; [done|].
    destruct (Hk _ _ _ _ _ Hloop Hin) as (Hfatal & Hlast & Hiter).
    split; [done|]. split; [by apply last_app_suffix|].
    by rewrite iterations_of_app, Hnone, Hiter.
  - by destruct (Hclean _ _ _ Hs).
  - by destruct (Hclean _ _ _ Hs).
Qed.

(** *** One pair of predictions and labels for each metric *)

Lemma list_mul_singleton {A} (x : A) n : list_mul [x] n = replicate n x.
Proof.
  unfold list_mul. induction n as [|n IH]; [done|].
  cbn [replicate concat]. by rewrite IH.
Qed.

Lemma zip_replicate_r {A B} (xs : list A) (y : B) :
  zip xs (replicate (length xs) y) = map (λ x, (x, y)) xs.
Proof. induction xs as [|x xs IH]; [done|]. simpl. by rewrite IH. Qed.

(** A run of [_compute_metrics] that returns calls the metric backends
    for the zipped pairs, in order, and does nothing else. *)
Lemma compute_metrics_loop_events zipped results w w' evs scores :
  compute_metrics_loop tc zipped results w = (w', evs, Ok scores) →
  evs = map (λ mp, EvMetricCompute (metric_name mp.1) mp.2) zipped.
Proof.
  revert results w evs.
  induction zipped as [|[metric_cfg [predictions labels]] rest IH]; intros results w evs.
  - by intros [= _ <- _].
  - cbn [compute_metrics_loop]. intros Hrun.
    apply bind_inv in Hrun as [(w1 & evs1 & metric & evs2 & Hm & Hrun & ->)|[H|H]];
      [|by destruct H as (? & _ & [=])|by destruct H as (_ & [=])].
    assert (evs1 = []) as ->.
    { destruct (_metrics tc !! metric_name metric_cfg); by injection Hm as _ <- _. }
    apply bind_inv in Hrun as [(w2 & evs3 & score_dict & evs4 & Hc & Hrun & ->)|[H|H]];
      [|by destruct H as (? & _ & [=])|by destruct H as (_ & [=])].
    assert (evs3 = [EvMetricCompute (metric_name metric_cfg) (predictions, labels)]) as ->.
    { unfold call, call_observed in Hc.
      destruct (metric_compute _ _ _ _ (ext w1)) as [x' o']. by injection Hc as _ <- _. }
    apply bind_inv in Hrun as [(w3 & evs5 & results' & evs6 & Hr & Hrun & ->)|[H|H]];
      [|by destruct H as (? & _ & [=])|by destruct H as (_ & [=])].
    assert (evs5 = []) as ->.
    { destruct score_dict as [d|]; [|by injection Hr as _ <- _].
      destruct (d !! results_key metric_cfg); by injection Hr as _ <- _. }
    apply IH in Hrun as ->. done.
Qed.


(** *** Resampling *)

Lemma resamples_of_app evs1 evs2 :
  resamples_of (evs1 ++ evs2) = resamples_of evs1 ++ resamples_of evs2.
Proof. apply omap_app. Qed.

Lemma resamples_of_map (drawn : list (list nat)) :
  resamples_of (map EvResample drawn) = drawn.
Proof. induction drawn as [|ix drawn IH]; [done|]. cbn. by f_equal. Qed.

Lemma resamples_of_none evs :
  Forall (λ ev, ¬ is_resample ev) evs → resamples_of evs = [].
Proof.
  induction 1 as [|ev evs Hev _ IH]; [done|].
  destruct ev; first [exact IH | by destruct Hev].
Qed.

Lemma truncate_if_testing_run ds w :
  truncate_if_testing ec ds w = (w, [], resampled_dataset ec ds).
Proof. unfold truncate_if_testing, resampled_dataset. by destruct (testing ec). Qed.

(** [bootstrap] changes nothing and emits the draws. *)
Lemma bootstrap_run n ds rng w :
  ∃ o, bootstrap n ds rng w = (w, map EvResample (drawn_indices n ds rng), o).
Proof.
  revert rng. induction n as [|n IH]; intros rng; [by eexists|].
  cbn [bootstrap drawn_indices].
  destruct (rng_integers 0 (ds_len ds) (ds_len ds) rng) as [rng' indices]. cbn [fst snd].
  unfold mbind, M_bind, emit, lift.
  destruct (ds_take ds indices) as [bd|e|]; [|by eexists..].
  destruct (IH rng') as [o ->].
  destruct o as [others|e|]; simpl; rewrite ?app_nil_r; by eexists.
Qed.

Lemma emits_loop_of_body {A} b (m : M A) :
  emits_only (body_event b) m → emits_only loop_event m.
Proof. apply emits_mono. intros [] Hev; simpl in *; tauto. Qed.

Lemma emits_guarded_iteration idx (body : M IterResult) b :
  emits_only (body_event b) body →
  emits_only loop_event
    (emit (EvIteration idx) ;; new_frame ;; try_except body iteration_handler).
Proof.
  intros Hbody. apply emits_bind; [apply emits_emit; exact I|]. intros _.
  apply emits_bind; [apply emits_new_frame|]. intros _.
  apply emits_try_except; [by eapply emits_loop_of_body|].
  intros e h Hh. eapply (emits_loop_of_body true), emits_iteration_handler, Hh.
Qed.

Lemma emits_pytorch_jax_runner mc bds pds collator idx :
  emits_only loop_event (pytorch_jax_runner tc ec mc bds pds collator idx).
Proof.
  unfold pytorch_jax_runner.
  apply emits_bind; [apply emits_lift|]. intros bd.
  apply emits_bind; [apply emits_lift|]. intros pd.
  eapply emits_guarded_iteration, emits_pytorch_jax_iteration_body.
Qed.

Lemma emits_spacy_runner mc bds pds idx :
  emits_only loop_event (spacy_runner tc ec mc bds pds idx).
Proof.
  unfold spacy_runner.
  apply emits_bind; [apply emits_lift|]. intros bd.
  apply emits_bind; [apply emits_lift|]. intros pd.
  eapply emits_guarded_iteration, emits_spacy_iteration_body.
Qed.

Lemma emits_evaluate_loop fuel run mc n :
  (∀ idx, emits_only loop_event (run idx)) →
  emits_only loop_event (evaluate_loop tc ec fuel run mc n).
Proof.
  intros Hrun. unfold evaluate_loop. apply emits_bind.
  - apply emits_collect_scores. intros idx _. apply Hrun.
  - intros scores. unfold call_log_scores. apply emits_call. exact I.
Qed.

Lemma no_resample_after_bootstrap ev :
  loop_event ev ∨ (setup_event ev ∧ ¬ is_resample ev) → ¬ is_resample ev.
Proof. destruct ev; simpl; tauto. Qed.

(** The draws of a run that starts with truncation and bootstrapping
    and goes on without drawing. *)
Lemma resamples_of_setup {A B} (k : list Dataset → M A) (k' : A → M B) ds rng n w :
  (∀ bds, emits_only (λ ev, setup_event ev ∧ ¬ is_resample ev) (k bds)) →
  (∀ a, emits_only loop_event (k' a)) →
  resamples_of
    (((truncate_if_testing ec ds ≫= λ ds', bootstrap n ds' rng ≫= k) ≫= k') w).1.2
  = match resampled_dataset ec ds with
    | Ok ds' => drawn_indices n ds' rng
    | _ => []
    end.
Proof.
  intros Hk Hk'.
  destruct (bind_events loop_event
              (truncate_if_testing ec ds ≫= λ ds', bootstrap n ds' rng ≫= k) k' w Hk')
    as (evs2 & -> & Hevs2).
  rewrite resamples_of_app, (resamples_of_none evs2), app_nil_r.
  2: { eapply Forall_impl; [exact Hevs2|]. intros ev Hev.
       apply no_resample_after_bootstrap. by left. }
  unfold mbind at 1. unfold M_bind at 1. rewrite truncate_if_testing_run.
  destruct (resampled_dataset ec ds) as [ds'|e|]; [|done..].
  destruct (bind_events (λ ev, setup_event ev ∧ ¬ is_resample ev)
              (bootstrap n ds' rng) k w Hk) as (evs3 & Hevs & Hevs3).
  destruct ((bootstrap n ds' rng ≫= k) w) as [[w2 evs'] o2]. simpl in *. subst evs'.
  destruct (bootstrap_run n ds' rng w) as [o Hboot]. rewrite Hboot. simpl.
  rewrite resamples_of_app, resamples_of_map, (resamples_of_none evs3), app_nil_r; [done|].
  eapply Forall_impl; [exact Hevs3|]. by intros ev [_ Hev].
Qed.

Lemma pytorch_jax_resamples fuel md ds rng mc n w :
  resamples_of (_evaluate_pytorch_jax tc ec fuel md ds rng mc n w).1.2
  = match resampled_dataset ec ds with
    | Ok ds' => drawn_indices n ds' rng
    | _ => []
    end.
Proof.
  unfold _evaluate_pytorch_jax, pytorch_jax_setup.
  apply (resamples_of_setup
           (λ bds, _ ≫= λ pds, _ ≫= λ collator, mret (bds, pds, collator))).
  - intros bds. apply emits_bind.
    { apply emits_try_except; [|intros e h; apply emits_preprocessing_handler].
      apply emits_list_comprehension. intros bd.
      apply emits_call. split; [exact I|intros Hev; exact Hev]. }
    intros pds.
    apply emits_bind; [apply emits_call; split; [exact I|intros Hev; exact Hev]|].
    intros collator. apply emits_ret.
  - intros [[bds pds] collator].
    apply emits_evaluate_loop. intros idx. apply emits_pytorch_jax_runner.
Qed.

Lemma spacy_resamples fuel md ds rng mc n w :
  resamples_of (_evaluate_spacy tc ec fuel md ds rng mc n w).1.2
  = match resampled_dataset ec ds with
    | Ok ds' => drawn_indices n ds' rng
    | _ => []
    end.
Proof.
  unfold _evaluate_spacy, spacy_setup.
  apply (resamples_of_setup (λ bds, _ ≫= λ pds, mret (bds, pds))).
  - intros bds. apply emits_bind.
    { apply emits_try_except; [|intros e h; apply emits_preprocessing_handler].
      apply emits_list_comprehension. intros bd.
      apply emits_call. split; [exact I|intros Hev; exact Hev]. }
    intros pds. apply emits_ret.
  - intros [bds pds].
    apply emits_evaluate_loop. intros idx. apply emits_spacy_runner.
Qed.

Lemma map_raising_length {A B} (f : A → outcome B) xs ys :
  map_raising f xs = Ok ys → length ys = length xs.
Proof.
  revert ys. induction xs as [|x xs IH]; intros ys; simpl.
  - by intros [= <-].
  - destruct (f x) as [y|e|]; simpl; [|done..].
    destruct (map_raising f xs) as [ys'|e|]; simpl; [|done..].
    intros [= <-]. simpl. by rewrite (IH ys').
Qed.

Lemma list_get_Some {A} (l : list A) i x : l !! i = Some x → list_get l i = Ok x.
Proof. intros Hx. unfold list_get. by rewrite Hx. Qed.

Lemma list_get_None {A} (l : list A) i :
  l !! i = None → list_get l i = Raise (Builtin IndexError "list index out of range").
Proof. intros Hx. unfold list_get. by rewrite Hx. Qed.

Lemma map_raising_list_get_seq {A} (l : list A) i k :
  (i + k ≤ length l)%nat → map_raising (list_get l) (seq i k) = Ok (take k (drop i l)).
Proof.
  revert i. induction k as [|k IH]; intros i Hlen; [done|].
  cbn [seq map_raising].
  destruct (l !! i) as [x|] eqn:Hx; [|apply lookup_ge_None in Hx; lia].
  rewrite (list_get_Some l i x Hx), IH by lia. cbn.
  by rewrite (drop_S l x i Hx).
Qed.

Lemma map_raising_list_get_short {A} (l : list A) i k :
  (i ≤ length l)%nat → length l < i + k →
  map_raising (list_get l) (seq i k) = Raise (Builtin IndexError "list index out of range").
Proof.
  revert i. induction k as [|k IH]; intros i Hi Hlen; [lia|].
  cbn [seq map_raising].
  destruct (l !! i) as [x|] eqn:Hx; [|by rewrite (list_get_None l i Hx)].
  apply lookup_lt_Some in Hx as Hlt.
  by rewrite (list_get_Some l i x Hx), IH by lia.
Qed.

Lemma map_raising_list_get_in_range {A} (l : list A) ixs :
  Forall (λ i, i < length l) ixs → ∃ picked, map_raising (list_get l) ixs = Ok picked.
Proof.
  induction 1 as [|i ixs Hi _ [picked IH]]; [by eexists|].
  cbn [map_raising].
  destruct (lookup_lt_is_Some_2 l i Hi) as [x Hx].
  rewrite (list_get_Some l i x Hx), IH. by eexists.
Qed.

(** [dataset.select(range(n))] keeps the first [n] records. *)
Lemma ds_select_range_ok ds n :
  (n ≤ ds_len ds)%nat →
  ds_select_range ds n = Ok {| column_names := column_names ds; rows := take n (rows ds) |}.
Proof.
  intros Hn. unfold ds_select_range, ds_take.
  by rewrite (map_raising_list_get_seq (rows ds) 0 n Hn).
Qed.

(** ... and raises when the dataset has fewer than [n] records. *)
Lemma ds_select_range_short ds n :
  ds_len ds < n →
  ds_select_range ds n = Raise (Builtin IndexError "list index out of range").
Proof.
  intros Hn. unfold ds_select_range, ds_take.
  by rewrite (map_raising_list_get_short (rows ds) 0 n) by (unfold ds_len in *; lia).
Qed.

Lemma resampled_dataset_spec ds ds' :
  resampled_dataset ec ds = Ok ds' →
  ds_len ds' = resample_size ec ds ∧
  (testing ec = true → (4 ≤ ds_len ds)%nat ∧ rows ds' = take 4 (rows ds)) ∧
  (testing ec = false → ds' = ds).
Proof.
  unfold resampled_dataset, resample_size. destruct (testing ec).
  - destruct (decide (4 ≤ ds_len ds)%nat) as [Hlen|Hlen].
    + rewrite ds_select_range_ok by done. intros [= <-].
      unfold ds_len in *. cbn [rows]. rewrite length_take. repeat split; [lia|done..].
    + rewrite ds_select_range_short by lia. discriminate.
  - by intros [= <-].
Qed.

Lemma rng_draw_in_range len rng :
  rng_in_range →
  length (rng_integers 0 len len rng).2 = len ∧
  Forall (λ i, i < len) (rng_integers 0 len len rng).2.
Proof.
  intros Hrng. destruct (Hrng 0 len len rng) as [Hlen Hrange]. split; [done|].
  destruct len as [|len].
  - destruct (rng_integers 0 0 0 rng).2; [constructor|discriminate].
  - eapply Forall_impl; [apply Hrange; lia|]. intros i Hi. simpl in Hi. lia.
Qed.

Lemma bootstrap_indices_spec n len rng :
  rng_in_range →
  length (bootstrap_indices n len rng) = n ∧
  Forall (λ indices, length indices = len ∧ Forall (λ i, i < len) indices)
         (bootstrap_indices n len rng).
Proof.
  intros Hrng. revert rng. induction n as [|n IH]; intros rng; [by split|].
  cbn [bootstrap_indices length]. destruct (IH (rng_integers 0 len len rng).1) as [-> Hall].
  split; [done|]. constructor; [|done]. by apply rng_draw_in_range.
Qed.

Lemma drawn_indices_in_range n ds rng :
  rng_in_range → drawn_indices n ds rng = bootstrap_indices n (ds_len ds) rng.
Proof.
  intros Hrng. revert rng. induction n as [|n IH]; intros rng; [done|].
  cbn [drawn_indices bootstrap_indices]. cbn zeta. f_equal.
  destruct (rng_draw_in_range (ds_len ds) rng Hrng) as [_ Hrange].
  unfold ds_take.
  destruct (map_raising_list_get_in_range (rows ds) _ Hrange) as [picked ->].
  cbn. apply IH.
Qed.

(** C5: two evaluations of the same dataset with generators in the same
    state draw the same sequence of index arrays, whatever else differs
    between the two runs (the state of the collaborators, the model, the
    path); when the generator honours the contract of
    [Generator.integers], every array has as many indices as the dataset
    that is resampled has records, each below that number, and a run that
    gets to resample draws one array for each of the [n] iterations from
    the successive states of the generator. *)
Theorem resampling_deterministic fuel fuel' md md' mc mc' ds rng n w w'
    (r r' : World * list Event * outcome Report) :
  rng_in_range →
  r = _evaluate_pytorch_jax tc ec fuel md ds rng mc n w ∨
  r = _evaluate_spacy tc ec fuel md ds rng mc n w →
  r' = _evaluate_pytorch_jax tc ec fuel' md' ds rng mc' n w' ∨
  r' = _evaluate_spacy tc ec fuel' md' ds rng mc' n w' →
  resamples_of r.1.2 = resamples_of r'.1.2 ∧
  Forall (λ indices, length indices = resample_size ec ds ∧
                     Forall (λ i, i < resample_size ec ds) indices)
         (resamples_of r.1.2) ∧
  (∀ ds', resampled_dataset ec ds = Ok ds' →
     resamples_of r.1.2 = bootstrap_indices n (resample_size ec ds) rng).
Proof.
  intros Hrng Hr Hr'.
  assert (Hdrawn : ∀ fuel md mc w (r : World * list Event * outcome Report),
            r = _evaluate_pytorch_jax tc ec fuel md ds rng mc n w ∨
            r = _evaluate_spacy tc ec fuel md ds rng mc n w →
            resamples_of r.1.2
            = match resampled_dataset ec ds with
              | Ok ds' => drawn_indices n ds' rng
              | _ => []
              end).
  { intros f m c v x [-> | ->]; [apply pytorch_jax_resamples|apply spacy_resamples]. }
  rewrite (Hdrawn _ _ _ _ _ Hr), (Hdrawn _ _ _ _ _ Hr'). split; [done|].
  destruct (resampled_dataset ec ds) as [ds'|e|] eqn:Hds; [|by split..].
  destruct (resampled_dataset_spec _ _ Hds) as (<- & _ & _).
  rewrite drawn_indices_in_range by done.
  split; [by apply bootstrap_indices_spec|]. by intros ds'' _.
Qed.

(** *** [evaluate] *)

Lemma emits_acquire id : emits_only acquire_event (acquire tc ec id).
Proof. unfold acquire, _load_data. emits. Qed.

Lemma iterations_of_acquire evs :
  Forall acquire_event evs → iterations_of evs = [].
Proof.
  induction 1 as [|ev evs Hev _ IH]; [done|].
  destruct ev; first [exact IH | by destruct Hev].
Qed.

(** A run of [evaluate] whose first part succeeds. *)
Lemma evaluate_run fuel id w w1 evs1 mc rng md ds :
  acquire tc ec id w = (w1, evs1, Ok (mc, rng, md, ds)) →
  evaluate tc ec fuel id w
  = match remove_empty_examples (feature_column_names tc) ds with
    | Ok ds' =>
        match dispatch tc ec fuel mc md ds' rng (num_iter ec) w1 with
        | (w2, evs2, o) => (w2, evs1 ++ evs2, o)
        end
    | Raise e => (w1, evs1, Raise e)
    | OutOfFuel => (w1, evs1, OutOfFuel)
    end.
Proof.
  intros Hacq. unfold evaluate, mbind, M_bind, lift. rewrite Hacq.
  destruct (remove_empty_examples _ ds) as [ds'|e|]; [|by rewrite app_nil_r..].
  by destruct (dispatch _ _ _ _ _ _ _ _ w1) as [[w2 evs2] o].
Qed.

Lemma dispatch_ok fuel mc md ds rng n w w' evs report :
  dispatch tc ec fuel mc md ds rng n w = (w', evs, Ok report) →
  ∃ scores,
    last evs = Some (EvLogScores (map metric_name (logged_metric_configs tc ec)) scores) ∧
    length scores = n ∧
    iterations_of evs = seq 0 n.
Proof.
  unfold dispatch. intros Hrun.
  destruct (_ || _).
  - eapply evaluation_path_ok. by left.
  - destruct (String.eqb _ "spacy"); [|discriminate].
    eapply evaluation_path_ok. by right.
Qed.

(** A successful run of [evaluate]. *)
Lemma evaluate_ok fuel id w w' evs report :
  evaluate tc ec fuel id w = (w', evs, Ok report) →
  ∃ scores,
    last evs = Some (EvLogScores (map metric_name (logged_metric_configs tc ec)) scores) ∧
    length scores = num_iter ec ∧
    iterations_of evs = seq 0 (num_iter ec).
Proof.
  intros Hrun.
  destruct (acquire tc ec id w) as [[w1 evs1] [[[[mc rng] md] ds]|e|]] eqn:Hacq.
  - rewrite (evaluate_run _ _ _ _ _ _ _ _ _ Hacq) in Hrun.
    destruct (remove_empty_examples _ ds) as [ds'|e|]; [|discriminate..].
    destruct (dispatch _ _ _ _ _ _ _ _ w1) as [[w2 evs2] o] eqn:Hd.
    injection Hrun as <- <- ->.
    destruct (dispatch_ok _ _ _ _ _ _ _ _ _ _ Hd) as (scores & Hlast & Hlen & Hiter).
    exists scores. split; [by apply last_app_suffix|]. split; [done|].
    rewrite iterations_of_app, Hiter.
    by rewrite (iterations_of_acquire evs1)
      by (eapply emits_run; [apply emits_acquire|exact Hacq]).
  - unfold evaluate, mbind, M_bind in Hrun. by rewrite Hacq in Hrun.
  - unfold evaluate, mbind, M_bind in Hrun. by rewrite Hacq in Hrun.
Qed.

(** C10: the number of iterations that [evaluate] requests is decided by
    the testing flag alone, 2 when it is set and 10 otherwise: a
    successful evaluation makes exactly these single-iteration calls, in
    order, and logs as many score records; and in testing mode the
    dataset that is resampled is made of the first 4 records, the
    evaluation raising when there are fewer. *)
Theorem iterations_fixed_by_testing_flag fuel id w w' evs report ds
    (ec' : EvaluationConfig) :
  num_iter ec = (if testing ec then 2 else 10) ∧
  (testing ec' = testing ec → num_iter ec' = num_iter ec) ∧
  (evaluate tc ec fuel id w = (w', evs, Ok report) →
   iterations_of evs = seq 0 (if testing ec then 2 else 10) ∧
   ∃ scores,
     last evs = Some (EvLogScores (map metric_name (logged_metric_configs tc ec)) scores) ∧
     length scores = if testing ec then 2 else 10) ∧
  truncate_if_testing ec ds w = (w, [], resampled_dataset ec ds) ∧
  (testing ec = true →
   ((4 ≤ ds_len ds)%nat →
    resampled_dataset ec ds
    = Ok {| column_names := column_names ds; rows := take 4 (rows ds) |}) ∧
   (ds_len ds < 4 →
    resampled_dataset ec ds = Raise (Builtin IndexError "list index out of range"))) ∧
  (testing ec = false → resampled_dataset ec ds = Ok ds).
Proof.
  assert (Hnum : num_iter ec = (if testing ec then 2 else 10))
    by (unfold num_iter; by destruct (testing ec)).
  split; [done|]. split.
  { intros Ht. unfold num_iter. by rewrite Ht. }
  split.
  { intros Hrun. apply evaluate_ok in Hrun as (scores & Hlast & Hlen & Hiter).
    rewrite Hnum in Hlen, Hiter. eauto. }
  split; [apply truncate_if_testing_run|].
  unfold resampled_dataset. split.
  - intros ->. split; intros Hlen.
    + by apply ds_select_range_ok.
    + by apply ds_select_range_short.
  - by intros ->.
Qed.

(** *** Removing the records with empty features *)

Lemma filter_raising_ok {A} (keep : A → outcome bool) xs kept :
  filter_raising keep xs = Ok kept →
  kept = List.filter (λ x, match keep x with Ok b => b | _ => false end) xs.
Proof.
  revert kept. induction xs as [|x xs IH]; intros kept; simpl.
  - by intros [= <-].
  - destruct (keep x) as [b|e|]; simpl; [|done..].
    destruct (filter_raising keep xs) as [kept'|e|]; simpl; [|done..].
    intros [= <-]. rewrite (IH kept' eq_refl). by destruct b.
Qed.

Lemma filter_twice {A} (f g : A → bool) xs :
  List.filter f (List.filter g xs) = List.filter (λ x, g x && f x) xs.
Proof.
  induction xs as [|x xs IH]; [done|]. simpl.
  destruct (g x); simpl; [|done]. destruct (f x); by rewrite IH.
Qed.

Lemma ds_filter_ok feat_column ds ds' :
  ds_filter (has_feature feat_column) ds = Ok ds' →
  column_names ds' = column_names ds ∧
  rows ds' = List.filter (λ record, nonempty_feature record feat_column) (rows ds).
Proof.
  unfold ds_filter.
  destruct (filter_raising _ (rows ds)) as [kept|e|] eqn:Hkept; simpl; [|done..].
  intros [= <-]. split; [done|]. by apply filter_raising_ok in Hkept.
Qed.

(** The records that [remove_empty_examples] keeps: those with a value
    of positive length in every feature column. *)
Lemma remove_empty_examples_ok feat_columns ds ds' :
  remove_empty_examples feat_columns ds = Ok ds' →
  column_names ds' = column_names ds ∧
  rows ds' = List.filter (λ record, forallb (nonempty_feature record) feat_columns)
                         (rows ds).
Proof.
  revert ds. induction feat_columns as [|feat_column rest IH]; intros ds; simpl.
  - intros [= <-]. split; [done|]. induction (rows ds) as [|r rs IHr]; [done|].
    simpl. by rewrite <- IHr.
  - destruct (ds_filter (has_feature feat_column) ds) as [ds1|e|] eqn:Hf.
    + intros Hrest. apply IH in Hrest as [Hcols Hrows].
      apply ds_filter_ok in Hf as [Hcols1 Hrows1].
      split; [congruence|]. by rewrite Hrows, Hrows1, filter_twice.
    + by destruct e as [[] ?| | | | | | | |].
    + done.
Qed.

Lemma remove_empty_examples_app before after ds :
  remove_empty_examples (before ++ after) ds
  = match remove_empty_examples before ds with
    | Ok ds1 => remove_empty_examples after ds1
    | other => other
    end.
Proof.
  revert ds. induction before as [|feat_column rest IH]; intros ds; [done|].
  cbn [app remove_empty_examples].
  destruct (ds_filter (has_feature feat_column) ds) as [ds1|e|]; [apply IH| |done].
  by destruct e as [[] ?| | | | | | | |].
Qed.

Lemma well_formed_kept feat_columns ds ds' :
  remove_empty_examples feat_columns ds = Ok ds' → well_formed ds → well_formed ds'.
Proof.
  intros Hok Hwf. apply remove_empty_examples_ok in Hok as [Hcols Hrows].
  unfold well_formed in *. rewrite Hcols, Hrows.
  rewrite Forall_forall in *. intros r Hr. apply Hwf.
  apply list_elem_of_In. apply list_elem_of_In, filter_In in Hr. tauto.
Qed.

(** A filter on a column that is not in the schema raises when it meets
    the first record. *)
Lemma remove_empty_examples_wrong_column col after ds :
  well_formed ds → col ∉ column_names ds → rows ds ≠ [] →
  remove_empty_examples (col :: after) ds = Raise (WrongFeatureColumnName col).
Proof.
  intros Hwf Hcol Hrows. cbn [remove_empty_examples]. unfold ds_filter.
  destruct (rows ds) as [|r rs] eqn:Hds; [done|].
  assert (Hr : r !! col = None).
  { unfold well_formed in Hwf. rewrite Hds in Hwf. apply Forall_cons_1 in Hwf as [Hdom _].
    apply not_elem_of_dom. rewrite Hdom. by rewrite elem_of_list_to_set. }
  assert (Hraise : has_feature col r = Raise (Builtin KeyError ("'" +:+ col +:+ "'")))
    by (unfold has_feature, record_get; by rewrite Hr).
  cbn [filter_raising]. by rewrite Hraise.
Qed.

(** C6, amended: a successful filter keeps exactly the records that have
    a value of positive length in every configured feature column, and
    the evaluation paths receive the filtered dataset, no iteration
    having run before; and when a configured feature column is not in
    the schema of the dataset, while the dataset still has a record after
    the filters on the columns before it, [evaluate] raises
    [WrongFeatureColumnName] for that column and no iteration runs. *)
Theorem empty_features_dropped fuel id w w1 evs1 mc rng md ds before col after ds1 :
  acquire tc ec id w = (w1, evs1, Ok (mc, rng, md, ds)) →
  (∀ ds', remove_empty_examples (feature_column_names tc) ds = Ok ds' →
     rows ds' = List.filter (λ record,
                               forallb (nonempty_feature record) (feature_column_names tc))
                            (rows ds) ∧
     iterations_of evs1 = [] ∧
     evaluate tc ec fuel id w
     = match dispatch tc ec fuel mc md ds' rng (num_iter ec) w1 with
       | (w2, evs2, o) => (w2, evs1 ++ evs2, o)
       end) ∧
  (feature_column_names tc = before ++ col :: after →
   remove_empty_examples before ds = Ok ds1 →
   rows ds1 ≠ [] →
   well_formed ds →
   col ∉ column_names ds →
   evaluate tc ec fuel id w = (w1, evs1, Raise (WrongFeatureColumnName col)) ∧
   iterations_of evs1 = []).
Proof.
  intros Hacq.
  assert (Hnone : iterations_of evs1 = []).
  { apply iterations_of_acquire. eapply emits_run; [apply emits_acquire|exact Hacq]. }
  split.
  - intros ds' Hok. split; [by apply remove_empty_examples_ok in Hok as [_ ?]|].
    split; [done|]. by rewrite (evaluate_run _ _ _ _ _ _ _ _ _ Hacq), Hok.
  - intros Hcols Hbefore Hrows Hwf Hcol. split; [|done].
    rewrite (evaluate_run _ _ _ _ _ _ _ _ _ Hacq), Hcols.
    rewrite remove_empty_examples_app, Hbefore.
    rewrite remove_empty_examples_wrong_column; [done| | |done].
    + by eapply well_formed_kept.
    + by apply remove_empty_examples_ok in Hbefore as [-> _].
Qed.

End Pieces.

End TaskFacts.

(** ** Runs in the small environment *)

Module ToyFacts.
Import Config Py Scoring Task Toy TaskFacts.

(** A run is the triple of its parts; its outcome can be computed alone. *)
Lemma run_is {A B C} (x : A * B * C) (o : C) : x.2 = o → x = (x.1.1, x.1.2, o).
Proof. intros <-. by destruct x as [[? ?] ?]. Qed.

Lemma toy_integers_in_range (sc : Script) : rng_in_range (E := toy_env sc).
Proof.
  intros low high size rng. cbn. unfold toy_integers. cbn [snd].
  split; [by rewrite length_map, length_seq|].
  intros Hlt. apply Forall_forall. intros i Hi.
  apply list_elem_of_fmap in Hi as (k & -> & _).
  assert (Hpos : high - low ≠ 0) by lia.
  cbn beta.
  match goal with
  | |- context [?a mod ?b] =>
      pose proof (Nat.mod_upper_bound a b Hpos) as Hm; revert Hm; generalize (a mod b)
  end.
  intros m Hm. lia.
Qed.

Lemma absent_from_tweets : "tokens" ∉ ["text"; "label"].
Proof.
  rewrite !elem_of_cons, elem_of_nil.
  intros [H | [H | H]]; [discriminate H|discriminate H|exact H].
Qed.


Lemma failed_iteration_is_fatal_witness :
  toy_loop out_of_memory
  = ((toy_call_1 out_of_memory).1.1,
     ((toy_call_0 out_of_memory).1.2 ++ []) ++ (toy_call_1 out_of_memory).1.2,
     Raise (InvalidEvaluation
              "An unknown error occurred during the evaluation of the 1 iteration. The error message returned was: CUDA out of memory")) ∧
  iterations_of (((toy_call_0 out_of_memory).1.2 ++ []) ++ (toy_call_1 out_of_memory).1.2)
  = [0; 1].
Proof.
  apply (failed_iteration_is_fatal (E := toy_env out_of_memory)
           (sent_config ["text"]) (run_config true) 0 (toy_model_config out_of_memory)
           (toy_datasets out_of_memory).1 (toy_datasets out_of_memory).2 ()
           (toy_runner out_of_memory) 2 1 (toy_setup out_of_memory).1.1
           [scores_of (returned (IterErr RuntimeError "") (toy_call_0 out_of_memory).2)]
           (toy_call_0 out_of_memory).1.1
           ((toy_call_0 out_of_memory).1.2 ++ [])
           (toy_call_1 out_of_memory).1.1
           (toy_call_1 out_of_memory).1.2
           RuntimeError "CUDA out of memory").
  - left. reflexivity.
  - lia.
  - apply (runs_cons _ 0 [] (toy_setup out_of_memory).1.1
             (toy_call_0 out_of_memory).1.1 (toy_call_0 out_of_memory).1.2).
    + apply (run_is (toy_call_0 out_of_memory)). vm_compute. reflexivity.
    + apply runs_nil.
  - apply (run_is (toy_call_1 out_of_memory)). vm_compute. reflexivity.
Defined.

(** C8, as worded: every failing exit of a single-iteration call releases
    the model first.  This fails on the path that the claim names: when
    the text of the caught exception mentions the MPS fallback, the
    [except] clause raises [MPSFallbackNotEnabled] before it deletes
    anything, so the call fails with [model] still bound. *)
Lemma mps_failure_keeps_model :
  (toy_iteration no_mps_fallback 0).2 = Raise MPSFallbackNotEnabled ∧
  local_model (frame (toy_iteration no_mps_fallback 0).1.1) = Some () ∧
  ¬ releases_on_every_failure (E := toy_env no_mps_fallback)
      (sent_config ["text"]) (run_config true).
Proof.
  split; [vm_compute; reflexivity|]. split; [vm_compute; reflexivity|].
  intros Hclaim.
  destruct (Hclaim 0 (toy_model_config no_mps_fallback) tweets tweets ()
              (start no_mps_fallback)
              (toy_iteration no_mps_fallback 0).1.1 (toy_iteration no_mps_fallback 0).1.2
              (toy_iteration no_mps_fallback 0).2) as (Hmodel & _ & _).
  - apply (run_is (toy_iteration no_mps_fallback 0)). reflexivity.
  - vm_compute. exact I.
  - vm_compute in Hmodel. discriminate Hmodel.
Qed.

Lemma resampling_deterministic_witness :
  resamples_of (toy_pytorch_jax good 2).1.2 = resamples_of (toy_spacy good 2).1.2 ∧
  Forall (λ indices, length indices = 4 ∧ Forall (λ i, i < 4) indices)
         (resamples_of (toy_pytorch_jax good 2).1.2) ∧
  resamples_of (toy_pytorch_jax good 2).1.2 = [[2; 1; 2; 1]; [3; 2; 3; 2]].
Proof.
  destruct (resampling_deterministic (E := toy_env good)
              (sent_config ["text"]) (run_config true) 1 3 ((), ()) ((), ())
              (toy_model_config good) (toy_model_config good) tweets 4242 2
              (start good) (later good) (toy_pytorch_jax good 2) (toy_spacy good 2))
    as (Hsame & Hrange & Hdrawn).
  - apply toy_integers_in_range.
  - left. reflexivity.
  - right. reflexivity.
  - split; [exact Hsame|]. split; [exact Hrange|].
    rewrite (Hdrawn {| column_names := column_names tweets;
                       rows := take 4 (rows tweets) |}); [reflexivity|].
    vm_compute. reflexivity.
Defined.

Lemma empty_features_dropped_witness :
  toy_evaluate good ["text"; "tokens"] true
  = ((toy_acquire good ["text"; "tokens"] true).1.1,
     (toy_acquire good ["text"; "tokens"] true).1.2,
     Raise (WrongFeatureColumnName "tokens")) ∧
  iterations_of (toy_acquire good ["text"; "tokens"] true).1.2 = [].
Proof.
  apply (proj2 (empty_features_dropped (E := toy_env good)
                  (sent_config ["text"; "tokens"]) (run_config true) 1 "pin/senda"
                  (start good)
                  (toy_acquire good ["text"; "tokens"] true).1.1
                  (toy_acquire good ["text"; "tokens"] true).1.2
                  (toy_model_config good) 4242 ((), ()) tweets
                  ["text"] "tokens" [] tweets_with_text
                  ltac:(apply (run_is (toy_acquire good ["text"; "tokens"] true));
                        vm_compute; reflexivity))).
  - reflexivity.
  - vm_compute. reflexivity.
  - cbn [rows tweets_with_text]. discriminate.
  - unfold well_formed. cbn [rows tweets]. repeat constructor; vm_compute; reflexivity.
  - exact absent_from_tweets.
Defined.

(** C6, as worded: an absent feature column always makes [evaluate] raise
    [WrongFeatureColumnName] before any iteration.  The filter only looks
    up the column in the records it is given: on a split without records
    it looks up nothing and returns the split, so the evaluation goes on
    to its first iteration, which fails for another reason. *)
Lemma wrong_column_counterexample :
  ("tokens" ∉ column_names no_tweets) ∧
  remove_empty_examples ["tokens"] no_tweets = Ok no_tweets ∧
  iterations_of (toy_evaluate no_records ["tokens"] false).1.2 = [0] ∧
  (toy_evaluate no_records ["tokens"] false).2
  = Raise (Builtin UnboundLocalError
             "local variable 'model_predictions' referenced before assignment") ∧
  ¬ wrong_column_always_raises (E := toy_env no_records)
      (sent_config ["tokens"]) (run_config false).
Proof.
  split; [exact absent_from_tweets|].
  split; [reflexivity|]. split; [vm_compute; reflexivity|].
  split; [vm_compute; reflexivity|].
  intros Hclaim.
  destruct (Hclaim 1 "pin/senda" (start no_records)
              (toy_acquire no_records ["tokens"] false).1.1
              (toy_acquire no_records ["tokens"] false).1.2
              (toy_model_config no_records) 4242 ((), ()) no_tweets "tokens")
    as (w' & evs & col' & Hrun & _).
  - apply (run_is (toy_acquire no_records ["tokens"] false)). vm_compute. reflexivity.
  - unfold well_formed. cbn [rows no_tweets]. constructor.
  - cbn [feature_column_names sent_config]. constructor.
  - exact absent_from_tweets.
  - apply (f_equal snd) in Hrun. vm_compute in Hrun. discriminate Hrun.
Qed.


Lemma iterations_fixed_by_testing_flag_witness :
  iterations_of (toy_evaluate good ["text"] true).1.2 = [0; 1] ∧
  (∃ scores,
     last (toy_evaluate good ["text"] true).1.2
     = Some (EvLogScores ["macro_f1"; "mcc"] scores) ∧
     length scores = 2) ∧
  resampled_dataset (run_config true) tweets_with_text = Ok tweets_with_text.
Proof.
  destruct (iterations_fixed_by_testing_flag (E := toy_env good)
              (sent_config ["text"]) (run_config true) 1 "pin/senda" (start good)
              (toy_evaluate good ["text"] true).1.1
              (toy_evaluate good ["text"] true).1.2
              (returned no_report (toy_evaluate good ["text"] true).2)
              tweets_with_text (run_config true))
    as (_ & _ & Hrun & _ & Htesting & _).
  destruct Hrun as [Hiter Hlog];
    [apply (run_is (toy_evaluate good ["text"] true)); vm_compute; reflexivity|].
  destruct (Htesting eq_refl) as [Hfirst _].
  split; [exact Hiter|]. split; [exact Hlog|].
  apply Hfirst. cbn. lia.
Defined.

End ToyFacts.

(** ** More about config.py: the label dictionaries *)

Module LabelFacts.
Import Config ConfigFacts.

Lemma label2id_pairs_snoc ls label :
  label2id_pairs (ls ++ [label])
  = label2id_pairs ls ++ map (λ syn, (syn, length ls)) (label_strings label).
Proof.
  unfold label2id_pairs, enumerate.
  rewrite imap_app, flat_map_app. f_equal.
  cbn [imap flat_map fst snd]. by rewrite Nat.add_0_r, app_nil_r.
Qed.

Lemma insert_all_lookup {V} (syns : list string) (v : V) (d : gmap string V) s :
  fold_left (λ d kv, <[kv.1 := kv.2]> d) (map (λ syn, (syn, v)) syns) d !! s
  = if decide (s ∈ syns) then Some v else d !! s.
Proof.
  revert d. induction syns as [|syn syns IH]; intros d; cbn [map fold_left fst snd].
  - destruct (decide (s ∈ [])) as [H|_]; [by apply elem_of_nil in H|done].
  - rewrite IH. destruct (decide (s ∈ syns)) as [Hin|Hnin].
    + rewrite decide_True; [done|by right].
    + destruct (decide (s = syn)) as [->|Hne].
      * rewrite lookup_insert_eq. rewrite decide_True; [done|by left].
      * rewrite lookup_insert_ne by done.
        rewrite decide_False; [done|]. rewrite elem_of_cons. tauto.
Qed.

Lemma label2id_snoc_lookup ls label s :
  dict_of_pairs (label2id_pairs (ls ++ [label])) !! s
  = if decide (s ∈ label_strings label) then Some (length ls)
    else dict_of_pairs (label2id_pairs ls) !! s.
Proof.
  rewrite label2id_pairs_snoc. unfold dict_of_pairs.
  rewrite fold_left_app. apply insert_all_lookup.
Qed.

(** The index stored for a string is that of the last label carrying it. *)
Lemma label2id_pairs_last_owner (ls : list Label) (s : string) (idx : nat) :
  dict_of_pairs (label2id_pairs ls) !! s = Some idx ↔
  (∃ label, ls !! idx = Some label ∧ s ∈ label_strings label) ∧
  (∀ (j : nat) label, ls !! j = Some label → s ∈ label_strings label → (j ≤ idx)%nat).
Proof.
  revert idx. induction ls as [|label ls IH] using rev_ind; intros idx.
  - split; [by intros Hs; vm_compute in Hs|]. by intros [(label & Hl & _) _].
  - rewrite label2id_snoc_lookup.
    destruct (decide (s ∈ label_strings label)) as [Hin|Hnin].
    + split.
      * intros [= <-]. split.
        -- exists label. split; [|done]. by rewrite lookup_app_r, Nat.sub_diag.
        -- intros j l Hj _. apply lookup_lt_Some in Hj.
           rewrite length_app in Hj. cbn in Hj. lia.
      * intros [(l & Hl & Hs) Hmax]. f_equal.
        assert (Hlast : (ls ++ [label]) !! length ls = Some label)
          by (by rewrite lookup_app_r, Nat.sub_diag).
        specialize (Hmax _ _ Hlast Hin).
        apply lookup_lt_Some in Hl. rewrite length_app in Hl. cbn in Hl. lia.
    + rewrite IH. split.
      * intros [(l & Hl & Hs) Hmax]. split.
        -- exists l. split; [|done]. by apply lookup_app_l_Some.
        -- intros j l' Hj Hs'.
           destruct (decide (j < length ls)%nat) as [Hlt|Hge].
           ++ rewrite lookup_app_l in Hj by done. by eapply Hmax.
           ++ rewrite lookup_app_r in Hj by lia.
              destruct (j - length ls) as [|k] eqn:Hk; [|done].
              injection Hj as <-. done.
      * intros [(l & Hl & Hs) Hmax].
        assert (Hlt : (idx < length ls)%nat).
        { destruct (decide (idx < length ls)%nat) as [|Hge]; [done|].
          rewrite lookup_app_r in Hl by lia.
          destruct (idx - length ls) as [|k]; [|done]. injection Hl as <-. done. }
        rewrite lookup_app_l in Hl by done. split; [by exists l|].
        intros j l' Hj Hs'. eapply Hmax; [|done]. by apply lookup_app_l_Some.
Qed.

(** X1: [label2id] stores for a string the index of the last label that
    has it as its name or as one of its synonyms; strings of no label
    have no entry. *)
Theorem label2id_last_owner cfg s idx :
  label2id cfg !! s = Some idx ↔
  owns cfg idx s ∧ ∀ j, owns cfg j s → (j ≤ idx)%nat.
Proof.
  unfold label2id, owns. rewrite label2id_pairs_last_owner. split.
  - intros [Hown Hmax]. split; [done|]. intros j (l & Hl & Hs). by eapply Hmax.
  - intros [Hown Hmax]. split; [done|]. intros j l Hl Hs. apply Hmax. by exists l.
Qed.

(** X2: the keys of [label2id] are exactly the strings of
    [label_synonyms], and every index stored is a valid index of
    [id2label] and of [label_synonyms], whose list at that index holds
    the key. *)
Theorem label2id_keys_and_ids cfg :
  (∀ s, is_Some (label2id cfg !! s) ↔ s ∈ concat (label_synonyms cfg)) ∧
  (∀ s idx, label2id cfg !! s = Some idx →
     (idx < num_labels cfg)%nat ∧
     is_Some (id2label cfg !! idx) ∧
     ∃ syns, label_synonyms cfg !! idx = Some syns ∧ s ∈ syns) ∧
  length (id2label cfg) = num_labels cfg ∧
  length (label_synonyms cfg) = num_labels cfg.
Proof.
  assert (Hids : ∀ s idx, label2id cfg !! s = Some idx →
            (idx < num_labels cfg)%nat ∧ is_Some (id2label cfg !! idx) ∧
            ∃ syns, label_synonyms cfg !! idx = Some syns ∧ s ∈ syns).
  { intros s idx Hs. apply label2id_lookup_owner in Hs as (label & Hl & Hin).
    split; [by eapply lookup_lt_Some|]. split.
    - unfold id2label. rewrite list_lookup_fmap, Hl. by eexists.
    - exists (label_strings label). split; [|done].
      unfold label_synonyms. by rewrite list_lookup_fmap, Hl. }
  split; [|split; [exact Hids|]].
  - intros s. split.
    + intros [idx Hs]. destruct (Hids _ _ Hs) as (_ & _ & syns & Hsyns & Hin).
      apply list_elem_of_In, in_concat. exists syns.
      split; apply list_elem_of_In; [by eapply list_elem_of_lookup_2|done].
    + intros Hin. apply list_elem_of_In, in_concat in Hin as (syns & Hsyns & Hs).
      apply list_elem_of_In in Hsyns, Hs.
      unfold label_synonyms in Hsyns.
      apply list_elem_of_fmap in Hsyns as (label & -> & Hlabel).
      apply list_elem_of_lookup in Hlabel as [idx Hidx].
      destruct (label2id_covers cfg idx s) as (j & Hj & _); [by exists label|].
      by exists j.
  - unfold id2label, label_synonyms, num_labels. by rewrite !length_map.
Qed.

(** X3: when no string belongs to two labels, decoding an index with
    [id2label] and encoding the name with [label2id] gives the index
    back, and every string that [label2id] encodes, a synonym included,
    decodes to a name that encodes to the same index. *)
Theorem label_round_trip cfg :
  labels_disjoint cfg →
  (∀ idx name, id2label cfg !! idx = Some name → label2id cfg !! name = Some idx) ∧
  (∀ s idx, label2id cfg !! s = Some idx →
     ∃ name, id2label cfg !! idx = Some name ∧ label2id cfg !! name = Some idx).
Proof.
  intros Hdisj.
  assert (Hname : ∀ idx name, id2label cfg !! idx = Some name →
            label2id cfg !! name = Some idx).
  { intros idx name Hid. unfold id2label in Hid. rewrite list_lookup_fmap in Hid.
    destruct (labels (task cfg) !! idx) as [label|] eqn:Hl; [|done].
    injection Hid as <-.
    assert (Hown : owns cfg idx (label_name label)).
    { exists label. split; [done|]. unfold label_strings. by left. }
    destruct (label2id_covers cfg idx _ Hown) as (j & Hj & Hownj).
    by rewrite (Hdisj j idx _ Hownj Hown) in Hj. }
  split; [exact Hname|].
  intros s idx Hs. apply label2id_lookup_owner in Hs as (label & Hl & _).
  exists (label_name label).
  assert (Hid : id2label cfg !! idx = Some (label_name label))
    by (unfold id2label; by rewrite list_lookup_fmap, Hl).
  split; [done|]. by apply Hname.
Qed.

Lemma label_round_trip_witness :
  (∀ idx name, id2label fixture_config !! idx = Some name →
     label2id fixture_config !! name = Some idx) ∧
  (∀ s idx, label2id fixture_config !! s = Some idx →
     ∃ name, id2label fixture_config !! idx = Some name ∧
             label2id fixture_config !! name = Some idx).
Proof.
  apply (label_round_trip fixture_config).
  apply labels_disjointb_correct. vm_compute. reflexivity.
Defined.

End LabelFacts.

(** ** More about task.py: what a run does and what it never does *)

Module RunFacts.
Import Config Py Task TaskFacts Watch.

(** *** Events of any kind *)

Section AnyEvent.
Context {F : Type} {AF : Arith F} {E : Env F}.
Context (tc : TaskConfig) (ec : EvaluationConfig).
Implicit Types (w : World) (evs : list Event).

Variable P : Event → Prop.
Hypothesis P_seed : ∀ source seed, P (EvSeed source seed).
Hypothesis P_load : ∀ mc, P (EvLoadModel mc).
Hypothesis P_start : track_carbon_emissions ec = true → P EvTrackerStart.
Hypothesis P_stop : track_carbon_emissions ec = true → P EvTrackerStop.
Hypothesis P_collate : P EvCollate.
Hypothesis P_predict : P EvPredict.
Hypothesis P_prepare : P EvPreparePredictions.
Hypothesis P_check : ∀ answer, P (EvCheckTrained answer).
Hypothesis P_metric : ∀ metric given, P (EvMetricCompute metric given).
Hypothesis P_del_model : P EvDelModel.
Hypothesis P_del_model_dict : P EvDelModelDict.
Hypothesis P_clear : P EvClearMemory.
Hypothesis P_iteration : ∀ idx, P (EvIteration idx).
Hypothesis P_log : ∀ names scores, P (EvLogScores names scores).
Hypothesis P_resample : ∀ indices, P (EvResample indices).
Hypothesis P_preprocess : ∀ fw, P (EvPreprocess fw).
Hypothesis P_collator : P EvLoadDataCollator.
Hypothesis P_model_config : ∀ id, P (EvGetModelConfig id).
Hypothesis P_reproducibility : ∀ fw, P (EvEnforceReproducibility fw).
Hypothesis P_tracker : track_carbon_emissions ec = true → P EvGetCarbonTracker.
Hypothesis P_dataset : P EvLoadDataset.

Lemma any_seed_all sources idx : emits_only P (seed_all sources idx).
Proof.
  unfold seed_all. apply emits_for_each. intros source. by apply emits_call.
Qed.

Lemma any_start_tracking : emits_only P (start_tracking ec).
Proof.
  clear - P_start.
  unfold start_tracking. destruct (track_carbon_emissions ec) eqn:Htrack.
  - apply emits_call. by apply P_start.
  - apply emits_ret.
Qed.

Lemma any_predict_batches model data_collator dataloader all_predictions last_predictions :
  emits_only P
    (predict_batches model data_collator dataloader all_predictions last_predictions).
Proof.
  revert all_predictions last_predictions.
  induction dataloader as [|records rest IH]; intros; simpl; [apply emits_ret|].
  apply emits_bind; [by apply emits_call|]. intros batch.
  apply emits_bind; [by apply emits_call|]. intros predictions. apply IH.
Qed.

Lemma any_first_iteration_check idx mc model_predictions :
  emits_only P (first_iteration_check tc idx mc model_predictions).
Proof.
  unfold first_iteration_check. destruct (idx =? 0)%nat; [|apply emits_ret].
  apply emits_bind.
  { destruct model_predictions; [apply emits_ret|apply emits_raise]. }
  intros predictions. apply emits_bind; [by apply emits_call_observed|].
  intros [|]; [apply emits_ret|apply emits_raise].
Qed.

Lemma any_compute_metrics_loop zipped results :
  emits_only P (compute_metrics_loop tc zipped results).
Proof.
  revert results.
  induction zipped as [|[metric_cfg [predictions labels]] rest IH]; intros; simpl;
    [apply emits_ret|].
  apply emits_bind.
  { destruct (_metrics tc !! metric_name metric_cfg); [apply emits_ret|apply emits_raise]. }
  intros metric. apply emits_bind; [by apply emits_call|]. intros score_dict.
  apply emits_bind; [|intros results'; apply IH].
  destruct score_dict as [d|]; [|apply emits_ret].
  destruct (d !! results_key metric_cfg); [apply emits_ret|apply emits_raise].
Qed.

Lemma any_compute_metrics pairs : emits_only P (_compute_metrics tc pairs).
Proof. apply any_compute_metrics_loop. Qed.

Lemma any_store_emissions prepared_dataset scores :
  emits_only P (store_emissions ec prepared_dataset scores).
Proof.
  clear - P_stop.
  unfold store_emissions. destruct (track_carbon_emissions ec) eqn:Htrack; [|apply emits_ret].
  apply emits_bind; [apply emits_call; by apply P_stop|]. intros emissions_data.
  apply emits_bind; [|intros factor; apply emits_ret].
  destruct (ds_len prepared_dataset =? 0)%nat; [apply emits_raise|apply emits_ret].
Qed.

(** What follows the loading of the model in the [try] block of the
    PyTorch runner. *)
Lemma any_pytorch_jax_inference idx mc ds pds collator
    (model_dict : Model * Tokenizer) :
  emits_only P
    (assign_model_dict model_dict ;;
     assign_model model_dict.1 ;;
     start_tracking ec ;;
     '(all_predictions, model_predictions) ←
       predict_batches model_dict.1 collator
         (batches_of (ds_len pds) (if testing ec then 2 else 32) (rows pds)) [] None;
     prepared_predictions_and_labels ←
       call EvPreparePredictions
            (_prepare_predictions_and_labels all_predictions ds pds
                                             (Some (model_dict.1, model_dict.2)));
     first_iteration_check tc idx mc model_predictions ;;
     scores ← _compute_metrics tc (copy_single_pair tc prepared_predictions_and_labels);
     scores ← store_emissions ec pds scores;
     mret (IterScores scores)).
Proof.
  apply emits_bind; [apply emits_assign_model_dict|]. intros _.
  apply emits_bind; [apply emits_assign_model|]. intros _.
  apply emits_bind; [apply any_start_tracking|]. intros _.
  apply emits_bind; [apply any_predict_batches|]. intros [all_predictions last_predictions].
  apply emits_bind; [by apply emits_call|]. intros pairs.
  apply emits_bind; [apply any_first_iteration_check|]. intros _.
  apply emits_bind; [apply any_compute_metrics|]. intros scores.
  apply emits_bind; [apply any_store_emissions|]. intros scores'.
  apply emits_ret.
Qed.

Lemma any_spacy_inference idx mc ds pds (model_dict : Model * Tokenizer) :
  emits_only P
    (assign_model_dict model_dict ;;
     assign_model model_dict.1 ;;
     start_tracking ec ;;
     model_predictions ←
       call EvPredict (_get_spacy_predictions model_dict.1 pds
                                              (if testing ec then 2 else 32));
     first_iteration_check tc idx mc (Some model_predictions) ;;
     prepared_predictions_and_labels ←
       call EvPreparePredictions
            (_prepare_predictions_and_labels model_predictions ds pds None);
     scores ← _compute_metrics tc (copy_single_pair tc prepared_predictions_and_labels);
     scores ← store_emissions ec pds scores;
     mret (IterScores scores)).
Proof.
  apply emits_bind; [apply emits_assign_model_dict|]. intros _.
  apply emits_bind; [apply emits_assign_model|]. intros _.
  apply emits_bind; [apply any_start_tracking|]. intros _.
  apply emits_bind; [by apply emits_call|]. intros model_predictions.
  apply emits_bind; [apply any_first_iteration_check|]. intros _.
  apply emits_bind; [by apply emits_call|]. intros pairs.
  apply emits_bind; [apply any_compute_metrics|]. intros scores.
  apply emits_bind; [apply any_store_emissions|]. intros scores'.
  apply emits_ret.
Qed.

Lemma any_pytorch_jax_body idx mc ds pds collator :
  emits_only P (pytorch_jax_iteration_body tc ec idx mc ds pds collator).
Proof.
  unfold pytorch_jax_iteration_body.
  apply emits_bind; [apply any_seed_all|]. intros _.
  apply emits_bind; [by apply emits_call|]. intros model_dict.
  apply any_pytorch_jax_inference.
Qed.

Lemma any_spacy_body idx mc ds pds :
  emits_only P (spacy_iteration_body tc ec idx mc ds pds).
Proof.
  unfold spacy_iteration_body.
  apply emits_bind; [apply any_seed_all|]. intros _.
  apply emits_bind; [by apply emits_call|]. intros model_dict.
  apply any_spacy_inference.
Qed.

Lemma any_iteration_handler e h :
  iteration_handler e = Some h → emits_only P h.
Proof.
  destruct e as [cls text| | | | | | | |]; simpl; try discriminate.
  destruct (is_transient cls); [|discriminate]. intros [= <-].
  destruct (str_contains _ text); [apply emits_raise|].
  apply emits_bind.
  { apply emits_try_except; [by apply emits_del_model|apply emits_pass_unbound]. }
  intros _. apply emits_bind.
  { apply emits_try_except; [by apply emits_del_model_dict|apply emits_pass_unbound]. }
  intros _. apply emits_bind; [by apply emits_call_clear_memory|].
  intros _. apply emits_ret.
Qed.

Lemma any_guarded_iteration idx (body : M IterResult) :
  emits_only P body →
  emits_only P (emit (EvIteration idx) ;; new_frame ;; try_except body iteration_handler).
Proof.
  intros Hbody. apply emits_bind; [by apply emits_emit|]. intros _.
  apply emits_bind; [apply emits_new_frame|]. intros _.
  apply emits_try_except; [done|]. apply any_iteration_handler.
Qed.

Lemma any_pytorch_jax_runner mc bds pds collator idx :
  emits_only P (pytorch_jax_runner tc ec mc bds pds collator idx).
Proof.
  unfold pytorch_jax_runner.
  apply emits_bind; [apply emits_lift|]. intros bd.
  apply emits_bind; [apply emits_lift|]. intros pd.
  apply any_guarded_iteration, any_pytorch_jax_body.
Qed.

Lemma any_spacy_runner mc bds pds idx :
  emits_only P (spacy_runner tc ec mc bds pds idx).
Proof.
  unfold spacy_runner.
  apply emits_bind; [apply emits_lift|]. intros bd.
  apply emits_bind; [apply emits_lift|]. intros pd.
  apply any_guarded_iteration, any_spacy_body.
Qed.

Lemma any_evaluate_loop fuel run mc n :
  (∀ idx, emits_only P (run idx)) →
  emits_only P (evaluate_loop tc ec fuel run mc n).
Proof.
  intros Hrun. unfold evaluate_loop. apply emits_bind.
  - apply emits_collect_scores. intros idx _. apply Hrun.
  - intros scores. unfold call_log_scores. by apply emits_call.
Qed.

Lemma any_pytorch_jax_setup md ds rng n :
  emits_only P (pytorch_jax_setup ec md ds rng n).
Proof.
  unfold pytorch_jax_setup.
  apply emits_bind; [apply emits_truncate_if_testing|]. intros ds'.
  apply emits_bind; [by apply emits_bootstrap|]. intros bds.
  apply emits_bind.
  { apply emits_try_except; [|apply emits_preprocessing_handler].
    apply emits_list_comprehension. intros bd. by apply emits_call. }
  intros pds. apply emits_bind; [by apply emits_call|]. intros collator. apply emits_ret.
Qed.

Lemma any_spacy_setup md ds rng n :
  emits_only P (spacy_setup ec md ds rng n).
Proof.
  unfold spacy_setup.
  apply emits_bind; [apply emits_truncate_if_testing|]. intros ds'.
  apply emits_bind; [by apply emits_bootstrap|]. intros bds.
  apply emits_bind.
  { apply emits_try_except; [|apply emits_preprocessing_handler].
    apply emits_list_comprehension. intros bd. by apply emits_call. }
  intros pds. apply emits_ret.
Qed.

Lemma any_acquire id : emits_only P (acquire tc ec id).
Proof.
  unfold acquire, _load_data.
  apply emits_bind; [by apply emits_call|]. intros mc.
  apply emits_bind; [by apply emits_call|]. intros rng.
  apply emits_bind; [by apply emits_call|]. intros md.
  apply emits_bind.
  { clear - P_tracker.
    destruct (track_carbon_emissions ec) eqn:Htrack; [|apply emits_ret].
    apply emits_call. by apply P_tracker. }
  intros _. apply emits_bind; [by apply emits_call|]. intros ds. apply emits_ret.
Qed.

Lemma any_dispatch fuel mc md ds rng n :
  emits_only P (dispatch tc ec fuel mc md ds rng n).
Proof.
  unfold dispatch. destruct (_ || _).
  - unfold _evaluate_pytorch_jax.
    apply emits_bind; [apply any_pytorch_jax_setup|]. intros [[bds pds] collator].
    apply any_evaluate_loop. intros idx. apply any_pytorch_jax_runner.
  - destruct (String.eqb _ "spacy"); [|apply emits_raise].
    unfold _evaluate_spacy.
    apply emits_bind; [apply any_spacy_setup|]. intros [bds pds].
    apply any_evaluate_loop. intros idx. apply any_spacy_runner.
Qed.

Lemma any_evaluate fuel id : emits_only P (evaluate tc ec fuel id).
Proof.
  unfold evaluate.
  apply emits_bind; [apply any_acquire|]. intros [[[mc rng] md] ds].
  apply emits_bind; [apply emits_lift|]. intros ds'.
  apply any_dispatch.
Qed.

End AnyEvent.

(** Inversion of a bind whose run returned. *)
Ltac bind_ok H w1 evs1 a evs2 H1 :=
  apply bind_inv in H
      as [(w1 & evs1 & a & evs2 & H1 & H & ->)|[(? & _ & [=])|(_ & [=])]].

Section Steps.
Context {F : Type} {AF : Arith F} {E : Env F}.
Context (tc : TaskConfig) (ec : EvaluationConfig).
Implicit Types (w : World) (evs : list Event).

(** *** The steps of a single-iteration call, one by one *)

Lemma call_run {A} ev (f : Ext A) w w' evs o :
  call ev f w = (w', evs, o) →
  evs = [ev] ∧ o = (f (ext w)).2 ∧ frame w' = frame w.
Proof.
  unfold call, call_observed. destruct (f (ext w)) as [x' o']. by intros [= <- <- <-].
Qed.

Lemma seed_all_run sources idx w w' evs o :
  seed_all sources idx w = (w', evs, o) →
  ∃ k, evs = seeds_for (take k sources) idx ∧
       (o = Ok () → evs = seeds_for sources idx).
Proof.
  unfold seed_all. revert w evs.
  induction sources as [|source sources IH]; intros w evs Hrun.
  - injection Hrun as <- <- <-. by exists 0.
  - cbn [for_each] in Hrun.
    apply bind_inv in Hrun as [(w1 & evs1 & [] & evs2 & Hc & Hrun & ->)|[(e & Hc & ->)|[Hc ->]]].
    + apply call_run in Hc as (-> & _ & _).
      destruct (IH _ _ Hrun) as (k & -> & Hok). exists (S k). split; [done|].
      intros Ho. cbn. f_equal. by apply Hok.
    + apply call_run in Hc as (-> & _ & _). exists 1. split; [|done].
      cbn. by rewrite take_0.
    + apply call_run in Hc as (-> & _ & _). exists 1. split; [|done].
      cbn. by rewrite take_0.
Qed.

Lemma start_tracking_ok w w' evs :
  start_tracking ec w = (w', evs, Ok ()) →
  evs = if track_carbon_emissions ec then [EvTrackerStart] else [].
Proof.
  unfold start_tracking. destruct (track_carbon_emissions ec).
  - intros Hc. by apply call_run in Hc as (-> & _ & _).
  - by intros [= _ <-].
Qed.

(** The loop over the batches: a forward pass for each batch, in order;
    [all_predictions] collects the predictions of all batches and
    [model_predictions] is left holding those of the last batch. *)
Lemma predict_batches_ok model collator dataloader all_predictions last_predictions
    w w' evs all_predictions' last_predictions' :
  predict_batches model collator dataloader all_predictions last_predictions w
  = (w', evs, Ok (all_predictions', last_predictions')) →
  ∃ per_batch : list (list Pred),
    length per_batch = length dataloader ∧
    all_predictions' = all_predictions ++ concat per_batch ∧
    last_predictions' = match last per_batch with
                        | Some predictions => Some predictions
                        | None => last_predictions
                        end ∧
    evs = concat (replicate (length dataloader) [EvCollate; EvPredict]).
Proof.
  revert all_predictions last_predictions w evs.
  induction dataloader as [|records rest IH]; intros all_predictions last_predictions w evs Hrun.
  - injection Hrun as <- <- <- <-. exists []. by rewrite app_nil_r.
  - cbn [predict_batches] in Hrun.
    bind_ok Hrun w1 evs1 batch evs2 Hc. apply call_run in Hc as (-> & _ & _).
    bind_ok Hrun w2 evs3 predictions evs4 Hp. apply call_run in Hp as (-> & _ & _).
    apply IH in Hrun as (per_batch & Hlen & -> & -> & ->).
    exists (predictions :: per_batch). split; [by cbn; rewrite Hlen|].
    split; [by cbn; rewrite <- app_assoc|]. split; [|done].
    destruct per_batch as [|p ps]; [done|]. rewrite last_cons_cons.
    destruct (last (p :: ps)) eqn:Hlast; [done|]. by apply last_None in Hlast.
Qed.

Lemma first_iteration_check_ok idx mc model_predictions w w' evs :
  first_iteration_check tc idx mc model_predictions w = (w', evs, Ok ()) →
  evs = (if (idx =? 0)%nat then [EvCheckTrained (Ok true)] else []) ∧
  (idx = 0 → is_Some model_predictions).
Proof.
  unfold first_iteration_check. destruct (idx =? 0)%nat eqn:Hidx.
  - intros Hrun. bind_ok Hrun w1 evs1 predictions evs2 Hp.
    destruct model_predictions as [given|]; [|discriminate Hp].
    injection Hp as <- <- <-.
    bind_ok Hrun w2 evs3 trained evs4 Hc.
    unfold call_observed in Hc.
    destruct (_check_if_model_is_trained_for_task given (ext w)) as [x' o'].
    injection Hc as <- <- ->.
    destruct trained; [|discriminate Hrun]. injection Hrun as _ <-.
    split; [done|]. by eexists.
  - intros [= _ <-]. split; [done|]. intros ->. discriminate Hidx.
Qed.

Lemma store_emissions_ok pds scores w w' evs scores' :
  store_emissions ec pds scores w = (w', evs, Ok scores') →
  evs = (if track_carbon_emissions ec then [EvTrackerStop] else []) ∧
  if track_carbon_emissions ec then
    ds_len pds ≠ 0 ∧
    ∃ data : EmissionsData F,
      let factor := fdiv (fof_Z 1000000) (fof_Z (Z.of_nat (ds_len pds))) in
      scores' = <["energy_consumed" := fmul factor (energy_consumed data)]>
                  (<["carbon_emissions" := fmul factor (emissions data)]> scores)
  else scores' = scores.
Proof.
  unfold store_emissions. destruct (track_carbon_emissions ec).
  - intros Hrun. bind_ok Hrun w1 evs1 data evs2 Hc.
    apply call_run in Hc as (-> & _ & _).
    bind_ok Hrun w2 evs3 factor evs4 Hf.
    destruct (ds_len pds =? 0)%nat eqn:Hlen; [discriminate Hf|].
    injection Hf as <- <- <-. injection Hrun as _ <- <-.
    split; [done|]. split; [by apply Nat.eqb_neq|]. by exists data.
  - by intros [= _ <- <-].
Qed.

(** *** The guarded [try] block *)

(** A run of a guarded [try] block: the block runs in a fresh frame; its
    exception is handled or not. *)
Lemma guarded_run idx (body : M IterResult) w w' evs o :
  (emit (EvIteration idx) ;; new_frame ;; try_except body iteration_handler) w
  = (w', evs, o) →
  ∃ w1 evs1 o1 evs2,
    body {| ext := ext w; frame := empty_frame |} = (w1, evs1, o1) ∧
    evs = EvIteration idx :: evs1 ++ evs2 ∧
    ((evs2 = [] ∧ o = o1 ∧ w' = w1 ∧
      match o1 with Raise e => iteration_handler e = None | _ => True end)
     ∨ (∃ cls text,
          o1 = Raise (Builtin cls text) ∧ is_transient cls = true ∧
          ((str_contains "PYTORCH_ENABLE_MPS_FALLBACK" text = true ∧
            evs2 = [] ∧ o = Raise MPSFallbackNotEnabled ∧ w' = w1)
           ∨ (str_contains "PYTORCH_ENABLE_MPS_FALLBACK" text = false ∧
              (∃ dels, evs2 = dels ++ [EvClearMemory] ∧ Forall is_cleanup dels) ∧
              w' = {| ext := (clear_memory (ext w1)).1; frame := empty_frame |} ∧
              o = match (clear_memory (ext w1)).2 with
                  | Ok _ => Ok (IterErr cls text)
                  | Raise e' => Raise e'
                  | OutOfFuel => OutOfFuel
                  end)))).
Proof.
  intros Hrun.
  apply bind_inv in Hrun as [(wa & evsa & [] & evsb & Ha & Hrun & ->)|[H|H]];
    [|by destruct H as (? & [=] & _)|by destruct H as ([=] & _)].
  injection Ha as <- <-.
  apply bind_inv in Hrun as [(wb & evsc & [] & evsd & Hb & Hrun & ->)|[H|H]];
    [|by destruct H as (? & [=] & _)|by destruct H as ([=] & _)].
  injection Hb as <- <-.
  apply try_except_inv in Hrun
      as [(w1 & evs1 & e & h & evs2 & Hbody & Hh & Hrun & ->)|[Hbody Ho]].
  - exists w1, evs1, (Raise e), evs2. split; [done|]. split; [done|]. right.
    assert (Hcleanup : Forall is_cleanup evs2).
    { eapply emits_run; [|exact Hrun].
      eapply (any_iteration_handler is_cleanup); [exact I..|exact Hh]. }
    destruct (iteration_handler_run _ _ _ _ _ _ Hh Hrun)
      as (cls & text & -> & Hcls
          & [(Hmps & -> & -> & ->)|(Hmps & -> & (dels & -> & _) & ->)]).
    + exists cls, text. split; [done|]. split; [done|]. by left.
    + exists cls, text. split; [done|]. split; [done|]. right.
      split; [done|]. split; [|done]. exists dels. split; [done|].
      by apply Forall_app in Hcleanup as [? _].
  - exists w', evsd, o, []. split; [done|]. split; [by cbn; rewrite app_nil_r|]. by left.
Qed.

(** A bind emits what its first part emits and, after a run of the first
    part that returned, what its second part emits. *)
Lemma emits_bind_run {A B} P (m : M A) (k : A → M B) :
  emits_only P m →
  (∀ w w1 evs1 a, m w = (w1, evs1, Ok a) → emits_only P (k a)) →
  emits_only P (m ≫= k).
Proof.
  intros Hm Hk w. unfold mbind, M_bind.
  specialize (Hm w). destruct (m w) as [[w1 evs1] [a|e|]] eqn:Hrun; simpl in *; [|done..].
  specialize (Hk w w1 evs1 a Hrun w1). destruct (k a w1) as [[w2 evs2] o2]; simpl in *.
  by apply Forall_app.
Qed.

Lemma dom_compute_metrics_loop zipped results w w' evs scores :
  compute_metrics_loop tc zipped results w = (w', evs, Ok scores) →
  dom scores ⊆ dom results ∪ list_to_set (map (λ given, metric_name given.1) zipped).
Proof.
  revert results w evs.
  induction zipped as [|[metric_cfg [predictions labels]] rest IH]; intros results w evs.
  - intros [= _ _ <-]. apply union_subseteq_l.
  - cbn [compute_metrics_loop]. intros Hrun.
    bind_ok Hrun w1 evs1 metric evs2 Hm.
    bind_ok Hrun w2 evs3 score_dict evs4 Hc.
    bind_ok Hrun w3 evs5 results' evs6 Hr.
    apply IH in Hrun. cbn [map fst list_to_set].
    assert (Hdom : dom results' ⊆ dom results ∪ {[metric_name metric_cfg]}).
    { destruct score_dict as [d|]; [|injection Hr as _ _ <-; apply union_subseteq_l].
      destruct (d !! results_key metric_cfg); [|discriminate Hr].
      injection Hr as _ _ <-. rewrite dom_insert.
      intros key. rewrite !elem_of_union. tauto. }
    intros key Hkey. apply Hrun in Hkey. rewrite !elem_of_union in *.
    destruct Hkey as [Hkey|Hkey]; [|tauto].
    apply Hdom in Hkey. rewrite elem_of_union in Hkey. tauto.
Qed.

Lemma zipped_metric_names (metric_configs : list MetricConfig)
    (pairs : list (list Lab * list Lab)) :
  map (λ given : MetricConfig * (list Lab * list Lab), metric_name given.1)
      (zip metric_configs pairs)
  = map metric_name (take (length pairs) metric_configs).
Proof.
  revert metric_configs. induction pairs as [|p pairs IH]; intros [|m ms]; try done.
  cbn [length take zip zip_with map fst]. f_equal. apply IH.
Qed.

Lemma dom_compute_metrics pairs w w' evs scores :
  _compute_metrics tc pairs w = (w', evs, Ok scores) →
  dom scores ⊆ list_to_set (map metric_name (take (length pairs) (tc_metrics tc))).
Proof.
  unfold _compute_metrics. intros Hrun. apply dom_compute_metrics_loop in Hrun.
  rewrite dom_empty, (left_id ∅ (∪)) in Hrun.
  by rewrite zipped_metric_names in Hrun.
Qed.

(** *** The [try] blocks *)

Lemma inference_after_load_pytorch_jax idx mc ds pds collator (model_dict : Model * Tokenizer)
    w w' evs o :
  (assign_model_dict model_dict ;;
   assign_model model_dict.1 ;;
   start_tracking ec ;;
   '(all_predictions, model_predictions) ←
     predict_batches model_dict.1 collator
       (batches_of (ds_len pds) (if testing ec then 2 else 32) (rows pds)) [] None;
   prepared_predictions_and_labels ←
     call EvPreparePredictions
          (_prepare_predictions_and_labels all_predictions ds pds
                                           (Some (model_dict.1, model_dict.2)));
   first_iteration_check tc idx mc model_predictions ;;
   scores ← _compute_metrics tc (copy_single_pair tc prepared_predictions_and_labels);
   scores ← store_emissions ec pds scores;
   mret (IterScores scores)) w = (w', evs, o) →
  Forall inference_event evs.
Proof.
  intros Hrun. eapply emits_run; [|exact Hrun].
  apply (any_pytorch_jax_inference tc ec inference_event); first [exact I|intros; exact I].
Qed.

Lemma inference_after_load_spacy idx mc ds pds (model_dict : Model * Tokenizer) w w' evs o :
  (assign_model_dict model_dict ;;
   assign_model model_dict.1 ;;
   start_tracking ec ;;
   model_predictions ←
     call EvPredict (_get_spacy_predictions model_dict.1 pds (if testing ec then 2 else 32));
   first_iteration_check tc idx mc (Some model_predictions) ;;
   prepared_predictions_and_labels ←
     call EvPreparePredictions
          (_prepare_predictions_and_labels model_predictions ds pds None);
   scores ← _compute_metrics tc (copy_single_pair tc prepared_predictions_and_labels);
   scores ← store_emissions ec pds scores;
   mret (IterScores scores)) w = (w', evs, o) →
  Forall inference_event evs.
Proof.
  intros Hrun. eapply emits_run; [|exact Hrun].
  apply (any_spacy_inference tc ec inference_event); first [exact I|intros; exact I].
Qed.

(** Every run of a [try] block seeds the sources in order; the model is
    loaded once all are seeded, and the rest follows. *)
Lemma pytorch_jax_body_prelude idx mc ds pds collator w w' evs o :
  pytorch_jax_iteration_body tc ec idx mc ds pds collator w = (w', evs, o) →
  (∃ k, evs = seeds_for (take k pytorch_jax_sources) idx ∧ ∀ r, o ≠ Ok r)
  ∨ (∃ rest, evs = seeds_for pytorch_jax_sources idx ++ EvLoadModel mc :: rest ∧
             Forall inference_event rest).
Proof.
  unfold pytorch_jax_iteration_body. intros Hrun.
  apply bind_inv in Hrun
      as [(w1 & evs1 & [] & evs2 & Hs & Hrun & ->)|[(e & Hs & ->)|[Hs ->]]].
  - apply seed_all_run in Hs as (_ & _ & Hall). rewrite (Hall eq_refl). right.
    apply bind_inv in Hrun
        as [(w2 & evs3 & md & evs4 & Hl & Hrun & ->)|[(e & Hl & ->)|[Hl ->]]].
    + apply call_run in Hl as (-> & _ & _). exists evs4. split; [done|].
      by eapply inference_after_load_pytorch_jax.
    + apply call_run in Hl as (-> & _ & _). by exists [].
    + apply call_run in Hl as (-> & _ & _). by exists [].
  - apply seed_all_run in Hs as (k & -> & _). left. by exists k.
  - apply seed_all_run in Hs as (k & -> & _). left. by exists k.
Qed.

Lemma spacy_body_prelude idx mc ds pds w w' evs o :
  spacy_iteration_body tc ec idx mc ds pds w = (w', evs, o) →
  (∃ k, evs = seeds_for (take k spacy_sources) idx ∧ ∀ r, o ≠ Ok r)
  ∨ (∃ rest, evs = seeds_for spacy_sources idx ++ EvLoadModel mc :: rest ∧
             Forall inference_event rest).
Proof.
  unfold spacy_iteration_body. intros Hrun.
  apply bind_inv in Hrun
      as [(w1 & evs1 & [] & evs2 & Hs & Hrun & ->)|[(e & Hs & ->)|[Hs ->]]].
  - apply seed_all_run in Hs as (_ & _ & Hall). rewrite (Hall eq_refl). right.
    apply bind_inv in Hrun
        as [(w2 & evs3 & md & evs4 & Hl & Hrun & ->)|[(e & Hl & ->)|[Hl ->]]].
    + apply call_run in Hl as (-> & _ & _). exists evs4. split; [done|].
      by eapply inference_after_load_spacy.
    + apply call_run in Hl as (-> & _ & _). by exists [].
    + apply call_run in Hl as (-> & _ & _). by exists [].
  - apply seed_all_run in Hs as (k & -> & _). left. by exists k.
  - apply seed_all_run in Hs as (k & -> & _). left. by exists k.
Qed.

(** A run of a [try] block that returns: its steps, in order. *)
Lemma pytorch_jax_body_ok idx mc ds pds collator w w' evs r :
  pytorch_jax_iteration_body tc ec idx mc ds pds collator w = (w', evs, Ok r) →
  ∃ (pairs : list (list Lab * list Lab)) (metric_scores scores : gmap string F)
    w1 w2 evs_metrics w3 evs_store,
    r = IterScores scores ∧
    _compute_metrics tc (copy_single_pair tc pairs) w1 = (w2, evs_metrics, Ok metric_scores) ∧
    store_emissions ec pds metric_scores w2 = (w3, evs_store, Ok scores) ∧
    (idx = 0 → rows pds ≠ []) ∧
    evs = seeds_for pytorch_jax_sources idx
          ++ [EvLoadModel mc]
          ++ (if track_carbon_emissions ec then [EvTrackerStart] else [])
          ++ concat (replicate (length (batches_of (ds_len pds) (batch_size_of ec) (rows pds)))
                               [EvCollate; EvPredict])
          ++ [EvPreparePredictions]
          ++ (if (idx =? 0)%nat then [EvCheckTrained (Ok true)] else [])
          ++ map metric_call (zip (tc_metrics tc) (copy_single_pair tc pairs))
          ++ (if track_carbon_emissions ec then [EvTrackerStop] else []).
Proof.
  unfold pytorch_jax_iteration_body. intros Hrun.
  bind_ok Hrun wa evsa u evsb Hseed. destruct u.
  apply seed_all_run in Hseed as (_ & _ & Hall). rewrite (Hall eq_refl). clear Hall.
  bind_ok Hrun wb evsc md evsd Hload. apply call_run in Hload as (-> & _ & _).
  bind_ok Hrun wc evse u evsf Hmd. destruct u. injection Hmd as _ <-.
  bind_ok Hrun wd evsg u evsh Hm. destruct u. injection Hm as _ <-.
  bind_ok Hrun we evsi u evsj Hstart. destruct u. apply start_tracking_ok in Hstart as ->.
  bind_ok Hrun wf evsk given evsl Hpredict. destruct given as [all_predictions last_predictions].
  apply predict_batches_ok in Hpredict as (per_batch & Hlen & _ & Hlast & ->).
  bind_ok Hrun wg evsm pairs evsn Hprepare. apply call_run in Hprepare as (-> & _ & _).
  bind_ok Hrun wh evso u evsp Hcheck. destruct u.
  apply first_iteration_check_ok in Hcheck as (-> & Hbound).
  bind_ok Hrun wi evsq metric_scores evsr Hmetrics.
  bind_ok Hrun wj evss scores evst Hstore.
  injection Hrun as _ <- <-.
  exists pairs, metric_scores, scores, wh, wi, evsq, wj, evss.
  split; [done|]. split; [done|]. split; [done|]. split.
  - intros -> Hrows. destruct (Hbound eq_refl) as [p Hp]. rewrite Hlast in Hp.
    unfold ds_len in Hlen. rewrite Hrows in Hlen. cbn in Hlen.
    destruct per_batch; [discriminate Hp|discriminate Hlen].
  - pose proof Hmetrics as Hevs. apply compute_metrics_loop_events in Hevs as ->.
    apply store_emissions_ok in Hstore as (-> & _).
    unfold batch_size_of, metric_call. cbn [app]. by rewrite ?app_nil_r, <- ?app_assoc.
Qed.

Lemma spacy_body_ok idx mc ds pds w w' evs r :
  spacy_iteration_body tc ec idx mc ds pds w = (w', evs, Ok r) →
  ∃ (pairs : list (list Lab * list Lab)) (metric_scores scores : gmap string F)
    w1 w2 evs_metrics w3 evs_store,
    r = IterScores scores ∧
    _compute_metrics tc (copy_single_pair tc pairs) w1 = (w2, evs_metrics, Ok metric_scores) ∧
    store_emissions ec pds metric_scores w2 = (w3, evs_store, Ok scores) ∧
    evs = seeds_for spacy_sources idx
          ++ [EvLoadModel mc]
          ++ (if track_carbon_emissions ec then [EvTrackerStart] else [])
          ++ [EvPredict]
          ++ (if (idx =? 0)%nat then [EvCheckTrained (Ok true)] else [])
          ++ [EvPreparePredictions]
          ++ map metric_call (zip (tc_metrics tc) (copy_single_pair tc pairs))
          ++ (if track_carbon_emissions ec then [EvTrackerStop] else []).
Proof.
  unfold spacy_iteration_body. intros Hrun.
  bind_ok Hrun wa evsa u evsb Hseed. destruct u.
  apply seed_all_run in Hseed as (_ & _ & Hall). rewrite (Hall eq_refl). clear Hall.
  bind_ok Hrun wb evsc md evsd Hload. apply call_run in Hload as (-> & _ & _).
  bind_ok Hrun wc evse u evsf Hmd. destruct u. injection Hmd as _ <-.
  bind_ok Hrun wd evsg u evsh Hm. destruct u. injection Hm as _ <-.
  bind_ok Hrun we evsi u evsj Hstart. destruct u. apply start_tracking_ok in Hstart as ->.
  bind_ok Hrun wf evsk model_predictions evsl Hpredict.
  apply call_run in Hpredict as (-> & _ & _).
  bind_ok Hrun wh evso u evsp Hcheck. destruct u.
  apply first_iteration_check_ok in Hcheck as (-> & _).
  bind_ok Hrun wg evsm pairs evsn Hprepare. apply call_run in Hprepare as (-> & _ & _).
  bind_ok Hrun wi evsq metric_scores evsr Hmetrics.
  bind_ok Hrun wj evss scores evst Hstore.
  injection Hrun as _ <- <-.
  exists pairs, metric_scores, scores, wg, wi, evsq, wj, evss.
  split; [done|]. split; [done|]. split; [done|].
  pose proof Hmetrics as Hevs. apply compute_metrics_loop_events in Hevs as ->.
  apply store_emissions_ok in Hstore as (-> & _).
  unfold metric_call. cbn [app]. by rewrite ?app_nil_r, <- ?app_assoc.
Qed.

(** *** The single-iteration calls *)

Lemma try_events_pytorch_jax idx mc ds pds collator :
  emits_only try_event (pytorch_jax_iteration_body tc ec idx mc ds pds collator).
Proof.
  apply (any_pytorch_jax_body tc ec try_event); first [exact I|intros; exact I].
Qed.

Lemma try_events_spacy idx mc ds pds :
  emits_only try_event (spacy_iteration_body tc ec idx mc ds pds).
Proof.
  apply (any_spacy_body tc ec try_event); first [exact I|intros; exact I].
Qed.

Lemma try_event_not_cleanup evs :
  Forall try_event evs → ¬ Exists is_cleanup evs.
Proof.
  intros Htry Hex. apply Exists_exists in Hex as (ev & Hin & Hev).
  rewrite Forall_forall in Htry. specialize (Htry ev Hin). by destruct ev.
Qed.

(** The outcomes of a guarded [try] block whose body returns scores when
    it returns and emits no cleanup. *)
Lemma guarded_cleanup idx (body : M IterResult) w w' evs o :
  returns_scores body → emits_only try_event body →
  (emit (EvIteration idx) ;; new_frame ;; try_except body iteration_handler) w
  = (w', evs, o) →
  (Exists is_cleanup evs ↔ last evs = Some EvClearMemory) ∧
  (∀ scores, o = Ok (IterScores scores) → ¬ Exists is_cleanup evs) ∧
  (∀ cls text, o = Ok (IterErr cls text) → last evs = Some EvClearMemory) ∧
  (∀ cls text, o = Raise (Builtin cls text) → is_transient cls = true →
               last evs = Some EvClearMemory).
Proof.
  intros Hscores Htry Hrun.
  apply guarded_run in Hrun as (w1 & evs1 & o1 & evs2 & Hbody & -> & Hcases).
  assert (Hclean : ¬ Exists is_cleanup evs1).
  { apply try_event_not_cleanup. eapply emits_run; [exact Htry|exact Hbody]. }
  assert (Hlast : ∀ evs0, last evs0 = Some EvClearMemory → Exists is_cleanup evs0).
  { intros evs0 H0. apply Exists_exists. exists EvClearMemory. split; [|exact I].
    destruct evs0 as [|ev evs0] using rev_ind; [discriminate H0|].
    rewrite last_snoc in H0. injection H0 as ->. apply elem_of_app. right. by left. }
  assert (Hnone : ¬ Exists is_cleanup (EvIteration idx :: evs1 ++ [])).
  { rewrite app_nil_r. intros Hex. apply Exists_cons in Hex as [[]|Hex]. by destruct Hclean. }
  destruct Hcases as [(-> & -> & -> & Ho)
                     |(cls & text & -> & Hcls
                       & [(_ & -> & -> & ->)|(_ & (dels & -> & _) & _ & ->)])].
  - split; [split; [by intros Hex; destruct Hnone|by intros H0; destruct Hnone; apply Hlast]|].
    split; [by intros _ _|]. split.
    + intros cls text ->. by destruct (Hscores _ _ _ _ Hbody) as [scores [=]].
    + intros cls text -> Hcls. cbn in Ho. by rewrite Hcls in Ho.
  - split; [split; [by intros Hex; destruct Hnone|by intros H0; destruct Hnone; apply Hlast]|].
    split; [by intros _ _|]. split; [by intros ? ? [=]|by intros ? ? [=]].
  - assert (Hend : last (EvIteration idx :: evs1 ++ dels ++ [EvClearMemory])
                   = Some EvClearMemory).
    { by rewrite (app_assoc evs1), app_comm_cons, last_snoc. }
    split; [by split; [intros _|intros _; apply Hlast]|].
    split; [|by split; intros].
    intros scores. by destruct (clear_memory (ext w1)).2 as [[]|?|].
Qed.


Lemma inference_or_cleanup evs1 evs2 :
  Forall inference_event evs1 → Forall is_cleanup evs2 →
  Forall (λ ev, inference_event ev ∨ is_cleanup ev) (evs1 ++ evs2).
Proof.
  intros H1 H2. apply Forall_app. split.
  - eapply Forall_impl; [exact H1|]. by left.
  - eapply Forall_impl; [exact H2|]. by right.
Qed.

Lemma guarded_prelude idx mc sources (body : M IterResult) w w' evs o :
  (∀ w w' evs o, body w = (w', evs, o) →
     (∃ k, evs = seeds_for (take k sources) idx ∧ ∀ r, o ≠ Ok r)
     ∨ (∃ rest, evs = seeds_for sources idx ++ EvLoadModel mc :: rest ∧
                Forall inference_event rest)) →
  (emit (EvIteration idx) ;; new_frame ;; try_except body iteration_handler) w
  = (w', evs, o) →
  (∃ k rest, evs = EvIteration idx :: seeds_for (take k sources) idx ++ rest ∧
             Forall is_cleanup rest)
  ∨ (∃ rest, evs = EvIteration idx :: seeds_for sources idx ++ EvLoadModel mc :: rest ∧
             Forall (λ ev, inference_event ev ∨ is_cleanup ev) rest).
Proof.
  intros Hbody Hrun.
  apply guarded_run in Hrun as (w1 & evs1 & o1 & evs2 & Hb & -> & Hcases).
  assert (Hevs2 : Forall is_cleanup evs2).
  { destruct Hcases
      as [(-> & _)|(cls & text & _ & _ & [(_ & -> & _)|(_ & (dels & -> & Hd) & _)])];
      [constructor..|].
    apply Forall_app. split; [done|]. by repeat constructor. }
  destruct (Hbody _ _ _ _ Hb) as [(k & -> & _)|(rest & -> & Hrest)].
  - left. by exists k, evs2.
  - right. exists (rest ++ evs2). split; [by rewrite <- app_assoc|].
    by apply inference_or_cleanup.
Qed.


(** A guarded [try] block that returns scores ran its body to the end and
    nothing else. *)
Lemma guarded_ok idx (body : M IterResult) w w' evs scores :
  (emit (EvIteration idx) ;; new_frame ;; try_except body iteration_handler) w
  = (w', evs, Ok (IterScores scores)) →
  ∃ evs1, body {| ext := ext w; frame := empty_frame |} = (w', evs1, Ok (IterScores scores)) ∧
          evs = EvIteration idx :: evs1.
Proof.
  intros Hrun.
  apply guarded_run in Hrun as (w1 & evs1 & o1 & evs2 & Hb & -> & Hcases).
  destruct Hcases as [(-> & <- & -> & _)
                     |(cls & text & _ & _ & [(_ & _ & [=] & _)|(_ & _ & _ & Ho)])].
  - exists evs1. by rewrite app_nil_r.
  - by destruct (clear_memory (ext w1)).2 as [[]|?|].
Qed.

(** X6: the steps of a call of the PyTorch runner that returns scores, in
    order: the seeds, the loading of the model, the start of the tracker
    when tracking, a collation and a forward pass for every batch, the
    post-processing, the trained-for-task check in iteration 0 only, the
    metrics, each on its pair, and the stop of the tracker when
    tracking. *)
Theorem successful_pytorch_jax_iteration_steps idx mc ds pds collator w w' evs scores :
  _evaluate_pytorch_jax_single_iteration tc ec idx mc ds pds collator w
  = (w', evs, Ok (IterScores scores)) →
  ∃ pairs : list (list Lab * list Lab),
    evs = EvIteration idx
          :: seeds_for pytorch_jax_sources idx
          ++ [EvLoadModel mc]
          ++ (if track_carbon_emissions ec then [EvTrackerStart] else [])
          ++ concat (replicate (length (batches_of (ds_len pds) (batch_size_of ec) (rows pds)))
                               [EvCollate; EvPredict])
          ++ [EvPreparePredictions]
          ++ (if (idx =? 0)%nat then [EvCheckTrained (Ok true)] else [])
          ++ map metric_call (zip (tc_metrics tc) (copy_single_pair tc pairs))
          ++ (if track_carbon_emissions ec then [EvTrackerStop] else []).
Proof.
  intros Hrun. apply guarded_ok in Hrun as (evs1 & Hbody & ->).
  apply pytorch_jax_body_ok in Hbody
      as (pairs & ms & s & w1 & w2 & evsm & w3 & evss & _ & _ & _ & _ & ->).
  by exists pairs.
Qed.

(** X7: the steps of a call of the spaCy runner that returns scores, in
    order: the two seeds, the loading of the model, the start of the
    tracker when tracking, the predictions, the trained-for-task check in
    iteration 0 only (here before the post-processing), the
    post-processing, the metrics and the stop of the tracker when
    tracking. *)
Theorem successful_spacy_iteration_steps idx mc ds pds w w' evs scores :
  _evaluate_spacy_single_iteration tc ec idx mc ds pds w
  = (w', evs, Ok (IterScores scores)) →
  ∃ pairs : list (list Lab * list Lab),
    evs = EvIteration idx
          :: seeds_for spacy_sources idx
          ++ [EvLoadModel mc]
          ++ (if track_carbon_emissions ec then [EvTrackerStart] else [])
          ++ [EvPredict]
          ++ (if (idx =? 0)%nat then [EvCheckTrained (Ok true)] else [])
          ++ [EvPreparePredictions]
          ++ map metric_call (zip (tc_metrics tc) (copy_single_pair tc pairs))
          ++ (if track_carbon_emissions ec then [EvTrackerStop] else []).
Proof.
  intros Hrun. apply guarded_ok in Hrun as (evs1 & Hbody & ->).
  apply spacy_body_ok in Hbody
      as (pairs & ms & s & w1 & w2 & evsm & w3 & evss & _ & _ & _ & ->).
  by exists pairs.
Qed.

(** *** Empty datasets *)

Lemma batches_of_nil {A} fuel batch_size : batches_of fuel batch_size (@nil A) = [].
Proof. by destruct fuel. Qed.

Lemma no_predictions_in_handler e h :
  iteration_handler e = Some h → emits_only (λ ev, ¬ uses_predictions ev) h.
Proof.
  apply (any_iteration_handler (λ ev, ¬ uses_predictions ev)); by intros [].
Qed.

(** The [try] block of the PyTorch runner on an empty prepared dataset,
    in iteration 0: no batch, so no forward pass; the check finds
    [model_predictions] unbound. *)
Lemma pytorch_jax_body_without_batches mc ds pds collator :
  rows pds = [] →
  emits_only (λ ev, ¬ uses_predictions ev)
             (pytorch_jax_iteration_body tc ec 0 mc ds pds collator) ∧
  ∀ w w' evs r, pytorch_jax_iteration_body tc ec 0 mc ds pds collator w ≠ (w', evs, Ok r).
Proof.
  intros Hrows. split.
  - unfold pytorch_jax_iteration_body. rewrite Hrows, batches_of_nil.
    apply emits_bind; [apply any_seed_all; by intros ? ? []|]. intros _.
    apply emits_bind; [apply emits_call; by intros []|]. intros md.
    apply emits_bind; [apply emits_assign_model_dict|]. intros _.
    apply emits_bind; [apply emits_assign_model|]. intros _.
    apply emits_bind; [apply any_start_tracking; by intros _ []|]. intros _.
    apply emits_bind_run; [apply emits_ret|].
    intros w w1 evs1 [all_predictions model_predictions] [= _ _ <- <-].
    apply emits_bind; [apply emits_call; by intros []|]. intros pairs.
    apply emits_bind_run.
    + unfold first_iteration_check. cbn [Nat.eqb].
      apply emits_bind_run; [apply emits_raise|]. by intros ? ? ? ? [=].
    + intros w2 w3 evs2 [] Hcheck.
      apply first_iteration_check_ok in Hcheck as (_ & Hbound).
      by destruct (Hbound eq_refl).
  - intros w w' evs r Hrun.
    apply pytorch_jax_body_ok in Hrun as (? & ? & ? & ? & ? & ? & ? & ? & _ & _ & _ & Hne & _).
    by apply Hne.
Qed.

(** X8: in iteration 0, the PyTorch runner cannot evaluate a prepared
    dataset without records: the loop over the batches does not run, the
    variable [model_predictions] stays unbound, and the call never
    returns scores; it makes no forward pass, does not call the
    trained-for-task check and computes no metric. *)
Theorem first_iteration_needs_a_batch mc ds pds collator w w' evs o :
  rows pds = [] →
  _evaluate_pytorch_jax_single_iteration tc ec 0 mc ds pds collator w = (w', evs, o) →
  (∀ scores, o ≠ Ok (IterScores scores)) ∧
  Forall (λ ev, ¬ uses_predictions ev) evs.
Proof.
  intros Hrows Hrun.
  destruct (pytorch_jax_body_without_batches mc ds pds collator Hrows) as [Hemits Hnever].
  split.
  - intros scores ->. apply guarded_ok in Hrun as (evs1 & Hbody & _).
    by apply Hnever in Hbody.
  - eapply emits_run; [|exact Hrun].
    apply emits_bind; [apply emits_emit; by intros []|]. intros _.
    apply emits_bind; [apply emits_new_frame|]. intros _.
    apply emits_try_except; [exact Hemits|]. apply no_predictions_in_handler.
Qed.

(** X9: with carbon tracking on, a single-iteration call on a prepared
    dataset without records never returns scores, on either path: once
    the tracker is stopped, [1_000_000 / len(prepared_dataset)] raises
    [ZeroDivisionError], which the [except] clause does not catch. *)
Theorem tracking_needs_a_record idx mc ds pds collator w w' evs o :
  track_carbon_emissions ec = true →
  rows pds = [] →
  _evaluate_pytorch_jax_single_iteration tc ec idx mc ds pds collator w = (w', evs, o) ∨
  _evaluate_spacy_single_iteration tc ec idx mc ds pds w = (w', evs, o) →
  (∀ scores, o ≠ Ok (IterScores scores)) ∧
  (∀ scores w1,
     store_emissions ec pds scores w1
     = ({| ext := (tracker_stop (ext w1)).1; frame := frame w1 |}, [EvTrackerStop],
        match (tracker_stop (ext w1)).2 with
        | Ok _ => Raise (Builtin ZeroDivisionError "division by zero")
        | Raise e => Raise e
        | OutOfFuel => OutOfFuel
        end)) ∧
  iteration_handler (Builtin ZeroDivisionError "division by zero") = None.
Proof.
  intros Htrack Hrows Hrun.
  assert (Hstore : ∀ scores w1 w2 evs2 scores',
            store_emissions ec pds scores w1 ≠ (w2, evs2, Ok scores')).
  { intros scores w1 w2 evs2 scores' Hs.
    apply store_emissions_ok in Hs as (_ & Hs). rewrite Htrack in Hs.
    destruct Hs as [Hlen _]. apply Hlen. unfold ds_len. by rewrite Hrows. }
  split; [|split; [|done]].
  - intros scores ->. destruct Hrun as [Hrun|Hrun].
    + apply guarded_ok in Hrun as (evs1 & Hbody & _).
      apply pytorch_jax_body_ok in Hbody
          as (? & ? & ? & ? & ? & ? & ? & ? & _ & _ & Hs & _). by apply Hstore in Hs.
    + apply guarded_ok in Hrun as (evs1 & Hbody & _).
      apply spacy_body_ok in Hbody
          as (? & ? & ? & ? & ? & ? & ? & ? & _ & _ & Hs & _). by apply Hstore in Hs.
  - intros scores w1. unfold store_emissions, ds_len. rewrite Htrack, Hrows.
    cbn [length Nat.eqb]. unfold mbind, M_bind, call, call_observed, raise.
    by destruct (tracker_stop (ext w1)) as [x' [data|e|]].
Qed.

(** X10: the keys of the score record that a single-iteration call
    returns are names of configured metrics and, when carbon tracking is
    on, ["carbon_emissions"] and ["energy_consumed"], which are then both
    present; without tracking no other key than a metric name occurs. *)
Theorem score_record_keys idx mc ds pds collator w w' evs scores :
  _evaluate_pytorch_jax_single_iteration tc ec idx mc ds pds collator w
  = (w', evs, Ok (IterScores scores)) ∨
  _evaluate_spacy_single_iteration tc ec idx mc ds pds w
  = (w', evs, Ok (IterScores scores)) →
  (∀ key, is_Some (scores !! key) →
     key ∈ map metric_name (tc_metrics tc) ∨
     track_carbon_emissions ec = true ∧
     (key = "carbon_emissions" ∨ key = "energy_consumed")) ∧
  (track_carbon_emissions ec = true →
   is_Some (scores !! "carbon_emissions") ∧ is_Some (scores !! "energy_consumed")).
Proof.
  intros Hrun.
  assert (∃ (pairs : list (list Lab * list Lab)) ms w1 w2 evsm w3 evss,
            _compute_metrics tc (copy_single_pair tc pairs) w1 = (w2, evsm, Ok ms) ∧
            store_emissions ec pds ms w2 = (w3, evss, Ok scores))
    as (pairs & ms & w1 & w2 & evsm & w3 & evss & Hm & Hs).
  { destruct Hrun as [Hrun|Hrun]; apply guarded_ok in Hrun as (evs1 & Hbody & _).
    - apply pytorch_jax_body_ok in Hbody
          as (pairs & ms & s & w1 & w2 & evsm & w3 & evss & [= <-] & Hm & Hs & _).
      by exists pairs, ms, w1, w2, evsm, w3, evss.
    - apply spacy_body_ok in Hbody
          as (pairs & ms & s & w1 & w2 & evsm & w3 & evss & [= <-] & Hm & Hs & _).
      by exists pairs, ms, w1, w2, evsm, w3, evss. }
  assert (Hnames : ∀ key, is_Some (ms !! key) → key ∈ map metric_name (tc_metrics tc)).
  { intros key Hkey. apply dom_compute_metrics in Hm.
    apply elem_of_dom in Hkey. apply Hm in Hkey.
    apply elem_of_list_to_set in Hkey.
    apply list_elem_of_fmap in Hkey as (cfg & -> & Hcfg).
    apply list_elem_of_fmap. exists cfg. split; [done|].
    apply elem_of_take in Hcfg as (i & Hi & _). by eapply list_elem_of_lookup_2. }
  apply store_emissions_ok in Hs as (_ & Hs).
  destruct (track_carbon_emissions ec).
  - destruct Hs as (_ & data & ->). split.
    + intros key Hkey.
      destruct (decide (key = "energy_consumed")) as [->|Hne1]; [right; auto|].
      destruct (decide (key = "carbon_emissions")) as [->|Hne2]; [right; auto|].
      left. apply Hnames. by rewrite !lookup_insert_ne in Hkey by done.
    + intros _. split.
      * rewrite lookup_insert_ne by done. rewrite lookup_insert_eq. by eexists.
      * rewrite lookup_insert_eq. by eexists.
  - subst scores. split; [|done]. intros key Hkey. left. by apply Hnames.
Qed.

(** *** The batches and the metrics *)

Lemma batches_of_partition {A} fuel batch_size (xs : list A) :
  (0 < batch_size)%nat → (length xs ≤ fuel)%nat →
  concat (batches_of fuel batch_size xs) = xs ∧
  Forall (λ batch, (0 < length batch ≤ batch_size)%nat) (batches_of fuel batch_size xs).
Proof.
  intros Hsize. revert xs. induction fuel as [|fuel IH]; intros xs Hlen.
  - destruct xs; [by split|cbn in Hlen; lia].
  - destruct xs as [|x xs]; [by split|].
    cbn [batches_of].
    destruct (IH (drop batch_size (x :: xs))) as [Hconcat Hsizes].
    { rewrite length_drop. cbn in *. lia. }
    split.
    + cbn [concat]. rewrite Hconcat. apply take_drop.
    + constructor; [|done]. rewrite length_take. cbn. lia.
Qed.


Lemma compute_metrics_loop_calls zipped results w w' evs o :
  compute_metrics_loop tc zipped results w = (w', evs, o) →
  ∃ k, evs = map metric_call (take k zipped).
Proof.
  revert results w evs.
  induction zipped as [|[metric_cfg [predictions labels]] rest IH]; intros results w evs.
  - intros [= _ <- _]. by exists 0.
  - cbn [compute_metrics_loop]. intros Hrun.
    apply bind_inv in Hrun
        as [(w1 & evs1 & metric & evs2 & Hm & Hrun & ->)|[(e & Hm & ->)|[Hm ->]]].
    2,3: by destruct (_metrics tc !! metric_name metric_cfg);
           injection Hm as _ <- _; exists 0.
    assert (evs1 = []) as ->.
    { destruct (_metrics tc !! metric_name metric_cfg); by injection Hm as _ <- _. }
    apply bind_inv in Hrun
        as [(w2 & evs3 & score_dict & evs4 & Hc & Hrun & ->)|[(e & Hc & ->)|[Hc ->]]].
    2,3: by apply call_run in Hc as (-> & _ & _); exists 1; cbn; rewrite take_0.
    apply call_run in Hc as (-> & _ & _).
    apply bind_inv in Hrun
        as [(w3 & evs5 & results' & evs6 & Hr & Hrun & ->)|[(e & Hr & ->)|[Hr ->]]].
    + assert (evs5 = []) as ->.
      { destruct score_dict as [d|]; [|by injection Hr as _ <- _].
        destruct (d !! results_key metric_cfg); by injection Hr as _ <- _. }
      apply IH in Hrun as (k & ->). by exists (S k).
    + assert (evs4 = []) as ->.
      { destruct score_dict as [d|]; [|by injection Hr as _ <- _].
        destruct (d !! results_key metric_cfg); by injection Hr as _ <- _. }
      exists 1. cbn. by rewrite take_0.
    + destruct score_dict as [d|]; [|discriminate Hr].
      destruct (d !! results_key metric_cfg); discriminate Hr.
Qed.

(** X12: [_compute_metrics] pairs the metrics with the given pairs by
    position, as [zip] does: it calls the backends of the first metrics
    only, one for each pair, in order, and stops at the first failure; a
    metric without a pair is not computed and a pair without a metric is
    ignored.  When it returns, the keys of the result are names of the
    metrics that had a pair; with no pair at all it returns the empty
    dictionary without calling any backend. *)
Theorem metrics_computed_pairwise pairs w w' evs o :
  _compute_metrics tc pairs w = (w', evs, o) →
  (∃ k, evs = map metric_call (take k (zip (tc_metrics tc) pairs))) ∧
  (∀ scores, o = Ok scores →
     evs = map metric_call (zip (tc_metrics tc) pairs) ∧
     length evs = (length (tc_metrics tc) `min` length pairs)%nat ∧
     ∀ key, is_Some (scores !! key) →
            key ∈ map metric_name (take (length pairs) (tc_metrics tc))) ∧
  (pairs = [] → w' = w ∧ evs = [] ∧ o = Ok ∅).
Proof.
  intros Hrun. split; [by eapply compute_metrics_loop_calls|]. split.
  - intros scores ->. split; [|split].
    + by apply compute_metrics_loop_events in Hrun.
    + apply compute_metrics_loop_events in Hrun as ->.
      by rewrite length_map, length_zip.
    + intros key Hkey. apply dom_compute_metrics in Hrun.
      apply elem_of_dom in Hkey. apply Hrun in Hkey.
      by apply elem_of_list_to_set in Hkey.
  - intros ->. unfold _compute_metrics in Hrun.
    assert (Hzip : zip (tc_metrics tc) ([] : list (list Lab * list Lab)) = [])
      by (by destruct (tc_metrics tc)).
    rewrite Hzip in Hrun. by injection Hrun as <- <- <-.
Qed.

(** A dict comprehension keeps, for a key, the value of the last pair
    that has the key. *)
Lemma dict_of_pairs_last {V} (kvs : list (string * V)) (s : string) (v : V) :
  dict_of_pairs kvs !! s = Some v ↔
  ∃ i : nat, kvs !! i = Some (s, v) ∧
             ∀ (j : nat) (v' : V), kvs !! j = Some (s, v') → (j ≤ i)%nat.
Proof.
  revert v. induction kvs as [|[k u] kvs IH] using rev_ind; intros v.
  - split; [by intros Hl; vm_compute in Hl|]. by intros (i & Hi & _).
  - unfold dict_of_pairs in *. rewrite fold_left_app. cbn [fold_left fst snd].
    destruct (decide (k = s)) as [->|Hne].
    + rewrite lookup_insert_eq. split.
      * intros [= ->]. exists (length kvs). split.
        -- by rewrite lookup_app_r, Nat.sub_diag by lia.
        -- intros j v' Hj. apply lookup_lt_Some in Hj. rewrite length_app in Hj.
           cbn in Hj. lia.
      * intros (i & Hi & Hmax).
        assert (Hlast : (kvs ++ [(s, u)]) !! length kvs = Some (s, u))
          by (by rewrite lookup_app_r, Nat.sub_diag by lia).
        specialize (Hmax _ _ Hlast).
        pose proof (lookup_lt_Some _ _ _ Hi) as Hlt. rewrite length_app in Hlt.
        cbn in Hlt. assert (i = length kvs) as -> by lia. congruence.
    + rewrite lookup_insert_ne by done. rewrite IH. split.
      * intros (i & Hi & Hmax). exists i. split; [by apply lookup_app_l_Some|].
        intros j v' Hj. destruct (decide (j < length kvs)%nat) as [Hlt|Hge].
        -- rewrite lookup_app_l in Hj by done. by eapply Hmax.
        -- rewrite lookup_app_r in Hj by lia.
           destruct (j - length kvs)%nat as [|?]; [|done]. by injection Hj as -> _.
      * intros (i & Hi & Hmax).
        destruct (decide (i < length kvs)%nat) as [Hlt|Hge].
        -- rewrite lookup_app_l in Hi by done. exists i. split; [done|].
           intros j v' Hj. eapply Hmax. by apply lookup_app_l_Some.
        -- rewrite lookup_app_r in Hi by lia.
           destruct (i - length kvs)%nat as [|?]; [|done]. by injection Hi as -> _.
Qed.

(** X13: [__init__] loads a metric for the name of every configured
    metric, so that the lookup [self._metrics[metric_cfg.name]] of
    [_compute_metrics] finds one for each of them; what is found under a
    name is the metric of the last configuration with that name, which
    is the configuration itself when the names are distinct; no metric is
    loaded under any other name. *)
Theorem configured_metrics_are_loaded :
  (∀ name loaded,
     _metrics tc !! name = Some loaded ↔
     ∃ (i : nat) metric_cfg,
       tc_metrics tc !! i = Some metric_cfg ∧
       metric_name metric_cfg = name ∧
       metric_huggingface_id metric_cfg = loaded ∧
       ∀ (j : nat) other, tc_metrics tc !! j = Some other →
                          metric_name other = name → (j ≤ i)%nat) ∧
  (∀ metric_cfg, metric_cfg ∈ tc_metrics tc →
     is_Some (_metrics tc !! metric_name metric_cfg)) ∧
  (∀ metric_cfg, NoDup (map metric_name (tc_metrics tc)) →
     metric_cfg ∈ tc_metrics tc →
     _metrics tc !! metric_name metric_cfg = Some (metric_huggingface_id metric_cfg)) ∧
  (∀ name, name ∉ map metric_name (tc_metrics tc) → _metrics tc !! name = None).
Proof.
  assert (Hsome : ∀ name id, _metrics tc !! name = Some id →
            ∃ loaded, loaded ∈ tc_metrics tc ∧ metric_name loaded = name ∧
                      metric_huggingface_id loaded = id).
  { intros name id Hl. apply ConfigFacts.dict_of_pairs_lookup_Some in Hl.
    apply list_elem_of_fmap in Hl as (loaded & [= -> ->] & Hin). by exists loaded. }
  assert (Hfound : ∀ metric_cfg, metric_cfg ∈ tc_metrics tc →
            is_Some (_metrics tc !! metric_name metric_cfg)).
  { intros metric_cfg Hin. apply ConfigFacts.dict_of_pairs_fold_is_Some. left.
    rewrite <- list_fmap_compose. apply list_elem_of_fmap. by exists metric_cfg. }
  split; [|split; [exact Hfound|split]].
  - intros name loaded. unfold _metrics. rewrite dict_of_pairs_last. split.
    + intros (i & Hi & Hmax). rewrite list_lookup_fmap in Hi.
      destruct (tc_metrics tc !! i) as [metric_cfg|] eqn:Hcfg; [|done].
      injection Hi as <- <-. exists i, metric_cfg. split; [done|]. split; [done|].
      split; [done|]. intros j other Hj Hname.
      apply (Hmax j (metric_huggingface_id other)).
      by rewrite list_lookup_fmap, Hj, <- Hname.
    + intros (i & metric_cfg & Hi & <- & <- & Hmax). exists i. split.
      * by rewrite list_lookup_fmap, Hi.
      * intros j v' Hj. rewrite list_lookup_fmap in Hj.
        destruct (tc_metrics tc !! j) as [other|] eqn:Hother; [|done].
        injection Hj as Hname _. by eapply Hmax.
  - intros metric_cfg Hnodup Hin. destruct (Hfound _ Hin) as [id Hid].
    destruct (Hsome _ _ Hid) as (loaded & Hl & Hname & <-).
    rewrite Hid. do 2 f_equal.
    apply list_elem_of_lookup in Hl as [i Hi]. apply list_elem_of_lookup in Hin as [j Hj].
    assert (i = j) as ->; [|congruence].
    eapply NoDup_lookup; [exact Hnodup| |].
    + by rewrite list_lookup_fmap, Hi.
    + by rewrite list_lookup_fmap, Hj, Hname.
  - intros name Hname. destruct (_metrics tc !! name) as [id|] eqn:Hid; [|done].
    destruct (Hsome _ _ Hid) as (loaded & Hl & <- & _).
    destruct Hname. apply list_elem_of_fmap. by exists loaded.
Qed.

(** *** The setups *)

Lemma map_raising_list_get_ok {A} (l : list A) ixs picked :
  map_raising (list_get l) ixs = Ok picked →
  length picked = length ixs ∧ ∀ x, x ∈ picked → x ∈ l.
Proof.
  revert picked. induction ixs as [|i ixs IH]; intros picked; cbn [map_raising].
  - intros [= <-]. split; [done|]. by intros x Hx%elem_of_nil.
  - destruct (l !! i) as [y|] eqn:Hy;
      [rewrite (list_get_Some l i y Hy)|rewrite (list_get_None l i Hy)]; simpl; [|discriminate].
    destruct (map_raising (list_get l) ixs) as [ys|e|]; simpl; [|discriminate..].
    intros [= <-]. destruct (IH ys eq_refl) as [Hlen Hin]. split; [by cbn; rewrite Hlen|].
    intros x [->|Hx]%elem_of_cons; [by eapply list_elem_of_lookup_2|by apply Hin].
Qed.

Lemma ds_take_ok ds ixs bd :
  ds_take ds ixs = Ok bd →
  column_names bd = column_names ds ∧ ds_len bd = length ixs ∧
  ∀ record, record ∈ rows bd → record ∈ rows ds.
Proof.
  unfold ds_take.
  destruct (map_raising (list_get (rows ds)) ixs) as [picked|e|] eqn:Hp; simpl; [|discriminate..].
  intros [= <-]. apply map_raising_list_get_ok in Hp as [Hlen Hin]. by repeat split.
Qed.

Lemma resampled_dataset_ok ds ds' :
  resampled_dataset ec ds = Ok ds' →
  column_names ds' = column_names ds ∧ ∀ record, record ∈ rows ds' → record ∈ rows ds.
Proof.
  unfold resampled_dataset. destruct (testing ec).
  - intros Hs. by apply ds_take_ok in Hs as (? & _ & ?).
  - by intros [= <-].
Qed.

Lemma bootstrap_ok n ds rng w w' evs bds :
  bootstrap n ds rng w = (w', evs, Ok bds) →
  length bds = n ∧
  Forall (λ bd, column_names bd = column_names ds ∧
                ∀ record, record ∈ rows bd → record ∈ rows ds) bds ∧
  (rng_in_range → Forall (λ bd, ds_len bd = ds_len ds) bds).
Proof.
  revert rng w w' evs bds. induction n as [|n IH]; intros rng w w' evs bds.
  - intros [= _ _ <-]. by repeat split.
  - cbn [bootstrap].
    destruct (rng_integers 0 (ds_len ds) (ds_len ds) rng) as [rng' indices] eqn:Hdraw.
    intros Hrun.
    bind_ok Hrun w1 evs1 u evs2 He. clear He.
    bind_ok Hrun w2 evs3 bd evs4 Hbd.
    bind_ok Hrun w3 evs5 others evs6 Hothers.
    injection Hrun as _ _ <-.
    assert (Htake : ds_take ds indices = Ok bd) by (by injection Hbd as _ _ ->).
    apply ds_take_ok in Htake as (Hcols & Hlen & Hin).
    apply IH in Hothers as (Hn & Hall & Hsizes).
    split; [by cbn; rewrite Hn|]. split; [by constructor|].
    intros Hrng. constructor; [|by apply Hsizes].
    rewrite Hlen. destruct (Hrng 0 (ds_len ds) (ds_len ds) rng) as [Hsize _].
    by rewrite Hdraw in Hsize.
Qed.

Lemma list_comprehension_ok {A B} (f : A → M B) xs w w' evs ys :
  list_comprehension f xs w = (w', evs, Ok ys) → length ys = length xs.
Proof.
  revert w w' evs ys. induction xs as [|x xs IH]; intros w w' evs ys.
  - by intros [= _ _ <-].
  - cbn [list_comprehension]. intros Hrun.
    bind_ok Hrun w1 evs1 y evs2 Hy. bind_ok Hrun w2 evs3 rest evs4 Hrest.
    injection Hrun as _ _ <-. cbn. by rewrite (IH _ _ _ _ Hrest).
Qed.

(** What the guarded preprocessing gives: the prepared datasets, an
    exception that is not a [ValueError], or [PreprocessingFailed]. *)
Lemma preprocessing_run (body : M (list Dataset)) w w' evs o :
  try_except body preprocessing_handler w = (w', evs, o) →
  match o with
  | Ok pds => body w = (w', evs, Ok pds)
  | Raise e => ∀ text, e ≠ Builtin ValueError text
  | OutOfFuel => True
  end.
Proof.
  intros Hrun. apply try_except_inv in Hrun
      as [(w1 & evs1 & e & h & evs2 & _ & Hh & Hrun & ->)|[Hbody Ho]].
  - destruct e as [[] text| | | | | | | |]; try discriminate Hh.
    injection Hh as <-. by injection Hrun as _ _ <-.
  - destruct o as [pds|e|]; [done| |done].
    intros text ->. discriminate Ho.
Qed.

(** X14: a setup that returns has built exactly [num_iter] bootstrapped
    datasets and as many prepared datasets, so that indexing them with an
    iteration index below [num_iter] cannot fail; every bootstrapped
    dataset has the columns of the test dataset and holds only records of
    it, and, when the generator honours the contract of
    [Generator.integers], as many records as the dataset that is
    resampled. *)
Theorem setup_builds_one_dataset_per_iteration md ds rng n w w' evs bds pds :
  (∃ collator, pytorch_jax_setup ec md ds rng n w = (w', evs, Ok (bds, pds, collator))) ∨
  spacy_setup ec md ds rng n w = (w', evs, Ok (bds, pds)) →
  length bds = n ∧ length pds = n ∧
  (∀ idx, (idx < n)%nat → is_Some (bds !! idx) ∧ is_Some (pds !! idx)) ∧
  Forall (λ bd, column_names bd = column_names ds ∧
                ∀ record, record ∈ rows bd → record ∈ rows ds) bds ∧
  (rng_in_range → Forall (λ bd, ds_len bd = resample_size ec ds) bds).
Proof.
  intros Hrun.
  assert (∃ ds' wa wb evsb wc wd evsd,
            resampled_dataset ec ds = Ok ds' ∧
            bootstrap n ds' rng wa = (wb, evsb, Ok bds) ∧
            (∃ (f : Dataset → M Dataset),
               list_comprehension f bds wc = (wd, evsd, Ok pds)))
    as (ds' & wa & wb & evsb & wc & wd & evsd & Hds & Hboot & f & Hprep).
  { destruct Hrun as [[collator Hrun]|Hrun].
    - unfold pytorch_jax_setup in Hrun.
      bind_ok Hrun w1 evs1 ds' evs2 Ht. rewrite truncate_if_testing_run in Ht.
      injection Ht as <- _ Ht.
      bind_ok Hrun w2 evs3 bds' evs4 Hb.
      bind_ok Hrun w3 evs5 pds' evs6 Hp.
      bind_ok Hrun w4 evs7 c evs8 Hc. injection Hrun as _ _ <- <- _.
      apply preprocessing_run in Hp.
      exists ds', w, w2, evs3, w2, w3, evs5. split; [done|]. split; [done|]. by eexists.
    - unfold spacy_setup in Hrun.
      bind_ok Hrun w1 evs1 ds' evs2 Ht. rewrite truncate_if_testing_run in Ht.
      injection Ht as <- _ Ht.
      bind_ok Hrun w2 evs3 bds' evs4 Hb.
      bind_ok Hrun w3 evs5 pds' evs6 Hp.
      injection Hrun as _ _ <- <-.
      apply preprocessing_run in Hp.
      exists ds', w, w2, evs3, w2, w3, evs5. split; [done|]. split; [done|]. by eexists. }
  apply bootstrap_ok in Hboot as (Hlen & Hall & Hsizes).
  apply list_comprehension_ok in Hprep.
  destruct (resampled_dataset_ok _ _ Hds) as [Hcols Hrows].
  destruct (resampled_dataset_spec ec _ _ Hds) as (Hsize & _).
  split; [done|]. split; [congruence|]. split; [|split].
  - intros idx Hidx. split; apply lookup_lt_is_Some_2; lia.
  - eapply Forall_impl; [exact Hall|]. intros bd [Hc Hr]. split; [congruence|].
    intros record Hrecord. by apply Hrows, Hr.
  - intros Hrng. eapply Forall_impl; [exact (Hsizes Hrng)|]. intros bd Hbd. congruence.
Qed.

(** The events of a setup whose truncation or resampling failed: none
    is a preprocessing call. *)
Lemma last_not_preprocess evs :
  Forall (λ ev, ∀ fw, ev ≠ EvPreprocess fw) evs →
  ¬ ∃ fw, last evs = Some (EvPreprocess fw).
Proof.
  intros Hall [fw Hlast].
  destruct evs as [|ev evs] using rev_ind; [discriminate Hlast|].
  rewrite last_snoc in Hlast. injection Hlast as ->.
  apply Forall_app in Hall as [_ Hall]. apply Forall_cons in Hall as [Hev _].
  by destruct (Hev fw).
Qed.

(** The [try] block around the preprocessing, when the first call raises
    a [ValueError]. *)
Lemma preprocessing_fails_first (fw : string) model tokenizer bd bds w text :
  (_preprocess_data bd fw model tokenizer (ext w)).2 = Raise (Builtin ValueError text) →
  try_except
    (list_comprehension
       (λ bootstrapped_dataset,
          call (EvPreprocess fw) (_preprocess_data bootstrapped_dataset fw model tokenizer))
       (bd :: bds))
    preprocessing_handler w
  = ({| ext := (_preprocess_data bd fw model tokenizer (ext w)).1; frame := frame w |},
     [EvPreprocess fw], Raise PreprocessingFailed).
Proof.
  intros Hraise. unfold try_except. cbn [list_comprehension].
  unfold mbind, M_bind, call, call_observed.
  destruct (_preprocess_data bd fw model tokenizer (ext w)) as [x' o].
  cbn in Hraise. by subst o.
Qed.

(** X15: the [try] block around the preprocessing of the bootstrapped
    datasets replaces a [ValueError] by [PreprocessingFailed]: when the
    truncation and the resampling return and the preprocessing of the
    first bootstrapped dataset raises a [ValueError], both setups raise
    [PreprocessingFailed] right after that call and preprocess no other
    dataset; and a setup that fails in a preprocessing call never raises
    a [ValueError]. *)
Theorem preprocessing_value_error_is_replaced md ds ds' rng n w w1 evs1 bd bds text
    w' evs e :
  (resampled_dataset ec ds = Ok ds' →
   bootstrap n ds' rng w = (w1, evs1, Ok (bd :: bds)) →
   ((_preprocess_data bd "pytorch" md.1 (Some md.2) (ext w1)).2
    = Raise (Builtin ValueError text) →
    pytorch_jax_setup ec md ds rng n w
    = ({| ext := (_preprocess_data bd "pytorch" md.1 (Some md.2) (ext w1)).1;
          frame := frame w1 |},
       evs1 ++ [EvPreprocess "pytorch"], Raise PreprocessingFailed)) ∧
   ((_preprocess_data bd "spacy" md.1 None (ext w1)).2
    = Raise (Builtin ValueError text) →
    spacy_setup ec md ds rng n w
    = ({| ext := (_preprocess_data bd "spacy" md.1 None (ext w1)).1;
          frame := frame w1 |},
       evs1 ++ [EvPreprocess "spacy"], Raise PreprocessingFailed))) ∧
  (pytorch_jax_setup ec md ds rng n w = (w', evs, Raise e) ∨
   spacy_setup ec md ds rng n w = (w', evs, Raise e) →
   (∃ fw, last evs = Some (EvPreprocess fw)) →
   ∀ text', e ≠ Builtin ValueError text').
Proof.
  split.
  - intros Hds Hboot. split; intros Hraise.
    + unfold pytorch_jax_setup, mbind at 1 2 3, M_bind.
      rewrite truncate_if_testing_run, Hds. cbn [app]. rewrite Hboot.
      by rewrite (preprocessing_fails_first "pytorch" _ _ _ _ _ _ Hraise).
    + unfold spacy_setup, mbind at 1 2 3, M_bind.
      rewrite truncate_if_testing_run, Hds. cbn [app]. rewrite Hboot.
      by rewrite (preprocessing_fails_first "spacy" _ _ _ _ _ _ Hraise).
  - intros Hrun Hlast text'.
    assert (Hboot : ∀ k d g w0 w2 evs0 (o : outcome (list Dataset)),
              bootstrap k d g w0 = (w2, evs0, o) →
              ¬ ∃ fw, last ([] ++ evs0) = Some (EvPreprocess fw)).
    { intros k d g w0 w2 evs0 o Hb. apply last_not_preprocess. cbn [app].
      eapply emits_run; [|exact Hb]. apply emits_bootstrap. by intros indices fw. }
    destruct Hrun as [Hrun|Hrun].
    + unfold pytorch_jax_setup in Hrun.
      apply bind_inv in Hrun
          as [(w2 & evs2 & d & evs3 & Ht & Hrun & ->)|[(e' & Ht & [= <-])|(_ & [=])]];
        rewrite truncate_if_testing_run in Ht; injection Ht as <- <- Ht;
        [|by destruct Hlast as [fw [=]]].
      apply bind_inv in Hrun
          as [(w3 & evs4 & bds' & evs5 & Hb & Hrun & ->)|[(e' & Hb & [= <-])|(_ & [=])]];
        [|by destruct (Hboot _ _ _ _ _ _ _ Hb)].
      apply bind_inv in Hrun
          as [(w4 & evs6 & pds & evs7 & _ & Hrun & ->)|[(e' & Hp & [= <-])|(_ & [=])]];
        [|apply preprocessing_run in Hp; by apply Hp].
      apply bind_inv in Hrun
          as [(w5 & evs8 & c & evs9 & _ & Hrun & ->)|[(e' & Hc & [= <-])|(_ & [=])]];
        [discriminate Hrun|].
      apply call_run in Hc as (-> & _ & _).
      destruct Hlast as [fw Hlast]. cbn [app] in Hlast.
      by rewrite !app_assoc, last_snoc in Hlast.
    + unfold spacy_setup in Hrun.
      apply bind_inv in Hrun
          as [(w2 & evs2 & d & evs3 & Ht & Hrun & ->)|[(e' & Ht & [= <-])|(_ & [=])]];
        rewrite truncate_if_testing_run in Ht; injection Ht as <- <- Ht;
        [|by destruct Hlast as [fw [=]]].
      apply bind_inv in Hrun
          as [(w3 & evs4 & bds' & evs5 & Hb & Hrun & ->)|[(e' & Hb & [= <-])|(_ & [=])]];
        [|by destruct (Hboot _ _ _ _ _ _ _ Hb)].
      apply bind_inv in Hrun
          as [(w4 & evs6 & pds & evs7 & _ & Hrun & ->)|[(e' & Hp & [= <-])|(_ & [=])]];
        [discriminate Hrun|].
      apply preprocessing_run in Hp. by apply Hp.
Qed.

(** *** [evaluate] *)

(** The steps of the first part of [evaluate]: each is taken only when
    the one before returned. *)
Lemma acquire_run id w w' evs o :
  acquire tc ec id w = (w', evs, o) →
  ∃ mc, evs ≠ [] ∧ evs `prefix_of` acquire_trace ec id mc ∧
        match o with
        | Ok (mc', _, _, _) => mc' = mc ∧ evs = acquire_trace ec id mc
        | _ => True
        end.
Proof.
  unfold acquire, _load_data, acquire_trace. intros Hrun.
  apply bind_inv in Hrun
      as [(w1 & evs1 & mc & evs2 & Hc1 & Hrun & ->)|[(e & Hc1 & ->)|[Hc1 ->]]].
  2,3: apply call_run in Hc1 as (-> & _ & _);
       exists {| model_id := id; revision := ""; framework := "" |};
       split; [done|]; split; [by eexists|done].
  apply call_run in Hc1 as (-> & _ & _). exists mc. split; [done|].
  apply bind_inv in Hrun
      as [(w2 & evs3 & rng & evs4 & Hc2 & Hrun & ->)|[(e & Hc2 & ->)|[Hc2 ->]]].
  2,3: apply call_run in Hc2 as (-> & _ & _); split; [by eexists|done].
  apply call_run in Hc2 as (-> & _ & _).
  apply bind_inv in Hrun
      as [(w3 & evs5 & md & evs6 & Hc3 & Hrun & ->)|[(e & Hc3 & ->)|[Hc3 ->]]].
  2,3: apply call_run in Hc3 as (-> & _ & _); split; [by eexists|done].
  apply call_run in Hc3 as (-> & _ & _).
  apply bind_inv in Hrun
      as [(w4 & evs7 & [] & evs8 & Hc4 & Hrun & ->)|[(e & Hc4 & ->)|[Hc4 ->]]].
  2,3: destruct (track_carbon_emissions ec); [|discriminate Hc4];
       apply call_run in Hc4 as (-> & _ & _); split; [by eexists|done].
  assert (evs7 = if track_carbon_emissions ec then [EvGetCarbonTracker] else []) as ->.
  { destruct (track_carbon_emissions ec); [by apply call_run in Hc4 as (-> & _ & _)|].
    by injection Hc4 as _ <-. }
  apply bind_inv in Hrun
      as [(w5 & evs9 & ds & evs10 & Hc5 & Hrun & ->)|[(e & Hc5 & ->)|[Hc5 ->]]].
  2,3: apply call_run in Hc5 as (-> & _ & _); split; [by exists []; rewrite app_nil_r|done].
  apply call_run in Hc5 as (-> & _ & _). injection Hrun as _ <- <-.
  split; [exists []|]; by rewrite ?app_nil_r.
Qed.

Lemma acquire_ok id w w' evs mc rng md ds :
  acquire tc ec id w = (w', evs, Ok (mc, rng, md, ds)) → evs = acquire_trace ec id mc.
Proof. intros Hrun. by apply acquire_run in Hrun as (mc' & _ & _ & <- & ->). Qed.

Lemma later_steps_dispatch fuel mc md ds rng n :
  emits_only (λ ev, ¬ is_acquisition ev) (dispatch tc ec fuel mc md ds rng n).
Proof.
  apply (any_dispatch tc ec (λ ev, ¬ is_acquisition ev)); by intros; intros [].
Qed.

(** X16: [evaluate] begins by fetching the model configuration, enforcing
    reproducibility for its framework, loading the model, creating the
    carbon tracker when tracking, and loading the dataset, in this order
    and each once; a step is taken only when the one before returned, and
    when all returned, nothing that follows repeats any of them except
    the loading of the model. *)
Theorem evaluation_begins_with_acquisition fuel id w w' evs o :
  evaluate tc ec fuel id w = (w', evs, o) →
  ∃ mc,
    (evs ≠ [] ∧ evs `prefix_of` acquire_trace ec id mc) ∨
    (∃ rest, evs = acquire_trace ec id mc ++ rest ∧
             Forall (λ ev, ¬ is_acquisition ev) rest).
Proof.
  intros Hrun.
  destruct (acquire tc ec id w) as [[w1 evs1] o1] eqn:Hacq.
  destruct (acquire_run _ _ _ _ _ Hacq) as (mc & Hne & Hprefix & Ho).
  exists mc. destruct o1 as [[[[mc' rng] md] ds]|e|].
  - destruct Ho as [-> ->]. right.
    rewrite (evaluate_run tc ec _ _ _ _ _ _ _ _ _ Hacq) in Hrun.
    destruct (remove_empty_examples _ ds) as [ds'|e|].
    + destruct (dispatch _ _ _ _ _ _ _ _ w1) as [[w2 evs2] o2] eqn:Hd.
      injection Hrun as _ <- _. exists evs2. split; [done|].
      eapply emits_run; [apply later_steps_dispatch|exact Hd].
    + injection Hrun as _ <- _. exists []. by rewrite app_nil_r.
    + injection Hrun as _ <- _. exists []. by rewrite app_nil_r.
  - left. unfold evaluate, mbind, M_bind in Hrun. rewrite Hacq in Hrun.
    by injection Hrun as _ <- _.
  - left. unfold evaluate, mbind, M_bind in Hrun. rewrite Hacq in Hrun.
    by injection Hrun as _ <- _.
Qed.

(** X17: a model whose framework is none of ["pytorch"], ["jax"] and
    ["spacy"] is rejected with [InvalidFramework], once the model and the
    dataset are loaded and the empty examples removed: nothing is
    resampled and no iteration runs. *)
Theorem unsupported_framework_is_rejected fuel id w w1 evs1 mc rng md ds ds' :
  acquire tc ec id w = (w1, evs1, Ok (mc, rng, md, ds)) →
  remove_empty_examples (feature_column_names tc) ds = Ok ds' →
  framework mc ≠ "pytorch" → framework mc ≠ "jax" → framework mc ≠ "spacy" →
  evaluate tc ec fuel id w
  = (w1, acquire_trace ec id mc, Raise (InvalidFramework (framework mc))) ∧
  iterations_of (acquire_trace ec id mc) = [] ∧
  resamples_of (acquire_trace ec id mc) = [].
Proof.
  intros Hacq Hfilter Hp Hj Hs.
  rewrite (evaluate_run tc ec _ _ _ _ _ _ _ _ _ Hacq), Hfilter.
  apply acquire_ok in Hacq as ->.
  unfold dispatch.
  apply String.eqb_neq in Hp, Hj, Hs. rewrite Hp, Hj, Hs. cbn [orb].
  unfold raise. rewrite app_nil_r. split; [done|].
  unfold acquire_trace. by destruct (track_carbon_emissions ec).
Qed.

(** X18: when carbon tracking is off, [evaluate] never touches the carbon
    tracker: in no run is it created, started or stopped; and the scores
    are logged for the metrics of the task alone. *)
Theorem tracker_untouched_without_tracking fuel id w :
  track_carbon_emissions ec = false →
  Forall (λ ev, ¬ is_tracker ev) (evaluate tc ec fuel id w).1.2 ∧
  logged_metric_configs tc ec = tc_metrics tc.
Proof.
  intros Htrack. split; [|unfold logged_metric_configs; by rewrite Htrack].
  apply (any_evaluate tc ec (λ ev, ¬ is_tracker ev)).
  all: first [by intros; intros [] | intros; congruence].
Qed.

(** *** Successful evaluations *)

Lemma model_loads_of_app evs1 evs2 :
  model_loads_of (evs1 ++ evs2) = model_loads_of evs1 ++ model_loads_of evs2.
Proof. apply omap_app. Qed.

Lemma seeds_of_app evs1 evs2 : seeds_of (evs1 ++ evs2) = seeds_of evs1 ++ seeds_of evs2.
Proof. apply omap_app. Qed.

Lemma no_loads_no_seeds evs :
  Forall (λ ev, ¬ is_load ev ∧ ¬ is_seed ev) evs →
  model_loads_of evs = [] ∧ seeds_of evs = [].
Proof.
  induction 1 as [|ev evs [Hl Hs] _ [IH1 IH2]]; [done|].
  destruct ev; try (by destruct Hl); try (by destruct Hs); (split; [exact IH1|exact IH2]).
Qed.

Lemma seeds_of_seeds_for sources idx :
  model_loads_of (seeds_for sources idx) = [] ∧
  seeds_of (seeds_for sources idx) = map (λ source, (source, 703 + idx)) sources.
Proof.
  induction sources as [|source sources [IH1 IH2]]; [done|].
  split; [exact IH1|]. cbn. by f_equal.
Qed.

(** The loads and the seeds of a [try] block that returns. *)
Lemma guarded_ok_loads idx mc sources (body : M IterResult) w w' evs scores :
  (∀ w w' evs o, body w = (w', evs, o) →
     (∃ k, evs = seeds_for (take k sources) idx ∧ ∀ r, o ≠ Ok r)
     ∨ (∃ rest, evs = seeds_for sources idx ++ EvLoadModel mc :: rest ∧
                Forall inference_event rest)) →
  (emit (EvIteration idx) ;; new_frame ;; try_except body iteration_handler) w
  = (w', evs, Ok (IterScores scores)) →
  model_loads_of evs = [mc] ∧
  seeds_of evs = map (λ source, (source, 703 + idx)) sources.
Proof.
  intros Hbody Hrun. apply guarded_ok in Hrun as (evs1 & Hb & ->).
  destruct (Hbody _ _ _ _ Hb) as [(k & _ & Hne)|(rest & -> & Hrest)];
    [by destruct (Hne (IterScores scores))|].
  destruct (seeds_of_seeds_for sources idx) as [Hl Hs].
  destruct (no_loads_no_seeds rest) as [Hl' Hs'].
  { eapply Forall_impl; [exact Hrest|].
    intros ev Hev. destruct ev; try (destruct Hev); split; intros H; exact H. }
  change (EvIteration idx :: ?l) with ([EvIteration idx] ++ l).
  rewrite !model_loads_of_app, !seeds_of_app, Hl, Hs.
  change (EvLoadModel mc :: rest) with ([EvLoadModel mc] ++ rest).
  rewrite model_loads_of_app, seeds_of_app, Hl', Hs'. cbn. by rewrite app_nil_r.
Qed.

Lemma runs_in_order_flat {B} (obs : list Event → list B) (g : nat → list B)
    (run : nat → M IterResult) itr w ss w' evs :
  (∀ evs1 evs2, obs (evs1 ++ evs2) = obs evs1 ++ obs evs2) →
  obs [] = [] →
  (∀ idx w w' evs s, run idx w = (w', evs, Ok (IterScores s)) → obs evs = g idx) →
  runs_in_order run itr w ss w' evs → obs evs = flat_map g itr.
Proof.
  intros Happ Hnil Hrun.
  induction 1 as [|idx rest w w1 evs1 s ss w2 evs2 H1 _ IH]; [done|].
  cbn. by rewrite Happ, IH, (Hrun _ _ _ _ _ H1).
Qed.

Lemma flat_map_singleton {A} (x : A) (l : list nat) :
  flat_map (λ _, [x]) l = replicate (length l) x.
Proof. induction l as [|i l IH]; [done|]. cbn. by rewrite IH. Qed.

(** The loads and the seeds of an evaluation path that returns. *)
Lemma path_ok_loads {A} (setup : M A) (run : nat → M IterResult) sources
    fuel mc n w w0 evs0 (a : A) w' evs1 report :
  emits_only setup_event setup →
  (∀ idx w w' evs s, run idx w = (w', evs, Ok (IterScores s)) →
     model_loads_of evs = [mc] ∧
     seeds_of evs = map (λ source, (source, 703 + idx)) sources) →
  setup w = (w0, evs0, Ok a) →
  evaluate_loop tc ec fuel run mc n w0 = (w', evs1, Ok report) →
  model_loads_of (evs0 ++ evs1) = replicate n mc ∧
  seeds_of (evs0 ++ evs1)
  = flat_map (λ idx, map (λ source, (source, 703 + idx)) sources) (seq 0 n).
Proof.
  intros Hsetup Hrun Hs Hloop.
  apply evaluate_loop_ok in Hloop as (scores & w1 & evs_iter & Hruns & Hlen & ->).
  destruct (no_loads_no_seeds evs0) as [Hl0 Hs0].
  { eapply Forall_impl; [eapply emits_run; [exact Hsetup|exact Hs]|].
    intros ev Hev. destruct ev; try (destruct Hev); split; intros H; exact H. }
  rewrite !model_loads_of_app, !seeds_of_app, Hl0, Hs0. cbn. rewrite !app_nil_r.
  split.
  - rewrite (runs_in_order_flat model_loads_of (λ _, [mc]) run (seq 0 n) w0 scores w1
               evs_iter model_loads_of_app eq_refl); [|..|exact Hruns].
    + by rewrite flat_map_singleton, length_seq.
    + intros i wa wb evs s H. by apply Hrun in H as [? _].
  - apply (runs_in_order_flat seeds_of _ run (seq 0 n) w0 scores w1 evs_iter
             seeds_of_app eq_refl); [|exact Hruns].
    intros i wa wb evs s H. by apply Hrun in H as [_ ?].
Qed.


(** *** The release of the model *)

(** The guarded [try] block on the path of the MPS fallback: the
    [except] clause raises before it does anything else. *)
Lemma guarded_mps idx (body : M IterResult) w w1 evs1 cls text :
  body {| ext := ext w; frame := empty_frame |} = (w1, evs1, Raise (Builtin cls text)) →
  is_transient cls = true →
  str_contains "PYTORCH_ENABLE_MPS_FALLBACK" text = true →
  (emit (EvIteration idx) ;; new_frame ;; try_except body iteration_handler) w
  = (w1, EvIteration idx :: evs1, Raise MPSFallbackNotEnabled).
Proof.
  intros Hbody Hcls Hmps.
  unfold mbind, M_bind, emit, new_frame, try_except. cbn.
  rewrite Hbody. cbn. rewrite Hcls, Hmps. cbn. by rewrite app_nil_r.
Qed.

Lemma no_cleanup_in_try idx evs1 :
  Forall try_event evs1 → ¬ Exists is_cleanup (EvIteration idx :: evs1).
Proof.
  intros Htry Hex. apply Exists_cons in Hex as [[]|Hex].
  by apply (try_event_not_cleanup evs1).
Qed.

(** C8, amended: when a single-iteration call returns the exception it
    caught (a [RuntimeError], [ValueError] or [IndexError] whose text does
    not mention the MPS fallback), the locals [model] and [model_dict]
    are unbound and memory has been cleared, as the last thing the call
    did, before the exception reaches the caller.  When the [try] block
    raises such an exception with a text that mentions the MPS fallback,
    the call raises [MPSFallbackNotEnabled] before any release: it ends
    in the state in which the [try] block ended, the locals as they were,
    and has executed no [del] and no [clear_memory()]. *)
Theorem returned_error_releases_model idx mc ds pds collator w w' evs cls text w1 evs1 :
  (_evaluate_pytorch_jax_single_iteration tc ec idx mc ds pds collator w
   = (w', evs, Ok (IterErr cls text)) ∨
   _evaluate_spacy_single_iteration tc ec idx mc ds pds w
   = (w', evs, Ok (IterErr cls text)) →
   released w' evs ∧ is_transient cls = true ∧
   str_contains "PYTORCH_ENABLE_MPS_FALLBACK" text = false) ∧
  (is_transient cls = true →
   str_contains "PYTORCH_ENABLE_MPS_FALLBACK" text = true →
   (pytorch_jax_iteration_body tc ec idx mc ds pds collator
      {| ext := ext w; frame := empty_frame |}
    = (w1, evs1, Raise (Builtin cls text)) →
    _evaluate_pytorch_jax_single_iteration tc ec idx mc ds pds collator w
    = (w1, EvIteration idx :: evs1, Raise MPSFallbackNotEnabled) ∧
    ¬ Exists is_cleanup (EvIteration idx :: evs1)) ∧
   (spacy_iteration_body tc ec idx mc ds pds {| ext := ext w; frame := empty_frame |}
    = (w1, evs1, Raise (Builtin cls text)) →
    _evaluate_spacy_single_iteration tc ec idx mc ds pds w
    = (w1, EvIteration idx :: evs1, Raise MPSFallbackNotEnabled) ∧
    ¬ Exists is_cleanup (EvIteration idx :: evs1))).
Proof.
  split.
  - intros [Hrun|Hrun].
    + eapply guarded_iteration_returns_error; [|exact Hrun].
      apply returns_scores_pytorch_jax_body.
    + eapply guarded_iteration_returns_error; [|exact Hrun].
      apply returns_scores_spacy_body.
  - intros Hcls Hmps. split; intros Hbody.
    + split; [by apply (guarded_mps idx _ w w1 evs1 cls text)|].
      apply no_cleanup_in_try. eapply emits_run; [|exact Hbody].
      apply try_events_pytorch_jax.
    + split; [by apply (guarded_mps idx _ w w1 evs1 cls text)|].
      apply no_cleanup_in_try. eapply emits_run; [|exact Hbody].
      apply try_events_spacy.
Qed.

(** *** The check of the first iteration, when it is made *)

Lemma check_answers_of_app evs1 evs2 :
  check_answers_of (evs1 ++ evs2) = check_answers_of evs1 ++ check_answers_of evs2.
Proof. apply omap_app. Qed.

Lemma no_check_answers evs :
  Forall (λ ev, ¬ is_check ev) evs → check_answers_of evs = [].
Proof.
  induction 1 as [|ev evs Hev _ IH]; [done|].
  destruct ev; try exact IH. by destruct Hev.
Qed.

Lemma no_checks_in_seeds sources idx :
  Forall (λ ev, ¬ is_check ev) (seeds_for sources idx).
Proof. apply Forall_fmap, Forall_forall. by intros source _ []. Qed.

Lemma no_checks_in_batches k :
  Forall (λ ev, ¬ is_check ev) (concat (replicate k [EvCollate; EvPredict])).
Proof.
  induction k as [|k IH]; [constructor|].
  cbn. by repeat (constructor; [intros []|]).
Qed.

Lemma no_checks_in_metrics (given : list (MetricConfig * (list Lab * list Lab))) :
  Forall (λ ev, ¬ is_check ev) (map metric_call given).
Proof. apply Forall_fmap, Forall_forall. by intros pair _ []. Qed.

(** The answers of the check in a guarded [try] block that returns
    scores. *)
Lemma guarded_ok_checks idx (body : M IterResult) w w' evs scores :
  (∀ w w' evs r, body w = (w', evs, Ok r) →
     check_answers_of evs = if (idx =? 0)%nat then [Ok true] else []) →
  (emit (EvIteration idx) ;; new_frame ;; try_except body iteration_handler) w
  = (w', evs, Ok (IterScores scores)) →
  check_answers_of evs = if (idx =? 0)%nat then [Ok true] else [].
Proof.
  intros Hbody Hrun. apply guarded_ok in Hrun as (evs1 & Hb & ->).
  by apply Hbody in Hb.
Qed.

Lemma pytorch_jax_body_checks idx mc ds pds collator w w' evs r :
  pytorch_jax_iteration_body tc ec idx mc ds pds collator w = (w', evs, Ok r) →
  check_answers_of evs = if (idx =? 0)%nat then [Ok true] else [].
Proof.
  intros Hrun. apply pytorch_jax_body_ok in Hrun
      as (pairs & ms & s & w1 & w2 & evsm & w3 & evss & _ & _ & _ & _ & ->).
  rewrite !check_answers_of_app.
  rewrite (no_check_answers _ (no_checks_in_seeds _ _)).
  rewrite (no_check_answers _ (no_checks_in_batches _)).
  rewrite (no_check_answers _ (no_checks_in_metrics _)).
  by destruct (track_carbon_emissions ec), (idx =? 0)%nat.
Qed.

Lemma spacy_body_checks idx mc ds pds w w' evs r :
  spacy_iteration_body tc ec idx mc ds pds w = (w', evs, Ok r) →
  check_answers_of evs = if (idx =? 0)%nat then [Ok true] else [].
Proof.
  intros Hrun. apply spacy_body_ok in Hrun
      as (pairs & ms & s & w1 & w2 & evsm & w3 & evss & _ & _ & _ & ->).
  rewrite !check_answers_of_app.
  rewrite (no_check_answers _ (no_checks_in_seeds _ _)).
  rewrite (no_check_answers _ (no_checks_in_metrics _)).
  by destruct (track_carbon_emissions ec), (idx =? 0)%nat.
Qed.

Lemma checks_after_first start n :
  start ≠ 0 →
  flat_map (λ idx, if (idx =? 0)%nat then [Ok true] else []) (seq start n)
  = ([] : list (outcome bool)).
Proof.
  revert start. induction n as [|n IH]; intros start Hstart; [done|].
  cbn [seq flat_map]. rewrite IH by lia.
  by destruct start.
Qed.

(** The answers of the check in an evaluation path that returns. *)
Lemma path_ok_checks {A} (setup : M A) (run : nat → M IterResult)
    fuel mc n w w0 evs0 (a : A) w' evs1 report :
  emits_only setup_event setup →
  (∀ idx w w' evs s, run idx w = (w', evs, Ok (IterScores s)) →
     check_answers_of evs = if (idx =? 0)%nat then [Ok true] else []) →
  setup w = (w0, evs0, Ok a) →
  evaluate_loop tc ec fuel run mc n w0 = (w', evs1, Ok report) →
  n ≠ 0 →
  check_answers_of (evs0 ++ evs1) = [Ok true].
Proof.
  intros Hsetup Hrun Hs Hloop Hn.
  apply evaluate_loop_ok in Hloop as (scores & w1 & evs_iter & Hruns & Hlen & ->).
  rewrite !check_answers_of_app.
  rewrite (no_check_answers evs0).
  2:{ eapply Forall_impl; [eapply emits_run; [exact Hsetup|exact Hs]|].
      intros ev Hev Hcheck. by destruct ev. }
  rewrite (runs_in_order_flat check_answers_of
             (λ idx, if (idx =? 0)%nat then [Ok true] else []) run (seq 0 n) w0 scores w1
             evs_iter check_answers_of_app eq_refl Hrun Hruns).
  destruct n as [|n]; [done|].
  cbn [seq flat_map Nat.eqb]. by rewrite checks_after_first.
Qed.


End Steps.

End RunFacts.

(** ** Facts about the methods that prepare a batch and call the model *)

Module MethodsFacts.
Import Config Py Task Methods.

Section WithTensors.
Context {Tensor Device : Type}.
Context (tensor_to : Tensor → Device → outcome Tensor).
Context (device : EvaluationConfig → Device).
Implicit Types (batch prepared : Dict Tensor).

Lemma move_to_device_ok ec batch moved :
  move_to_device tensor_to device ec batch = Ok moved →
  Forall2 (λ item after : string * Tensor,
             after.1 = item.1 ∧ tensor_to item.2 (device ec) = Ok after.2) batch moved.
Proof.
  unfold move_to_device. revert moved.
  induction batch as [|[key value] batch IH]; intros moved; cbn [map_raising].
  - intros [= <-]. constructor.
  - cbn [fst snd]. destruct (tensor_to value (device ec)) as [after|e|] eqn:Hto; simpl;
      [|discriminate..].
    destruct (map_raising _ batch) as [rest|e|]; simpl; [|discriminate..].
    intros [= <-]. constructor; [by split|]. by apply IH.
Qed.

Lemma move_to_device_movable ec batch :
  movable tensor_to device ec batch → ∃ moved, move_to_device tensor_to device ec batch = Ok moved.
Proof.
  unfold move_to_device. induction 1 as [|[key value] batch [after Hto] _ [rest IH]];
    cbn [map_raising]; [by eexists|].
  cbn [fst snd] in *. rewrite Hto. simpl. rewrite IH. simpl. by eexists.
Qed.

(** The first tensor that cannot be moved decides the failure. *)
Lemma move_to_device_raises ec batch e :
  move_to_device tensor_to device ec batch = Raise e ↔
  ∃ before key value after,
    batch = before ++ (key, value) :: after ∧
    movable tensor_to device ec before ∧
    tensor_to value (device ec) = Raise e.
Proof.
  unfold move_to_device, movable.
  induction batch as [|[key value] batch IH]; cbn [map_raising].
  - split; [discriminate|]. intros (before & k & v & after & Hb & _). by destruct before.
  - cbn [fst snd]. destruct (tensor_to value (device ec)) as [moved|e'|] eqn:Hto; simpl.
    + destruct (map_raising _ batch) as [rest|e'|] eqn:Hrest; simpl.
      * split; [discriminate|].
        intros (before & k & v & after & Hb & Hmov & Hv).
        destruct before as [|item before]; cbn in Hb.
        -- injection Hb as <- <- <-. congruence.
        -- injection Hb as <- ->. apply Forall_cons in Hmov as [_ Hmov].
           destruct IH as [_ IH].
           specialize (IH ltac:(by exists before, k, v, after)). discriminate IH.
      * split.
        -- intros [= ->]. destruct (proj1 IH eq_refl) as (before & k & v & after & -> & Hmov & Hv).
           exists ((key, value) :: before), k, v, after. split; [done|]. split; [|done].
           constructor; [by exists moved|done].
        -- intros (before & k & v & after & Hb & Hmov & Hv).
           destruct before as [|item before]; cbn in Hb.
           ++ injection Hb as <- <- <-. congruence.
           ++ injection Hb as <- ->. apply Forall_cons in Hmov as [_ Hmov].
              apply IH. by exists before, k, v, after.
      * split; [discriminate|].
        intros (before & k & v & after & Hb & Hmov & Hv).
        destruct before as [|item before]; cbn in Hb.
        -- injection Hb as <- <- <-. congruence.
        -- injection Hb as <- ->. apply Forall_cons in Hmov as [_ Hmov].
           destruct IH as [_ IH].
           specialize (IH ltac:(by exists before, k, v, after)). discriminate IH.
    + split.
      * intros [= ->]. exists [], key, value, batch. by repeat split.
      * intros (before & k & v & after & Hb & Hmov & Hv).
        destruct before as [|item before]; cbn in Hb.
        -- injection Hb as <- <- <-. rewrite Hto in Hv. by injection Hv as ->.
        -- injection Hb as <- ->. apply Forall_cons in Hmov as [[m Hm] _].
           cbn in Hm. congruence.
    + split; [discriminate|].
      intros (before & k & v & after & Hb & Hmov & Hv).
      destruct before as [|item before]; cbn in Hb.
      * injection Hb as <- <- <-. congruence.
      * injection Hb as <- ->. apply Forall_cons in Hmov as [[m Hm] _].
        cbn in Hm. congruence.
Qed.

Lemma keys_of_filter (keep : string → bool) (d : Dict Tensor) :
  dict_keys (List.filter (λ item : string * Tensor, keep item.1) d)
  = List.filter keep (dict_keys d).
Proof.
  unfold dict_keys. induction d as [|[key value] d IH]; [done|].
  cbn [List.filter map fst]. destruct (keep key); cbn [map fst]; by rewrite IH.
Qed.

Lemma keys_of_moved ec batch moved :
  move_to_device tensor_to device ec batch = Ok moved → dict_keys moved = dict_keys batch.
Proof.
  intros Hm. apply move_to_device_ok in Hm. unfold dict_keys.
  induction Hm as [|item after batch moved [Hkey _] _ IH]; [done|].
  cbn. by rewrite Hkey, IH.
Qed.

Lemma is_accepted_spec key :
  is_accepted key = true ↔ key ∈ accepted_transformer_features.
Proof.
  unfold is_accepted. rewrite existsb_exists. split.
  - intros (k & Hin & Heq). apply String.eqb_eq in Heq as ->. by apply list_elem_of_In.
  - intros Hin. exists key. split; [by apply list_elem_of_In|apply String.eqb_refl].
Qed.

(** X20: a prepared batch holds the items of the batch whose keys are
    ["input_ids"], ["attention_mask"] or ["token_type_ids"], in the
    order of the batch, each tensor moved to the device of the
    evaluation configuration; every other item, the labels among them, is
    dropped, and the keys stay distinct. *)
Theorem prepared_batch_holds_accepted_features ec batch prepared :
  NoDup (dict_keys batch) →
  _prepare_batch tensor_to device ec batch = Ok prepared →
  dict_keys prepared = List.filter is_accepted (dict_keys batch) ∧
  NoDup (dict_keys prepared) ∧
  Forall (λ key, key ∈ accepted_transformer_features) (dict_keys prepared) ∧
  (∀ key moved,
     (key, moved) ∈ prepared ↔
     is_accepted key = true ∧
     ∃ value, (key, value) ∈ batch ∧ tensor_to value (device ec) = Ok moved).
Proof.
  intros Hnodup. unfold _prepare_batch.
  destruct (move_to_device tensor_to device ec batch) as [moved|e|] eqn:Hm; simpl;
    [|discriminate..].
  intros [= <-].
  assert (Hkeys : dict_keys (List.filter (λ item : string * Tensor, is_accepted item.1) moved)
                  = List.filter is_accepted (dict_keys batch))
    by (by rewrite keys_of_filter, (keys_of_moved _ _ _ Hm)).
  split; [done|]. split; [|split].
  - rewrite Hkeys. apply NoDup_ListNoDup, List.NoDup_filter, NoDup_ListNoDup, Hnodup.
  - rewrite Hkeys. apply Forall_forall. intros key Hin.
    apply list_elem_of_In, filter_In in Hin as [_ Hacc]. by apply is_accepted_spec.
  - intros key after. rewrite list_elem_of_In, filter_In. cbn [fst].
    apply move_to_device_ok in Hm. split.
    + intros [Hin Hacc]. split; [done|].
      apply list_elem_of_In, list_elem_of_lookup in Hin as [i Hi].
      destruct (Forall2_lookup_r _ _ _ _ _ Hm Hi) as ([k value] & Hb & Hk & Hto).
      cbn [fst snd] in *. subst k. exists value. split; [|done].
      by eapply list_elem_of_lookup_2.
    + intros (Hacc & value & Hin & Hto). split; [|done].
      apply list_elem_of_lookup in Hin as [i Hi].
      destruct (Forall2_lookup_l _ _ _ _ _ Hm Hi) as ([k after'] & Ha & Hk & Hto').
      cbn [fst snd] in *. subst k. rewrite Hto in Hto'. injection Hto' as <-.
      apply list_elem_of_In. by eapply list_elem_of_lookup_2.
Qed.

(** X21: [_prepare_batch] moves every tensor of the batch before it drops
    any: it raises exactly when some tensor cannot be moved, with the
    exception of the first such tensor in the order of the batch, also
    when the key of that tensor is not an accepted feature. *)
Theorem prepare_batch_moves_every_tensor ec batch e :
  _prepare_batch tensor_to device ec batch = Raise e ↔
  ∃ before key value after,
    batch = before ++ (key, value) :: after ∧
    movable tensor_to device ec before ∧
    tensor_to value (device ec) = Raise e.
Proof.
  rewrite <- move_to_device_raises. unfold _prepare_batch.
  by destruct (move_to_device tensor_to device ec batch).
Qed.

Lemma lookup_prepared ec batch moved key :
  move_to_device tensor_to device ec batch = Ok moved →
  is_accepted key = true →
  dict_lookup (List.filter (λ item : string * Tensor, is_accepted item.1) moved) key
  = match dict_lookup batch key with
    | Some value =>
        match tensor_to value (device ec) with
        | Ok after => Some after
        | _ => None
        end
    | None => None
    end.
Proof.
  intros Hm Hacc. apply move_to_device_ok in Hm. unfold dict_lookup.
  induction Hm as [|[k value] [k' after] batch moved [Hkey Hto] _ IH]; [done|].
  cbn [fst snd] in *. subst k'. cbn [List.filter List.find fst].
  destruct (String.eqb k key) eqn:Hk.
  - apply String.eqb_eq in Hk as ->. rewrite Hacc. cbn [List.find fst].
    rewrite String.eqb_refl. cbn. by rewrite Hto.
  - destruct (is_accepted k); [|exact IH].
    cbn [List.find fst]. by rewrite Hk.
Qed.

(** X22: a model that is an [nn.Module] but no [PreTrainedModel] is called
    on the ["input_ids"] tensor of the batch alone, moved to the device;
    when every tensor of the batch can be moved and the batch has no
    ["input_ids"], the forward pass raises [KeyError], which is none of
    the classes that the [except] clause of the iteration catches. *)
Theorem torch_module_is_given_input_ids ec (forward : Tensor → outcome Tensor) batch
    (torch_stack_last : list Tensor → outcome Tensor) (str_keys : Dict Tensor → string) :
  movable tensor_to device ec batch →
  forward_pass tensor_to torch_stack_last str_keys device ec (TorchModule forward) batch
  = match dict_lookup batch "input_ids" with
    | Some input_ids => moved ← tensor_to input_ids (device ec); forward moved
    | None => Raise (Builtin KeyError "'input_ids'")
    end ∧
  is_transient KeyError = false.
Proof.
  intros Hmov. split; [|done].
  destruct (move_to_device_movable ec batch Hmov) as [moved Hm].
  unfold forward_pass, _prepare_batch. rewrite Hm. simpl.
  unfold dict_get. rewrite (lookup_prepared ec batch moved "input_ids" Hm eq_refl).
  destruct (dict_lookup batch "input_ids") as [value|] eqn:Hl; [|done].
  assert (∃ after, tensor_to value (device ec) = Ok after) as [after Hto].
  { unfold dict_lookup in Hl.
    destruct (List.find _ batch) as [[k v]|] eqn:Hf; [|discriminate Hl].
    injection Hl as ->. apply find_some in Hf as [Hin _].
    unfold movable in Hmov. rewrite Forall_forall in Hmov.
    by apply (Hmov (k, value)), list_elem_of_In. }
  by rewrite Hto.
Qed.

Lemma prepare_batch_filters_first ec batch :
  movable tensor_to device ec batch →
  _prepare_batch tensor_to device ec batch
  = move_to_device tensor_to device ec
      (List.filter (λ item : string * Tensor, is_accepted item.1) batch).
Proof.
  unfold _prepare_batch, move_to_device.
  induction 1 as [|[key value] batch [after Hto] Hmov IH]; [done|].
  cbn [map_raising List.filter fst snd] in *. rewrite Hto. simpl.
  destruct (move_to_device_movable ec batch Hmov) as [moved Hm].
  unfold move_to_device in Hm. rewrite Hm in *. simpl in *.
  destruct (is_accepted key); cbn [map_raising List.filter fst snd].
  - rewrite Hto. simpl. by rewrite <- IH.
  - exact IH.
Qed.

(** X23: what the model is given depends on the accepted features of the
    batch alone: two batches whose tensors can all be moved to the device
    and that have the same items under ["input_ids"], ["attention_mask"]
    and ["token_type_ids"] give the same result with every model,
    whatever else they hold; in particular the labels of a batch never
    reach the model. *)
Theorem model_sees_only_accepted_features ec (model : ModelObject) batch batch'
    (torch_stack_last : list Tensor → outcome Tensor) (str_keys : Dict Tensor → string) :
  movable tensor_to device ec batch →
  movable tensor_to device ec batch' →
  List.filter (λ item : string * Tensor, is_accepted item.1) batch
  = List.filter (λ item : string * Tensor, is_accepted item.1) batch' →
  forward_pass tensor_to torch_stack_last str_keys device ec model batch
  = forward_pass tensor_to torch_stack_last str_keys device ec model batch'.
Proof.
  intros Hmov Hmov' Hsame. unfold forward_pass.
  by rewrite !prepare_batch_filters_first, Hsame.
Qed.

End WithTensors.

End MethodsFacts.

(** ** The facts about runs, on the runs of the toy environment *)

Module SceneFacts.
Import Config Py Scoring Task Toy Watch Methods Scenes TaskFacts ToyFacts.



Lemma successful_pytorch_jax_iteration_steps_witness :
  ∃ pairs : list (list nat * list nat),
    (toy_iteration good 0).1.2
    = EvIteration (E := toy_env good) 0
      :: seeds_for pytorch_jax_sources 0
      ++ [EvLoadModel (toy_model_config good)]
      ++ (if track_carbon_emissions (run_config true) then [EvTrackerStart] else [])
      ++ concat (replicate (length (batches_of (ds_len tweets)
                                      (batch_size_of (run_config true)) (rows tweets)))
                           [EvCollate; EvPredict])
      ++ [EvPreparePredictions]
      ++ (if (0 =? 0)%nat then [EvCheckTrained (Ok true)] else [])
      ++ map metric_call
           (zip (tc_metrics (sent_config ["text"]))
                (copy_single_pair (E := toy_env good) (sent_config ["text"]) pairs))
      ++ (if track_carbon_emissions (run_config true) then [EvTrackerStop] else []).
Proof.
  apply (RunFacts.successful_pytorch_jax_iteration_steps (E := toy_env good)
           (sent_config ["text"]) (run_config true) 0 (toy_model_config good)
           tweets tweets () (start good) (toy_iteration good 0).1.1
           (toy_iteration good 0).1.2
           (scores_of (returned (IterErr RuntimeError "") (toy_iteration good 0).2))).
  apply (run_is (toy_iteration good 0)). vm_compute. reflexivity.
Defined.

Lemma successful_spacy_iteration_steps_witness :
  ∃ pairs : list (list nat * list nat),
    (toy_spacy_iteration spacy_model 0).1.2
    = EvIteration (E := toy_env spacy_model) 0
      :: seeds_for spacy_sources 0
      ++ [EvLoadModel (toy_model_config spacy_model)]
      ++ (if track_carbon_emissions (run_config true) then [EvTrackerStart] else [])
      ++ [EvPredict]
      ++ (if (0 =? 0)%nat then [EvCheckTrained (Ok true)] else [])
      ++ [EvPreparePredictions]
      ++ map metric_call
           (zip (tc_metrics (sent_config ["text"]))
                (copy_single_pair (E := toy_env spacy_model) (sent_config ["text"]) pairs))
      ++ (if track_carbon_emissions (run_config true) then [EvTrackerStop] else []).
Proof.
  apply (RunFacts.successful_spacy_iteration_steps (E := toy_env spacy_model)
           (sent_config ["text"]) (run_config true) 0 (toy_model_config spacy_model)
           tweets tweets (start spacy_model) (toy_spacy_iteration spacy_model 0).1.1
           (toy_spacy_iteration spacy_model 0).1.2
           (scores_of (returned (IterErr RuntimeError "")
                         (toy_spacy_iteration spacy_model 0).2))).
  apply (run_is (toy_spacy_iteration spacy_model 0)). vm_compute. reflexivity.
Defined.

Lemma first_iteration_needs_a_batch_witness :
  (toy_iteration no_records 0).2
  = Raise (Builtin UnboundLocalError
             "local variable 'model_predictions' referenced before assignment") ∧
  Forall (λ ev, ¬ uses_predictions ev) (toy_iteration no_records 0).1.2.
Proof.
  split; [vm_compute; reflexivity|].
  apply (RunFacts.first_iteration_needs_a_batch (E := toy_env no_records)
           (sent_config ["text"]) (run_config true) (toy_model_config no_records)
           no_tweets no_tweets () (start no_records)
           (toy_iteration no_records 0).1.1 (toy_iteration no_records 0).1.2
           (toy_iteration no_records 0).2).
  - reflexivity.
  - apply (run_is (toy_iteration no_records 0)). reflexivity.
Defined.

Lemma tracking_needs_a_record_witness :
  (toy_tracked_iteration no_records 1).2
  = Raise (Builtin ZeroDivisionError "division by zero") ∧
  (∀ scores, (toy_tracked_iteration no_records 1).2 ≠ Ok (IterScores scores)).
Proof.
  split; [vm_compute; reflexivity|].
  apply (RunFacts.tracking_needs_a_record (E := toy_env no_records)
           (sent_config ["text"]) tracking_config 1 (toy_model_config no_records)
           no_tweets no_tweets () (start no_records)
           (toy_tracked_iteration no_records 1).1.1 (toy_tracked_iteration no_records 1).1.2
           (toy_tracked_iteration no_records 1).2).
  - reflexivity.
  - reflexivity.
  - left. apply (run_is (toy_tracked_iteration no_records 1)). reflexivity.
Defined.

Lemma score_record_keys_witness :
  is_Some (scores_of (returned (IterErr RuntimeError "") (toy_tracked_iteration good 0).2)
           !! "carbon_emissions") ∧
  is_Some (scores_of (returned (IterErr RuntimeError "") (toy_tracked_iteration good 0).2)
           !! "energy_consumed").
Proof.
  apply (RunFacts.score_record_keys (E := toy_env good)
           (sent_config ["text"]) tracking_config 0 (toy_model_config good)
           tweets tweets () (start good)
           (toy_tracked_iteration good 0).1.1 (toy_tracked_iteration good 0).1.2
           (scores_of (returned (IterErr RuntimeError "") (toy_tracked_iteration good 0).2))).
  - left. apply (run_is (toy_tracked_iteration good 0)). vm_compute. reflexivity.
  - reflexivity.
Defined.


Lemma metrics_computed_pairwise_witness :
  (toy_metrics_on_one_pair good).1.2
  = map (metric_call (E := toy_env good))
        (zip (tc_metrics (sent_config ["text"])) [toy_pair]) ∧
  length (toy_metrics_on_one_pair good).1.2 = 1.
Proof.
  destruct (RunFacts.metrics_computed_pairwise (E := toy_env good)
              (sent_config ["text"]) [toy_pair] (start good)
              (toy_metrics_on_one_pair good).1.1 (toy_metrics_on_one_pair good).1.2
              (toy_metrics_on_one_pair good).2) as (_ & Hok & _).
  - apply (run_is (toy_metrics_on_one_pair good)). reflexivity.
  - destruct (Hok (returned ∅ (toy_metrics_on_one_pair good).2)) as (Hcalls & Hlen & _).
    + vm_compute. reflexivity.
    + split; [exact Hcalls|exact Hlen].
Defined.

Lemma setup_builds_one_dataset_per_iteration_witness :
  length (toy_datasets good).1 = 2 ∧ length (toy_datasets good).2 = 2 ∧
  Forall (λ bd, ds_len bd = 4) (toy_datasets good).1.
Proof.
  destruct (RunFacts.setup_builds_one_dataset_per_iteration (E := toy_env good)
              (run_config true) ((), ()) tweets 4242 2 (start good)
              (toy_setup good).1.1 (toy_setup good).1.2
              (toy_datasets good).1 (toy_datasets good).2)
    as (Hbds & Hpds & _ & _ & Hsize).
  - left. exists (). apply (run_is (toy_setup good)). vm_compute. reflexivity.
  - split; [exact Hbds|]. split; [exact Hpds|].
    apply Hsize, toy_integers_in_range.
Defined.

Lemma evaluation_begins_with_acquisition_witness :
  ∃ mc,
    ((toy_evaluate good ["text"] true).1.2 ≠ [] ∧
     (toy_evaluate good ["text"] true).1.2
     `prefix_of` acquire_trace (run_config true) "pin/senda" mc) ∨
    (∃ rest,
       (toy_evaluate good ["text"] true).1.2
       = acquire_trace (run_config true) "pin/senda" mc ++ rest ∧
       Forall (λ ev, ¬ is_acquisition ev) rest).
Proof.
  apply (RunFacts.evaluation_begins_with_acquisition (E := toy_env good)
           (sent_config ["text"]) (run_config true) 1 "pin/senda" (start good)
           (toy_evaluate good ["text"] true).1.1 (toy_evaluate good ["text"] true).1.2
           (toy_evaluate good ["text"] true).2).
  apply (run_is (toy_evaluate good ["text"] true)). reflexivity.
Defined.

Lemma unsupported_framework_is_rejected_witness :
  toy_evaluate tensorflow_model ["text"] true
  = ((toy_acquire tensorflow_model ["text"] true).1.1,
     acquire_trace (run_config true) "pin/senda" (toy_model_config tensorflow_model),
     Raise (InvalidFramework "tensorflow")) ∧
  iterations_of (acquire_trace (E := toy_env tensorflow_model) (run_config true)
                   "pin/senda" (toy_model_config tensorflow_model)) = [] ∧
  resamples_of (acquire_trace (E := toy_env tensorflow_model) (run_config true)
                  "pin/senda" (toy_model_config tensorflow_model)) = [].
Proof.
  apply (RunFacts.unsupported_framework_is_rejected (E := toy_env tensorflow_model)
           (sent_config ["text"]) (run_config true) 1 "pin/senda" (start tensorflow_model)
           (toy_acquire tensorflow_model ["text"] true).1.1
           (toy_acquire tensorflow_model ["text"] true).1.2
           (toy_model_config tensorflow_model) 4242 ((), ()) tweets tweets_with_text).
  - apply (run_is (toy_acquire tensorflow_model ["text"] true)). vm_compute. reflexivity.
  - vm_compute. reflexivity.
  - discriminate.
  - discriminate.
  - discriminate.
Defined.

Lemma tracker_untouched_without_tracking_witness :
  Forall (λ ev, ¬ is_tracker ev) (toy_evaluate good ["text"] true).1.2 ∧
  logged_metric_configs (E := toy_env good) (sent_config ["text"]) (run_config true)
  = [MACRO_F1; MCC].
Proof.
  apply (RunFacts.tracker_untouched_without_tracking (E := toy_env good)
           (sent_config ["text"]) (run_config true) 1 "pin/senda" (start good)).
  reflexivity.
Defined.


Lemma prepared_batch_holds_accepted_features_witness :
  dict_keys (V := ToyTensor)
    [("input_ids", [101; 7; 102]); ("attention_mask", [1; 1; 1])]
  = List.filter is_accepted (dict_keys toy_batch) ∧
  _prepare_batch toy_to toy_device (run_config true) toy_batch
  = Ok [("input_ids", [101; 7; 102]); ("attention_mask", [1; 1; 1])].
Proof.
  split; [|reflexivity].
  apply (MethodsFacts.prepared_batch_holds_accepted_features toy_to toy_device
           (run_config true) toy_batch
           [("input_ids", [101; 7; 102]); ("attention_mask", [1; 1; 1])]).
  - unfold toy_batch, dict_keys. cbn [map fst].
    repeat (apply NoDup_cons_2;
            [rewrite ?elem_of_cons, ?elem_of_nil; intros H;
             repeat (destruct H as [H|H]; [discriminate H|]); exact H|]).
    apply NoDup_nil_2.
  - reflexivity.
Defined.

Lemma torch_module_is_given_input_ids_witness :
  forward_pass toy_to toy_stack toy_str_keys toy_device (run_config true) toy_module
    toy_batch_without_ids
  = Raise (Builtin KeyError "'input_ids'") ∧
  forward_pass toy_to toy_stack toy_str_keys toy_device (run_config true) toy_module
    toy_batch
  = Ok [202; 14; 204].
Proof.
  split.
  - apply (MethodsFacts.torch_module_is_given_input_ids toy_to toy_device (run_config true)
             (λ input_ids, Ok (map (λ entry, 2 * entry) input_ids))
             toy_batch_without_ids toy_stack toy_str_keys).
    unfold movable, toy_batch_without_ids.
    repeat (apply Forall_cons; split; [eexists; reflexivity|]). apply Forall_nil. exact I.
  - apply (MethodsFacts.torch_module_is_given_input_ids toy_to toy_device (run_config true)
             (λ input_ids, Ok (map (λ entry, 2 * entry) input_ids))
             toy_batch toy_stack toy_str_keys).
    unfold movable, toy_batch.
    repeat (apply Forall_cons; split; [eexists; reflexivity|]). apply Forall_nil. exact I.
Defined.

Lemma model_sees_only_accepted_features_witness :
  forward_pass toy_to toy_stack toy_str_keys toy_device (run_config true) toy_module
    toy_batch
  = forward_pass toy_to toy_stack toy_str_keys toy_device (run_config true) toy_module
      toy_batch_relabelled.
Proof.
  apply (MethodsFacts.model_sees_only_accepted_features toy_to toy_device (run_config true)
           toy_module toy_batch toy_batch_relabelled toy_stack toy_str_keys).
  - unfold movable, toy_batch.
    repeat (apply Forall_cons; split; [eexists; reflexivity|]). apply Forall_nil. exact I.
  - unfold movable, toy_batch_relabelled.
    repeat (apply Forall_cons; split; [eexists; reflexivity|]). apply Forall_nil. exact I.
  - reflexivity.
Defined.


Lemma returned_error_releases_model_witness :
  (toy_iteration out_of_memory 1).2 = Ok (IterErr RuntimeError "CUDA out of memory") ∧
  released (toy_iteration out_of_memory 1).1.1 (toy_iteration out_of_memory 1).1.2 ∧
  toy_iteration no_mps_fallback 0
  = ((toy_try_block no_mps_fallback 0).1.1,
     EvIteration (E := toy_env no_mps_fallback) 0 :: (toy_try_block no_mps_fallback 0).1.2,
     Raise MPSFallbackNotEnabled) ∧
  ¬ Exists is_cleanup
      (EvIteration (E := toy_env no_mps_fallback) 0 :: (toy_try_block no_mps_fallback 0).1.2).
Proof.
  split; [vm_compute; reflexivity|]. split.
  - apply (proj1 (RunFacts.returned_error_releases_model (E := toy_env out_of_memory)
                    (sent_config ["text"]) (run_config true) 1
                    (toy_model_config out_of_memory) tweets tweets () (start out_of_memory)
                    (toy_iteration out_of_memory 1).1.1 (toy_iteration out_of_memory 1).1.2
                    RuntimeError "CUDA out of memory"
                    (start out_of_memory) [])).
    left. apply (run_is (toy_iteration out_of_memory 1)). vm_compute. reflexivity.
  - apply (proj2 (RunFacts.returned_error_releases_model (E := toy_env no_mps_fallback)
                    (sent_config ["text"]) (run_config true) 0
                    (toy_model_config no_mps_fallback) tweets tweets ()
                    (start no_mps_fallback)
                    (start no_mps_fallback) [] RuntimeError mps_message
                    (toy_try_block no_mps_fallback 0).1.1
                    (toy_try_block no_mps_fallback 0).1.2)).
    + reflexivity.
    + vm_compute. reflexivity.
    + apply (run_is (toy_try_block no_mps_fallback 0)). vm_compute. reflexivity.
Defined.

Lemma preprocessing_value_error_is_replaced_witness :
  (toy_setup unpreprocessable).2 = Raise PreprocessingFailed ∧
  (toy_setup unpreprocessable).1.2
  = (toy_bootstrap unpreprocessable).1.2
    ++ [EvPreprocess (E := toy_env unpreprocessable) "pytorch"].
Proof.
  destruct (RunFacts.preprocessing_value_error_is_replaced (E := toy_env unpreprocessable)
              (run_config true) ((), ()) tweets first_tweets 4242 2
              (start unpreprocessable)
              (toy_bootstrap unpreprocessable).1.1 (toy_bootstrap unpreprocessable).1.2
              (default first_tweets (head (toy_bootstrapped unpreprocessable)))
              (tail (toy_bootstrapped unpreprocessable))
              "text input must be of type `str`"
              (start unpreprocessable) [] PreprocessingFailed) as [Hreplaced _].
  destruct Hreplaced as [Hpytorch _].
  - vm_compute. reflexivity.
  - apply (run_is (toy_bootstrap unpreprocessable)). vm_compute. reflexivity.
  - unfold toy_setup. cbn [script_dataset unpreprocessable].
    rewrite Hpytorch; [by split|reflexivity].
Defined.

End SceneFacts.
